(** * simple_events: key and joystick binding tables and the KeyListener

    A shallow embedding of [simple_events/joy_map.py],
    [simple_events/key_manager.py] and [event_handler/file_parser.py].

    Python dictionaries are insertion ordered and the code depends on that
    order (the first slot holding a bind name wins a scan, a merge replays the
    other table slot by slot), so a dictionary is an association list in
    insertion order whose keys are pairwise distinct.  Mutation becomes
    explicit state passing; a raised exception is the [Raise] case of
    [result]; log records are returned next to the new state. *)

From Stdlib Require Import List ZArith String Bool Lia.
Import ListNotations.
Open Scope string_scope.
Open Scope Z_scope.
Open Scope list_scope.

(** ** Python values, exceptions *)

(** Hashable values: what event attributes and the keys of the tables hold
    once analog read-outs are gone: [None], an int, a str, or a tuple of
    such (the [rel] of a trackball motion, say). *)
#[warnings="-register-all"] Inductive pyval : Type :=
| PNone
| PInt (z : Z)
| PStr (s : string)
| PTuple (items : list pyval).

Inductive exn : Type :=
| ValueError
| TypeError
| IndexError
| KeyError.

Inductive result (A : Type) : Type :=
| Ok (a : A)
| Raise (e : exn).
Arguments Ok {A} a.
Arguments Raise {A} e.

Definition rbind {A B : Type} (r : result A) (k : A -> result B) : result B :=
  match r with
  | Ok a => k a
  | Raise e => Raise e
  end.

Notation "x <- r ;; k" := (rbind r (fun x => k))
  (at level 61, r at next level, right associativity).

(** Equality of keys, as [==] and [hash] give it on the modelled values. *)
Class EqDec (K : Type) : Type :=
  eq_dec : forall a b : K, {a = b} + {a <> b}.

#[export] Instance string_EqDec : EqDec string := string_dec.
#[export] Instance Z_EqDec : EqDec Z := Z.eq_dec.
#[export] Instance bool_EqDec : EqDec bool := bool_dec.
#[export] Instance nat_EqDec : EqDec nat := Nat.eq_dec.

#[export] Instance pyval_EqDec : EqDec pyval.
Proof.
  unfold EqDec. fix IH 1. intros a b.
  destruct a as [| z | s | items], b as [| z' | s' | items'];
    try (right; discriminate).
  - left. reflexivity.
  - destruct (Z.eq_dec z z') as [-> | Hne]; [left; reflexivity |].
    right. intros H. inversion H. contradiction.
  - destruct (string_dec s s') as [-> | Hne]; [left; reflexivity |].
    right. intros H. inversion H. contradiction.
  - destruct (list_eq_dec IH items items') as [-> | Hne]; [left; reflexivity |].
    right. intros H. inversion H. contradiction.
Defined.

#[export] Instance option_EqDec {K : Type} `{EqDec K} : EqDec (option K).
Proof.
  intros a b. unfold EqDec in *. decide equality.
Defined.

#[export] Instance prod_EqDec {A B : Type} `{EqDec A} `{EqDec B} : EqDec (A * B).
Proof.
  intros a b. unfold EqDec in *. decide equality.
Defined.

#[export] Instance list_EqDec {K : Type} `{EqDec K} : EqDec (list K).
Proof.
  intros a b. unfold EqDec in *. decide equality.
Defined.

Definition eqb {K : Type} `{EqDec K} (a b : K) : bool :=
  if eq_dec a b then true else false.

(** ** Python lists and dictionaries *)

Section PyList.
Context {A : Type} `{EqDec A}.

(** [x in l] *)
Fixpoint py_in (x : A) (l : list A) : bool :=
  match l with
  | [] => false
  | y :: r => if eq_dec x y then true else py_in x r
  end.

(** [l.remove(x)]: drops the first occurrence only.  The callers test
    [x in l] first, so the [ValueError] of an absent item never fires. *)
Fixpoint list_remove (x : A) (l : list A) : list A :=
  match l with
  | [] => []
  | y :: r => if eq_dec x y then r else y :: list_remove x r
  end.
End PyList.

Section PyDict.
Context {K V : Type} `{EqDec K}.

Definition dict : Type := list (K * V).

(** [d.get(k)] *)
Fixpoint dget (k : K) (d : dict) : option V :=
  match d with
  | [] => None
  | (k', v) :: r => if eq_dec k k' then Some v else dget k r
  end.

(** [d[k] = v] and [d.update({k: v})]: an existing key keeps its place. *)
Fixpoint dset (k : K) (v : V) (d : dict) : dict :=
  match d with
  | [] => [(k, v)]
  | (k', v') :: r =>
      if eq_dec k k' then (k', v) :: r else (k', v') :: dset k v r
  end.

(** [d.pop(k, None)], the dictionary afterwards. *)
Fixpoint dpop (k : K) (d : dict) : dict :=
  match d with
  | [] => []
  | (k', v') :: r => if eq_dec k k' then r else (k', v') :: dpop k r
  end.

(** [d.setdefault(k, v)]: the stored value and the dictionary afterwards. *)
Definition setdefault (k : K) (v : V) (d : dict) : V * dict :=
  match dget k d with
  | Some v' => (v', d)
  | None => (v, dset k v d)
  end.

Definition keys (d : dict) : list K := map fst d.
Definition values (d : dict) : list V := map snd d.

(** Keys are pairwise distinct: what every Python dictionary satisfies. *)
Definition unique_keys (d : dict) : Prop := NoDup (keys d).
End PyDict.
Arguments dict K V : clear implicits.

(** [d.setdefault(k, []).append(x)]: the list stored under [k] is the one
    that grows. *)
Definition setdefault_append {K A : Type} `{EqDec K}
    (k : K) (x : A) (d : dict K (list A)) : dict K (list A) :=
  let '(l, d') := setdefault k [] d in
  dset k (l ++ [x]) d'.

Definition pydict : Type := dict pyval pyval.

(** A pygame event: its type and its attribute dictionary [__dict__]. *)
Record Event : Type := mkEvent {
  type_ : Z;
  __dict__ : pydict
}.

(** [getattr(event, name, None)] *)
Definition getattr (event : Event) (name : string) : pyval :=
  match dget (PStr name) (__dict__ event) with
  | Some v => v
  | None => PNone
  end.

(** What [_convert_event] may be handed: an event, a dict, anything else. *)
Inductive event_arg : Type :=
| ArgEvent (e : Event)
| ArgDict (d : pydict)
| ArgOther (v : pyval).

(** ** joy_map.py *)

Module JoyMap.

Definition _invalid_params : list pyval :=
  [PStr "value"; PStr "instance_id"; PStr "joy"].

(** [tuple[tuple]]: the pairs in the order the loop met them. *)
Definition pattern : Type := list (pyval * pyval).

(** The dataclass has the single field [_joy_binds]; the object is
    identified with it. *)
Definition JoyMap : Type := dict (option pattern) (list string).

Definition _joy_binds (self : JoyMap) : dict (option pattern) (list string) :=
  self.

(** The loop of [_convert_event] over [event_dict.items()]. *)
Definition convert_items (event_dict : pydict) : pattern :=
  fold_left
    (fun (pairs : pattern) (item : pyval * pyval) =>
       let '(key, value) := item in
       if py_in key _invalid_params then pairs else pairs ++ [(key, value)])
    event_dict [].

Definition _convert_event (event : event_arg) : result pattern :=
  event_dict <- match event with
                | ArgEvent e => Ok (__dict__ e)
                | ArgDict d => Ok d
                | ArgOther _ => Raise ValueError
                end ;;
  Ok (convert_items event_dict).

(** [dict((key, value) for key, value in event_key)] *)
Definition _convert_pairs (event_key : pattern) : pydict :=
  fold_left (fun (d : pydict) (kv : pyval * pyval) => dset (fst kv) (snd kv) d)
    event_key [].

Definition get (self : JoyMap) (event : event_arg)
    (default : option (list string)) : result (list string) :=
  key <- _convert_event event ;;
  let default := match default with None => [] | Some l => l end in
  Ok (match dget (Some key) (_joy_binds self) with
      | Some l => l
      | None => default
      end).

(** The scan of [get_bound_joystick_event]: the key of the first slot
    whose list holds [bind_name]. *)
Fixpoint bound_slot (bind_name : string) (items : JoyMap)
    : option (option pattern) :=
  match items with
  | [] => None
  | (key, bind_list) :: rest =>
      if py_in bind_name bind_list then Some key
      else bound_slot bind_name rest
  end.

Definition get_bound_joystick_event (self : JoyMap) (bind_name : string)
    : result (option pydict) :=
  match bound_slot bind_name (_joy_binds self) with
  | Some None => Ok None
  | Some (Some key) => Ok (Some (_convert_pairs key))
  | None => Raise ValueError
  end.

Definition generate_bind (self : JoyMap) (bind_name : string)
    (default_joystick_data : option pydict) : JoyMap :=
  match get_bound_joystick_event self bind_name with
  | Ok _ => self
  | Raise _ =>
      setdefault_append
        (match default_joystick_data with
         | Some d => Some (convert_items d)
         | None => None
         end)
        bind_name (_joy_binds self)
  end.

Definition remove_bind (self : JoyMap) (bind_name : string) : JoyMap :=
  (* first loop: the lists are edited in place, dead keys collected *)
  let edited :=
    map (fun (item : option pattern * list string) =>
           let '(key, bind_list) := item in
           (key, if py_in bind_name bind_list
                 then list_remove bind_name bind_list
                 else bind_list))
        (_joy_binds self) in
  let dead_keys :=
    keys (filter (fun item => (List.length (snd item) =? 0)%nat) edited) in
  (* second loop *)
  fold_left (fun d key => dpop key d) dead_keys edited.

Definition _rebind (self : JoyMap) (bind_name : string)
    (new_joystick_data : option pattern) : JoyMap :=
  setdefault_append new_joystick_data bind_name (remove_bind self bind_name).

Definition rebind (self : JoyMap) (bind_name : string)
    (new_joystick_data : option pydict) : JoyMap :=
  _rebind self bind_name
    (match new_joystick_data with
     | Some d => Some (convert_items d)
     | None => None
     end).

Definition merge (self other : JoyMap) : JoyMap :=
  fold_left
    (fun (s : JoyMap) (item : option pattern * list string) =>
       let '(joy_data, bind_list) := item in
       fold_left (fun s' bind => _rebind s' bind joy_data) bind_list s)
    (_joy_binds other) self.

Definition pack_binds (self : JoyMap) : dict string (option pattern) :=
  fold_left
    (fun (packed_dict : dict string (option pattern))
         (item : option pattern * list string) =>
       let '(joy_data, bind_list) := item in
       fold_left (fun p bind => dset bind joy_data p) bind_list packed_dict)
    (_joy_binds self) [].

End JoyMap.

(** ** key_map.py *)

Module KeyMap.

(** Modelled from the spec: the [KeyBind] dataclass of key_map.py, which
    is not among the sources: a bind's name and its optional modifier
    constraint, as [KeyBind(bind_name=..., mod=...)] builds it in
    key_manager.py. *)
Record KeyBind : Type := mkKeyBind {
  bind_name : string;
  mod_ : option Z
}.

#[export] Instance KeyBind_EqDec : EqDec KeyBind.
Proof.
  intros a b. unfold EqDec in *.
  decide equality; [apply option_EqDec | apply string_dec].
Defined.

(** Modelled from the spec: the key table of key_map.py, a mapping from a
    key code or [None] to the ordered list of the binds under it; the
    object is identified with its [key_binds] attribute. *)
Definition KeyMap : Type := dict (option Z) (list KeyBind).

Definition key_binds (self : KeyMap) : dict (option Z) (list KeyBind) := self.

Definition names (bind_list : list KeyBind) : list string :=
  map bind_name bind_list.

(** The bind is the one of that name. *)
Definition named (name : string) (b : KeyBind) : bool :=
  eqb (bind_name b) name.
Arguments named : simpl never.

(** The linear scan over all slots for a bind name. *)
Fixpoint bound_slot (name : string) (items : KeyMap)
    : option (option Z * option Z) :=
  match items with
  | [] => None
  | (key, bind_list) :: rest =>
      match find (named name) bind_list with
      | Some b => Some (key, mod_ b)
      | None => bound_slot name rest
      end
  end.

(** Modelled from the spec: [get_bound_key(name)] of key_map.py, a linear
    scan of all lists that fails with NotFound when the name is in none. *)
Definition get_bound_key (self : KeyMap) (name : string)
    : result (option Z * option Z) :=
  match bound_slot name (key_binds self) with
  | Some km => Ok km
  | None => Raise ValueError
  end.

(** Modelled from the spec: [generate_bind] of key_map.py: a no-op when
    the name has an entry anywhere, else [KeyBind(name, default_mod)] goes
    under [default_key]. *)
Definition generate_bind (self : KeyMap) (name : string)
    (default_key default_mod : option Z) : KeyMap :=
  match get_bound_key self name with
  | Ok _ => self
  | Raise _ =>
      setdefault_append default_key (mkKeyBind name default_mod)
        (key_binds self)
  end.

(** Modelled from the spec: [remove_bind] of key_map.py: every slot is
    scanned, the name is stripped from each list holding it, and a slot
    whose list is empty is deleted. *)
Definition remove_bind (self : KeyMap) (name : string) : KeyMap :=
  filter (fun item => negb (List.length (snd item) =? 0)%nat)
    (map (fun (item : option Z * list KeyBind) =>
            (fst item,
             filter (fun b => negb (named name b)) (snd item)))
       (key_binds self)).

(** Modelled from the spec: [rebind] of key_map.py: the bind name leaves
    its current slot, wherever it is, then the new [KeyBind] is inserted
    under [new_key]. *)
Definition rebind (self : KeyMap) (key_bind : KeyBind) (new_key : option Z)
    : KeyMap :=
  setdefault_append new_key key_bind
    (remove_bind self (bind_name key_bind)).

(** Modelled from the spec: [merge] of key_map.py: every bind of every
    slot of [other] is rebound in [self] to that slot, with its modifier. *)
Definition merge (self other : KeyMap) : KeyMap :=
  fold_left
    (fun (s : KeyMap) (item : option Z * list KeyBind) =>
       fold_left (fun s' b => rebind s' b (fst item)) (snd item) s)
    (key_binds other) self.

(** Modelled from the spec: [pack_binds] of key_map.py, one entry per bind
    name.  [_unpack_keys] reads the first component back with
    [pygame.key.key_code], so it is the key's name, [key_name] standing for
    [pygame.key.name]. *)
Definition pack_binds (key_name : Z -> string) (self : KeyMap)
    : dict string (option string * option Z) :=
  fold_left
    (fun (packed_dict : dict string (option string * option Z))
         (item : option Z * list KeyBind) =>
       fold_left
         (fun p b => dset (bind_name b) (option_map key_name (fst item), mod_ b) p)
         (snd item) packed_dict)
    (key_binds self) [].

End KeyMap.

(** ** file_parser.py *)

Module JSONParser.
Import KeyMap JoyMap.

(** What [json.load] hands back for a value: [None], an int, a str or a
    list.  [json.dump] writes a tuple as an array, so a pattern comes back
    as a list of two-element lists. *)
#[warnings="-register-all"] Inductive jvalue : Type :=
| JNull
| JNum (z : Z)
| JStr (s : string)
| JArr (l : list jvalue).

(** The document [{"keys": ..., "controller": ...}]; a missing member is
    [None]. *)
Record document : Type := mkDocument {
  doc_keys : option (dict string jvalue);
  doc_controller : option (dict string jvalue)
}.

(** [json.dump] of a value: a tuple is written as an array. *)
Fixpoint dump_value (v : pyval) : jvalue :=
  match v with
  | PNone => JNull
  | PInt z => JNum z
  | PStr s => JStr s
  | PTuple items => JArr (map dump_value items)
  end.

(** [json.dump] of what [KeyMap.pack_binds] stores for one bind: the
    [(key name, mod)] tuple becomes a two-element array. *)
Definition dump_key_data (key_data : option string * option Z) : jvalue :=
  JArr [match fst key_data with Some n => JStr n | None => JNull end;
        match snd key_data with Some m => JNum m | None => JNull end].

(** [json.dump] of what [JoyMap.pack_binds] stores for one bind. *)
Definition dump_joy_data (joy_data : option pattern) : jvalue :=
  match joy_data with
  | None => JNull
  | Some pairs =>
      JArr (map (fun kv => JArr [dump_value (fst kv); dump_value (snd kv)]) pairs)
  end.

(** The characters of a str, each a str of length one; every [ascii] of a
    [string] stands for one character of the str. *)
Fixpoint chars (s : string) : list string :=
  match s with
  | EmptyString => []
  | String c r => String c EmptyString :: chars r
  end.

(** [for x in v] *)
Definition iterate (v : jvalue) : result (list jvalue) :=
  match v with
  | JArr l => Ok l
  | JStr s => Ok (map JStr (chars s))
  | JNull | JNum _ => Raise TypeError
  end.

(** [v[i]] *)
Definition getitem (v : jvalue) (i : nat) : result jvalue :=
  match v with
  | JArr l =>
      match nth_error l i with Some x => Ok x | None => Raise IndexError end
  | JStr s =>
      match nth_error (chars s) i with
      | Some x => Ok (JStr x)
      | None => Raise IndexError
      end
  | JNull | JNum _ => Raise TypeError
  end.

(** A member of a dictionary key has to hash; a list does not. *)
Definition hashed (v : jvalue) : result pyval :=
  match v with
  | JNull => Ok PNone
  | JNum z => Ok (PInt z)
  | JStr s => Ok (PStr s)
  | JArr _ => Raise TypeError
  end.

Fixpoint mapM {A B : Type} (f : A -> result B) (l : list A) : result (list B) :=
  match l with
  | [] => Ok []
  | x :: r => y <- f x ;; ys <- mapM f r ;; Ok (y :: ys)
  end.

Definition _unpack_joystick (maps : dict string jvalue) : result JoyMap :=
  fold_left
    (fun (acc : result JoyMap) (item : string * jvalue) =>
       unpacked_dict <- acc ;;
       let '(bind_name, joy_data) := item in
       data_points <- iterate joy_data ;;
       joy_data_points <-
         mapM (fun data_point =>
                 a <- getitem data_point 0 ;;
                 b <- getitem data_point 1 ;;
                 Ok (a, b)) data_points ;;
       fixed_joy_data <-
         mapM (fun ab => a <- hashed (fst ab) ;; b <- hashed (snd ab) ;; Ok (a, b))
           joy_data_points ;;
       Ok (setdefault_append (Some fixed_joy_data) bind_name unpacked_dict))
    maps (Ok []).

Section Pygame.
(** [pygame.key.name] and [pygame.key.key_code], owned by the host. *)
Variable key_name : Z -> string.
Variable key_code : string -> result Z.

(** [key_name, mod = key_data]: the value is iterated and has to give
    exactly two items. *)
Definition unpack_pair (key_data : jvalue) : result (jvalue * jvalue) :=
  items <- iterate key_data ;;
  match items with
  | [a; b] => Ok (a, b)
  | _ => Raise ValueError
  end.

(** [pygame.key.key_code(key_name)] unless [key_name is None]; the call
    takes a str and refuses any other argument with [TypeError]. *)
Definition code_of (name : jvalue) : result (option Z) :=
  match name with
  | JNull => Ok None
  | JStr n => c <- key_code n ;; Ok (Some c)
  | JNum _ | JArr _ => Raise TypeError
  end.

(** Modelled from the spec: the modifier of a [KeyBind] is an integer
    bitmask or [None] (spec 3).  An entry whose modifier is neither has no
    [KeyBind] in this model; it is read as [None], and nothing is stated of
    it. *)
Definition mask_of (modifier : jvalue) : option Z :=
  match modifier with
  | JNum m => Some m
  | _ => None
  end.

Definition _unpack_keys (maps : dict string jvalue) : result KeyMap :=
  fold_left
    (fun (acc : result KeyMap) (item : string * jvalue) =>
       unpacked_dict <- acc ;;
       let '(bind_name, key_data) := item in
       pair <- unpack_pair key_data ;;
       let '(name, modifier) := pair in
       code <- code_of name ;;
       Ok (setdefault_append code (mkKeyBind bind_name (mask_of modifier))
             unpacked_dict))
    maps (Ok []).

Definition save (key_map : KeyMap) (joy_map : JoyMap) : document :=
  let bind_keys := KeyMap.pack_binds key_name key_map in
  let bind_joysticks := JoyMap.pack_binds joy_map in
  mkDocument
    (Some (map (fun e => (fst e, dump_key_data (snd e))) bind_keys))
    (Some (map (fun e => (fst e, dump_joy_data (snd e))) bind_joysticks)).

Definition load (in_file : document) : result (KeyMap * JoyMap) :=
  key_map <- _unpack_keys
               (match doc_keys in_file with Some m => m | None => [] end) ;;
  joy_map <- _unpack_joystick
               (match doc_controller in_file with Some m => m | None => [] end) ;;
  Ok (key_map, joy_map).
End Pygame.

End JSONParser.

(** ** key_manager.py *)

Module KeyListener.
Import KeyMap JoyMap.

(** pygame's constants. *)
Definition KEYDOWN : Z := 768.
Definition KEYUP : Z := 769.
Definition JOYAXISMOTION : Z := 1536.
Definition JOYHATMOTION : Z := 1538.
Definition JOYBUTTONDOWN : Z := 1539.
Definition KMOD_NONE : Z := 0.

(** A handler: told apart by name; [_runs_sequential] says whether the
    attribute of that name is set on it. *)
Record Callable : Type := mkCallable {
  __name__ : string;
  _runs_sequential : bool
}.

#[export] Instance Callable_EqDec : EqDec Callable.
Proof.
  intros a b. unfold EqDec in *.
  decide equality; [apply bool_dec | apply string_dec].
Defined.

(** The owning class of a method, by name. *)
Definition Class : Type := string.

(** [get(bind_name).get(concurrency).get(event_type)] *)
Definition hook_index (A : Type) : Type :=
  dict string (dict bool (dict Z (list A))).

(** Instance attributes: the three dictionaries that [__init__] sets, and
    the handle and the class register ([_assigned_classes]) that the base
    class keeps. *)
Record Listener : Type := mkListener {
  handle : string;
  _key_hooks : hook_index Callable;
  _class_listeners : hook_index (Callable * Class);
  _class_listener_binds : dict Callable (list string);
  _assigned_classes : dict Class (list Callable)
}.

(** Class attributes: one [KeyMap] and one [JoyMap] on [KeyListener]. *)
Record Tables : Type := mkTables {
  key_map : KeyMap;
  joy_map : JoyMap
}.

(** Modelled from the spec: what [BaseManager.__init__] of base_manager.py,
    which is not among the sources, leaves on the instance: its handle and
    an empty register "class -> list(registered methods)". *)
Definition base_init (handle : string) : string * dict Class (list Callable) :=
  (handle, []).

Definition __init__ (handle : string) : Listener :=
  let '(h, assigned_classes) := base_init handle in
  mkListener h [] [] [] assigned_classes.

Inductive log_record : Type :=
| Warning
| Info.

(** A positional or keyword argument: [type(arg) is dict] or not. *)
Inductive arg : Type :=
| AVal (v : pyval)
| ADict (d : pydict).

(** Truth value of an argument. *)
Definition truthy (a : arg) : bool :=
  match a with
  | AVal PNone => false
  | AVal (PInt z) => negb (z =? 0)
  | AVal (PStr s) => negb (eqb s "")
  | AVal (PTuple items) => negb (List.length items =? 0)%nat
  | ADict d => negb (List.length d =? 0)%nat
  end.

(** A key code or a modifier mask is an int or [None], as the overloads
    declare them. *)
Definition opt_int (a : arg) : option Z :=
  match a with
  | AVal (PInt z) => Some z
  | _ => None
  end.

Definition opt_arg (o : option arg) : arg :=
  match o with
  | Some a => a
  | None => AVal PNone
  end.

(** *** bind *)

Record bind_kwds : Type := mkBindKwds {
  kw_default_key : option arg;
  kw_default_mod : option arg;
  kw_default_joystick_data : option arg;
  kw_event_type : option Z
}.

(** The state of the loop [for index, arg in enumerate(args)]. *)
Record bind_scan : Type := mkBindScan {
  is_stick : bool;
  default_key : arg;
  default_mod : arg;
  default_joystick_data : arg
}.

Fixpoint scan_args (index : nat) (args : list arg) (s : bind_scan) : bind_scan :=
  match args with
  | [] => s
  | a :: rest =>
      match a with
      | ADict _ => mkBindScan true (default_key s) (default_mod s) a
      | AVal _ =>
          scan_args (S index) rest
            (match index with
             | O => mkBindScan (is_stick s) a (default_mod s) (default_joystick_data s)
             | S O => mkBindScan (is_stick s) (default_key s) a (default_joystick_data s)
             | _ => s
             end)
      end
  end.

Definition opt_dict (a : arg) : option pydict :=
  match a with
  | ADict d => Some d
  | AVal _ => None
  end.

(** The part of [bind] that runs at once: the bind is generated in one of
    the tables and the event type is fixed. *)
Definition bind (t : Tables) (key_bind_name : string) (args : list arg)
    (kwds : bind_kwds) : Tables * Z :=
  let s := scan_args 0 args
             (mkBindScan false (opt_arg (kw_default_key kwds))
                (opt_arg (kw_default_mod kwds))
                (opt_arg (kw_default_joystick_data kwds))) in
  if is_stick s then
    let t' := mkTables (key_map t)
                (JoyMap.generate_bind (joy_map t) key_bind_name
                   (opt_dict (default_joystick_data s))) in
    let default_stick_event :=
      match opt_dict (default_joystick_data s) with
      | Some d =>
          if py_in (PStr "axis") (keys d) then JOYAXISMOTION
          else if py_in (PStr "hat") (keys d) then JOYHATMOTION
          else JOYBUTTONDOWN
      | None => JOYBUTTONDOWN
      end in
    (t', match kw_event_type kwds with Some e => e | None => default_stick_event end)
  else
    let t' := mkTables
                (KeyMap.generate_bind (key_map t) key_bind_name
                   (opt_int (default_key s)) (opt_int (default_mod s)))
                (joy_map t) in
    (t', match kw_event_type kwds with Some e => e | None => KEYDOWN end).

(** Three nested [setdefault]s and what is done to the innermost list. *)
Definition index_update {A : Type} (f : list A -> list A)
    (bind_name : string) (is_concurrent : bool) (event_type : Z)
    (index : hook_index A) : hook_index A :=
  let '(event_dict, index1) := setdefault bind_name [] index in
  let '(hooks, event_dict1) := setdefault is_concurrent [] event_dict in
  let '(listeners, hooks1) := setdefault event_type [] hooks in
  dset bind_name
    (dset is_concurrent (dset event_type (f listeners) hooks1) event_dict1)
    index1.

(** The decorator [bind] returns, applied to [responder]. *)
Definition decorator (self : Listener) (key_bind_name : string)
    (event_type : Z) (responder : Callable) : Listener :=
  let is_concurrent := negb (_runs_sequential responder) in
  mkListener (handle self)
    (index_update
       (fun listeners =>
          if py_in responder listeners then listeners
          else listeners ++ [responder])
       key_bind_name is_concurrent event_type (_key_hooks self))
    (_class_listeners self) (_class_listener_binds self)
    (_assigned_classes self).

(** [tag_data]: bind name, default key, default mod, event type, default
    joystick data. *)
Record tag_data : Type := mkTag {
  tag_bind_name : string;
  tag_default_key : option Z;
  tag_default_mod : option Z;
  tag_event_type : Z;
  tag_default_joystick_data : option pydict
}.

Definition _capture_method (t : Tables) (self : Listener) (cls : Class)
    (method : Callable) (tag : tag_data) : Tables * Listener :=
  let is_concurrent := negb (_runs_sequential method) in
  let key_bind_name := tag_bind_name tag in
  let t' :=
    match tag_default_joystick_data tag with
    | Some d =>
        mkTables (key_map t)
          (JoyMap.generate_bind (joy_map t) key_bind_name (Some d))
    | None =>
        mkTables
          (KeyMap.generate_bind (key_map t) key_bind_name
             (tag_default_key tag) (tag_default_mod tag))
          (joy_map t)
    end in
  (t',
   mkListener (handle self) (_key_hooks self)
     (index_update (fun listeners => listeners ++ [(method, cls)])
        key_bind_name is_concurrent (tag_event_type tag)
        (_class_listeners self))
     (setdefault_append method key_bind_name (_class_listener_binds self))
     (setdefault_append cls method (_assigned_classes self))).

(** *** rebind *)

Record rebind_kwds : Type := mkRebindKwds {
  kw_new_key : option arg;
  kw_new_mod : option arg;
  kw_new_joystick_data : option arg
}.

(** What a rebind hands back: [None], a [(key, mod)] tuple or a dict. *)
Inductive rebound : Type :=
| RNone
| RKey (old : option Z * option Z)
| RJoy (old : pydict).

Definition _rebind_key (t : Tables) (key_bind_name : string)
    (new_key new_mod : arg) : result (rebound * Tables * list log_record) :=
  match KeyMap.get_bound_key (key_map t) key_bind_name with
  | Raise _ => Ok (RNone, t, [Warning])
  | Ok old_bind =>
      Ok (RKey old_bind,
          mkTables
            (KeyMap.rebind (key_map t)
               (mkKeyBind key_bind_name (opt_int new_mod)) (opt_int new_key))
            (joy_map t),
          [])
  end.

(** [JoyMap.rebind] as [_rebind_joystick] reaches it: whatever is not
    [None] goes through [_convert_event]. *)
Definition joy_rebind (jm : JoyMap) (key_bind_name : string)
    (new_joystick_data : arg) : result JoyMap :=
  match new_joystick_data with
  | AVal PNone => Ok (JoyMap._rebind jm key_bind_name None)
  | ADict d =>
      key <- JoyMap._convert_event (ArgDict d) ;;
      Ok (JoyMap._rebind jm key_bind_name (Some key))
  | AVal v =>
      key <- JoyMap._convert_event (ArgOther v) ;;
      Ok (JoyMap._rebind jm key_bind_name (Some key))
  end.

Definition _rebind_joystick (t : Tables) (key_bind_name : string)
    (new_joystick_data : arg) : result (rebound * Tables * list log_record) :=
  match JoyMap.get_bound_joystick_event (joy_map t) key_bind_name with
  | Raise _ => Ok (RNone, t, [Warning])
  | Ok old_bind =>
      jm <- joy_rebind (joy_map t) key_bind_name new_joystick_data ;;
      Ok (match old_bind with Some d => RJoy d | None => RNone end,
          mkTables (key_map t) jm, [])
  end.

Definition is_dict (a : arg) : bool :=
  match a with
  | ADict _ => true
  | AVal _ => false
  end.

Definition rebind (t : Tables) (key_bind_name : string) (args : list arg)
    (kwds : rebind_kwds) : result (rebound * Tables * list log_record) :=
  let new_bind :=
    match args with
    | a :: _ => a
    | [] => opt_arg (kw_new_key kwds)
    end in
  if truthy (opt_arg (kw_new_joystick_data kwds)) || is_dict new_bind then
    _rebind_joystick t key_bind_name new_bind
  else
    let mod_keys :=
      match args with
      | _ :: a1 :: _ => a1
      | _ => opt_arg (kw_new_mod kwds)
      end in
    _rebind_key t key_bind_name new_bind mod_keys.

(** *** unbind, clear_bind *)

Definition discard (func : Callable) (bind : list Callable) : list Callable :=
  if py_in func bind then list_remove func bind else bind.

Definition map_values {K A B : Type} (f : A -> B) (d : dict K A) : dict K B :=
  map (fun kv => (fst kv, f (snd kv))) d.

Definition unbind (self : Listener) (func : Callable)
    (bind_name : option string) : Listener * list log_record :=
  let with_hooks kh :=
    mkListener (handle self) kh (_class_listeners self)
      (_class_listener_binds self) (_assigned_classes self) in
  match bind_name with
  | Some name =>
      if negb (eqb name "") then
        match dget name (_key_hooks self) with
        | None | Some [] => (self, [Warning])
        | Some event_dict =>
            let found :=
              existsb (fun bind_dict => existsb (py_in func) (values bind_dict))
                (values event_dict) in
            (with_hooks
               (dset name (map_values (map_values (discard func)) event_dict)
                  (_key_hooks self)),
             if found then [] else [Warning])
        end
      else
        (with_hooks
           (map_values (map_values (map_values (discard func))) (_key_hooks self)),
         [])
  | None =>
      (with_hooks
         (map_values (map_values (map_values (discard func))) (_key_hooks self)),
       [])
  end.

Definition clear_bind (t : Tables) (self : Listener) (bind_name : string)
    (eliminate_bind : bool) : Tables * Listener * list log_record :=
  if eliminate_bind then
    match dget bind_name (_key_hooks self) with
    | None => (t, self, [Warning])
    | Some _ =>
        (mkTables (KeyMap.remove_bind (key_map t) bind_name)
           (JoyMap.remove_bind (joy_map t) bind_name),
         mkListener (handle self) (dpop bind_name (_key_hooks self))
           (_class_listeners self) (_class_listener_binds self)
           (_assigned_classes self),
         [])
    end
  else
    let call_list := dget bind_name (_key_hooks self) in
    let class_call_list := dget bind_name (_class_listeners self) in
    match call_list, class_call_list with
    | None, None => (t, self, [Warning])
    | _, _ =>
        let '(key_hooks, log1) :=
          match call_list with
          | Some (_ :: _) => (dset bind_name [] (_key_hooks self), [Info])
          | _ => (_key_hooks self, [])
          end in
        let '(class_listeners, log2) :=
          match class_call_list with
          | Some (_ :: _) => (dset bind_name [] (_class_listeners self), [Info])
          | _ => (_class_listeners self, [])
          end in
        (t,
         mkListener (handle self) key_hooks class_listeners
           (_class_listener_binds self) (_assigned_classes self),
         log1 ++ log2)
    end.

(** *** Event resolution *)

(** The record of base_manager.py, with the fields [_get_callables] fills. *)
Record _CallableSets : Type := mkCallableSets {
  concurrent_functions : list Callable;
  sequential_functions : list Callable;
  concurrent_methods : list (Callable * Class);
  sequential_methods : list (Callable * Class)
}.

(** The four lists of lists the loops of [_get_callables] fill. *)
Record hook_lists : Type := mkHookLists {
  conc_funcs_lists : list (list Callable);
  seq_funcs_lists : list (list Callable);
  conc_methods_lists : list (list (Callable * Class));
  seq_methods_lists : list (list (Callable * Class))
}.

(** [index.get(bind_name, {}).get(concurrency, {}).get(event_type, [])] *)
Definition hooks_of {A : Type} (index : hook_index A) (bind_name : string)
    (concurrency : bool) (event_type : Z) : list A :=
  match dget bind_name index with
  | None => []
  | Some hooks =>
      match dget concurrency hooks with
      | None => []
      | Some by_type =>
          match dget event_type by_type with
          | None => []
          | Some l => l
          end
      end
  end.

(** One round of either loop, for a bind name that matched. *)
Definition add_hooks (self : Listener) (event : Event) (bind : string)
    (acc : hook_lists) : hook_lists :=
  mkHookLists
    (conc_funcs_lists acc ++ [hooks_of (_key_hooks self) bind true (type_ event)])
    (seq_funcs_lists acc ++ [hooks_of (_key_hooks self) bind false (type_ event)])
    (conc_methods_lists acc
       ++ [hooks_of (_class_listeners self) bind true (type_ event)])
    (seq_methods_lists acc
       ++ [hooks_of (_class_listeners self) bind false (type_ event)]).

(** [key_binds.get(key_changed, [])] *)
Definition key_slot (km : KeyMap) (key_changed : pyval) : list KeyBind :=
  match key_changed with
  | PNone => match dget None (key_binds km) with Some l => l | None => [] end
  | PInt k => match dget (Some k) (key_binds km) with Some l => l | None => [] end
  | PStr _ | PTuple _ => []
  end.

Section Identity.
(** [a is b] on two ints.  CPython decides it by object identity, which the
    values do not fix; what is known of it is asked where it matters. *)
Variable int_is : Z -> Z -> bool.

Definition _validate_input (key_bind : KeyBind) (event : Event) : result bool :=
  let key_changed := getattr event "key" in
  let mod_keys := getattr event "mod" in
  match key_changed with
  | PNone => Ok false
  | _ =>
      match mod_ key_bind with
      | None => Ok true
      | Some m =>
          match mod_keys with
          | PNone => Ok false
          | PInt mk => Ok (negb (Z.land m mk =? 0) || int_is m mk)
          | PStr _ | PTuple _ => Raise TypeError
          end
      end
  end.

(** The first loop of [_get_callables]. *)
Fixpoint key_loop (self : Listener) (event : Event) (binds : list KeyBind)
    (acc : hook_lists) : result hook_lists :=
  match binds with
  | [] => Ok acc
  | key_bind :: rest =>
      valid <- _validate_input key_bind event ;;
      key_loop self event rest
        (if valid then add_hooks self event (bind_name key_bind) acc else acc)
  end.

Definition _get_callables (t : Tables) (self : Listener) (event : Event)
    : result _CallableSets :=
  let key_changed := getattr event "key" in
  acc <- key_loop self event (key_slot (key_map t) key_changed)
           (mkHookLists [] [] [] []) ;;
  binds <- JoyMap.get (joy_map t) (ArgEvent event) (Some []) ;;
  let acc' := fold_left (fun a bind => add_hooks self event bind a) binds acc in
  Ok (mkCallableSets
        (List.concat (conc_funcs_lists acc'))
        (List.concat (seq_funcs_lists acc'))
        (List.concat (conc_methods_lists acc'))
        (List.concat (seq_methods_lists acc'))).

(** The bind names an event resolves to: those whose turn in either loop of
    [_get_callables] reaches the hook look-ups. *)
Fixpoint accepted (event : Event) (binds : list KeyBind)
    : result (list KeyBind) :=
  match binds with
  | [] => Ok []
  | key_bind :: rest =>
      valid <- _validate_input key_bind event ;;
      more <- accepted event rest ;;
      Ok (if valid then key_bind :: more else more)
  end.

Definition resolved_binds (t : Tables) (event : Event) : result (list string) :=
  by_key <- accepted event (key_slot (key_map t) (getattr event "key")) ;;
  by_joy <- JoyMap.get (joy_map t) (ArgEvent event) (Some []) ;;
  Ok (map bind_name by_key ++ by_joy).
End Identity.

(** Small ints are cached objects; two larger equal ints are taken to be
    distinct objects. *)
Definition cpython_is (a b : Z) : bool :=
  (a =? b) && (-5 <=? a) && (a <=? 256).

(** *** The process: class attributes and the listeners by handle *)

Record Process : Type := mkProcess {
  tables : Tables;
  _listeners : dict string Listener
}.

Definition getKeyListener (p : Process) (h : string) : Listener * Process :=
  let '(l, ls) := setdefault h (__init__ h) (_listeners p) in
  (l, mkProcess (tables p) ls).

(** The calls made through one listener. *)
Inductive method_call : Type :=
| CallBind (key_bind_name : string) (args : list arg) (kwds : bind_kwds)
    (responder : Callable)
| CallCapture (cls : Class) (method : Callable) (tag : tag_data)
| CallRebind (key_bind_name : string) (args : list arg) (kwds : rebind_kwds)
| CallUnbind (func : Callable) (bind_name : option string)
| CallClear (bind_name : string) (eliminate_bind : bool).

(** [self.key_map] and [self.joy_map] find the class attributes, since no
    instance ever assigns them; the other attributes are the instance's. *)
Definition run_method (t : Tables) (self : Listener) (c : method_call)
    : result (Tables * Listener) :=
  match c with
  | CallBind name args kwds responder =>
      let '(t', event_type) := bind t name args kwds in
      Ok (t', decorator self name event_type responder)
  | CallCapture cls method tag => Ok (_capture_method t self cls method tag)
  | CallRebind name args kwds =>
      r <- rebind t name args kwds ;;
      Ok (snd (fst r), self)
  | CallUnbind func bind_name => Ok (t, fst (unbind self func bind_name))
  | CallClear bind_name eliminate_bind =>
      Ok (fst (clear_bind t self bind_name eliminate_bind))
  end.

(** [getKeyListener(h).m(...)]; a call that raises leaves no new state. *)
Definition call (p : Process) (h : string) (c : method_call) : result Process :=
  let '(self, p1) := getKeyListener p h in
  r <- run_method (tables p1) self c ;;
  Ok (mkProcess (fst r) (dset h (snd r) (_listeners p1))).

(** *** unbind_method, deregister_class *)

(** [filter(lambda listener_set: method is not listener_set[0], ...)] *)
Definition without_method (method : Callable)
    (listener_sets : list (Callable * Class)) : list (Callable * Class) :=
  filter (fun listener_set => negb (eqb (fst listener_set) method)) listener_sets.

(** The loop of [unbind_method] over the binds of the method: every list
    under the bind name is filtered in place, and the bind name is written
    back, which adds it with an empty dictionary if it was missing. *)
Definition strip_method (method : Callable) (binds : list string)
    (class_listeners : hook_index (Callable * Class))
    : hook_index (Callable * Class) :=
  fold_left
    (fun cl bind_name =>
       let concurrency_dict :=
         match dget bind_name cl with Some d => d | None => [] end in
       dset bind_name
         (map_values (map_values (without_method method)) concurrency_dict) cl)
    binds class_listeners.

(** The loop does nothing when the method has no entry, and the final
    [pop(method)] then raises [KeyError] on an untouched listener. *)
Definition unbind_method (self : Listener) (method : Callable) : result Listener :=
  match dget method (_class_listener_binds self) with
  | None => Raise KeyError
  | Some binds =>
      Ok (mkListener (handle self) (_key_hooks self)
            (strip_method method binds (_class_listeners self))
            (dpop method (_class_listener_binds self))
            (_assigned_classes self))
  end.

(** The loop of [deregister_class]: the listener it leaves and, if an
    [unbind_method] raised, the exception, which ends the loop. *)
Fixpoint unbind_methods (self : Listener) (methods : list Callable)
    : Listener * option exn :=
  match methods with
  | [] => (self, None)
  | method :: rest =>
      match unbind_method self method with
      | Ok self' => unbind_methods self' rest
      | Raise e => (self, Some e)
      end
  end.

(** [deregister_class]: the listener afterwards and the exception raised,
    if any.  Its first statement pops [cls] from [_class_listener_instances],
    a register of the base class that none of the methods here reads; with
    its default it cannot raise. *)
Definition deregister_class (self : Listener) (cls : Class)
    : Listener * option exn :=
  let methods :=
    match dget cls (_assigned_classes self) with Some l => l | None => [] end in
  let '(self1, raised) := unbind_methods self methods in
  match raised with
  | Some e => (self1, Some e)
  | None =>
      match dget cls (_assigned_classes self1) with
      | None => (self1, Some KeyError)
      | Some _ =>
          (mkListener (handle self1) (_key_hooks self1) (_class_listeners self1)
             (_class_listener_binds self1) (dpop cls (_assigned_classes self1)),
           None)
      end
  end.

(** *** load_from_file, save_to_file *)

(** The [FileParser] interface: [load] and [save]. *)
Class FileParser (File : Type) : Type := {
  parser_load : File -> result (KeyMap * JoyMap);
  parser_save : KeyMap -> JoyMap -> File
}.

(** [JSONParser], given pygame's key names. *)
Definition JSON (key_name : Z -> string) (key_code : string -> result Z)
    : FileParser JSONParser.document :=
  {| parser_load := JSONParser.load key_code;
     parser_save := JSONParser.save key_name |}.

(** [load_from_file] with the parser given and the file read: what the
    parser loads is merged into the class attributes, the key table first.
    A load that raises leaves them as they are. *)
Definition load_from_file {File : Type} (parser : FileParser File)
    (t : Tables) (file : File) : result Tables :=
  loaded <- parser_load file ;;
  let '(key_binds, joy_binds) := loaded in
  Ok (mkTables (KeyMap.merge (key_map t) key_binds)
        (JoyMap.merge (joy_map t) joy_binds)).

(** [save_to_file] with the parser given: the content written. *)
Definition save_to_file {File : Type} (parser : FileParser File)
    (t : Tables) : File :=
  parser_save (key_map t) (joy_map t).

End KeyListener.

(** * Vocabulary of the properties *)

(** Two masks share a set bit. *)
Definition shares_bit (a b : Z) : Prop :=
  exists i, 0 <= i /\ Z.testbit a i = true /\ Z.testbit b i = true.

(** The attribute/value pairs of an event representation, when it is one. *)
Definition attributes (event : event_arg) : option pydict :=
  match event with
  | ArgEvent e => Some (__dict__ e)
  | ArgDict d => Some d
  | ArgOther _ => None
  end.

(** The pairs that are left, in their order, once the noise attributes
    'value', 'instance_id' and 'joy' are dropped. *)
Definition drop_noise (d : pydict) : pydict :=
  filter (fun kv => negb (py_in (fst kv) JoyMap._invalid_params)) d.

(** Two attribute dictionaries are the same mapping, whatever the order. *)
Definition same_mapping (d1 d2 : pydict) : Prop :=
  forall k, dget k d1 = dget k d2.

(** Every item of every value list of a table, slot after slot. *)
Definition all_binds {K A : Type} (t : dict K (list A)) : list A :=
  List.concat (values t).

(** The invariant of the joystick table: no bind name twice, within a list
    or across lists (and, as in any dictionary, no key twice). *)
Definition joy_table_ok (t : JoyMap.JoyMap) : Prop :=
  unique_keys t /\ NoDup (all_binds t).

(** The joystick tables the operations build, starting from the empty one. *)
Inductive built : JoyMap.JoyMap -> Prop :=
| built_empty : built []
| built_generate_bind t b d : built t -> built (JoyMap.generate_bind t b d)
| built_rebind t b d : built t -> built (JoyMap.rebind t b d)
| built_remove_bind t b : built t -> built (JoyMap.remove_bind t b)
| built_merge t other : built t -> built other -> built (JoyMap.merge t other).

(** The bind names of the key table, slot after slot. *)
Definition key_names (t : KeyMap.KeyMap) : list string :=
  map KeyMap.bind_name (all_binds t).

(** A table with no empty slot. *)
Definition no_empty_slot {K A : Type} (t : dict K (list A)) : Prop :=
  forall k l, In (k, l) t -> l <> [].

(** What [remove_bind] does to one list of the joystick table. *)
Definition strip (bind_name : string) (bind_list : list string) : list string :=
  if py_in bind_name bind_list then list_remove bind_name bind_list
  else bind_list.

(** The slot-by-slot replay that [merge] makes of the other table: every
    item of every list, with the key of its slot. *)
Definition replay {K A : Type} (other : dict K (list A)) : list (K * A) :=
  flat_map (fun item => map (fun b => (fst item, b)) (snd item)) other.

(** ** Sample data *)

Definition ex_hat_button : pydict :=
  [(PStr "hat", PInt 0); (PStr "button", PInt 1)].

Definition ex_button_hat : pydict :=
  [(PStr "button", PInt 1); (PStr "hat", PInt 0)].

(** A button press as pygame reports it, with its instance id. *)
Definition ex_button_noisy : pydict :=
  [(PStr "button", PInt 1); (PStr "instance_id", PInt 0)].

Definition ex_button : pydict := [(PStr "button", PInt 0)].

(** One bind, "fire", on the hat-and-button pattern. *)
Definition ex_fire_table : JoyMap.JoyMap :=
  JoyMap.generate_bind [] "fire" (Some ex_hat_button).

(** "fire" on a button, "jump" declared but unbound. *)
Definition ex_two_binds : JoyMap.JoyMap :=
  JoyMap.generate_bind (JoyMap.generate_bind [] "fire" (Some ex_button)) "jump" None.

(** The table {x: K1, y: K2}, built one bind after the other. *)
Definition two_binds (x : string) (K1 : option JoyMap.pattern)
    (y : string) (K2 : option JoyMap.pattern) : JoyMap.JoyMap :=
  JoyMap._rebind (JoyMap._rebind [] x K1) y K2.

(** A trigger as the caller of a rebind passes it. *)
Definition joy_arg (T : option pydict) : KeyListener.arg :=
  match T with
  | Some d => KeyListener.ADict d
  | None => KeyListener.AVal PNone
  end.

Definition int_arg (k : option Z) : KeyListener.arg :=
  match k with
  | Some z => KeyListener.AVal (PInt z)
  | None => KeyListener.AVal PNone
  end.

(** What [_rebind_joystick] hands back for an old trigger. *)
Definition joy_rebound (old : option pydict) : KeyListener.rebound :=
  match old with
  | Some d => KeyListener.RJoy d
  | None => KeyListener.RNone
  end.

(** The trigger a call of [rebind] passes: the first positional argument,
    else the keyword [new_key]. *)
Definition first_trigger (args : list KeyListener.arg)
    (kwds : KeyListener.rebind_kwds) : KeyListener.arg :=
  match args with
  | a :: _ => a
  | [] => KeyListener.opt_arg (KeyListener.kw_new_key kwds)
  end.

(** The table a call of [rebind] addresses: the joystick table or, if not,
    the key table. *)
Definition on_joystick_table (args : list KeyListener.arg)
    (kwds : KeyListener.rebind_kwds) : bool :=
  KeyListener.truthy (KeyListener.opt_arg (KeyListener.kw_new_joystick_data kwds))
  || KeyListener.is_dict (first_trigger args kwds).

Definition no_kwds : KeyListener.rebind_kwds :=
  KeyListener.mkRebindKwds None None None.

(** The class attributes with [ex_two_binds] as joystick table and "jump"
    on the space bar. *)
Definition ex_tables : KeyListener.Tables :=
  KeyListener.mkTables
    (KeyMap.generate_bind [] "jump" (Some 32) None)
    ex_two_binds.

(** The callables of a list of bind names, for the type of the event. *)
Definition callables_of (self : KeyListener.Listener) (event : Event)
    (binds : list string) : KeyListener._CallableSets :=
  KeyListener.mkCallableSets
    (flat_map (fun b => KeyListener.hooks_of (KeyListener._key_hooks self) b true
                          (type_ event)) binds)
    (flat_map (fun b => KeyListener.hooks_of (KeyListener._key_hooks self) b false
                          (type_ event)) binds)
    (flat_map (fun b => KeyListener.hooks_of (KeyListener._class_listeners self) b
                          true (type_ event)) binds)
    (flat_map (fun b => KeyListener.hooks_of (KeyListener._class_listeners self) b
                          false (type_ event)) binds).

(** What [_validate_input] computes for an event with modifier mask [M],
    whatever [is] says of two equal ints that are not zero. *)
Definition modifier_ok (M : Z) (key_bind : KeyMap.KeyBind) : bool :=
  match KeyMap.mod_ key_bind with
  | None => true
  | Some m => negb (Z.land m M =? 0) || (m =? M)
  end.

(** A key-down of the space bar with left shift held. *)
Definition ex_shift_space : Event :=
  mkEvent 768 [(PStr "unicode", PStr " "); (PStr "key", PInt 32);
               (PStr "mod", PInt 1); (PStr "scancode", PInt 44)].

(** Three binds on the space bar: any modifier, shift or ctrl, ctrl only. *)
Definition ex_space_table : KeyListener.Tables :=
  KeyListener.mkTables
    [(Some 32, [KeyMap.mkKeyBind "jump" None;
                KeyMap.mkKeyBind "run" (Some 65);
                KeyMap.mkKeyBind "crouch" (Some 64)])]
    [].

(** What the methods of the listener of handle [h] work on: the class
    attributes and that listener's own attributes. *)
Definition view (p : KeyListener.Process) (h : string)
    : option (KeyListener.Tables * KeyListener.Listener) :=
  match dget h (KeyListener._listeners p) with
  | Some l => Some (KeyListener.tables p, l)
  | None => None
  end.

(** A key-down of the space bar, no modifier held. *)
Definition ex_space : Event :=
  mkEvent 768 [(PStr "unicode", PStr " "); (PStr "key", PInt 32);
               (PStr "mod", PInt 0); (PStr "scancode", PInt 44)].

Definition ex_on_jump : KeyListener.Callable :=
  KeyListener.mkCallable "on_jump" false.

(** A fresh listener on which the class "Player" has registered its method
    [on_jump], tagged for the bind "jump" on the space bar. *)
Definition ex_method_bound : KeyListener.Tables * KeyListener.Listener :=
  KeyListener._capture_method (KeyListener.mkTables [] [])
    (KeyListener.__init__ "main") "Player" ex_on_jump
    (KeyListener.mkTag "jump" (Some 32) None 768 None).

Definition no_bind_kwds : KeyListener.bind_kwds :=
  KeyListener.mkBindKwds None None None None.

(** Two listeners: "menu" binds "jump" to the space bar for its handler;
    "game" then asks for "jump" on the return key for its own. *)
Definition ex_menu_binds : KeyListener.method_call :=
  KeyListener.CallBind "jump" [KeyListener.AVal (PInt 32)] no_bind_kwds
    (KeyListener.mkCallable "menu_jump" true).

Definition ex_game_binds : KeyListener.method_call :=
  KeyListener.CallBind "jump" [KeyListener.AVal (PInt 13)] no_bind_kwds
    (KeyListener.mkCallable "game_jump" true).

Definition ex_start : KeyListener.Process :=
  KeyListener.mkProcess (KeyListener.mkTables [] []) [].

Definition ex_menu_bound : KeyListener.Process :=
  Eval vm_compute in
    match KeyListener.call ex_start "menu" ex_menu_binds with
    | Ok p => p
    | Raise _ => ex_start
    end.

Definition ex_two_listeners : KeyListener.Process :=
  Eval vm_compute in
    match KeyListener.call ex_menu_bound "game" ex_game_binds with
    | Ok p => p
    | Raise _ => ex_start
    end.

Definition ex_menu : KeyListener.Listener :=
  Eval vm_compute in
    match dget "menu" (KeyListener._listeners ex_two_listeners) with
    | Some l => l
    | None => KeyListener.__init__ "menu"
    end.

Definition ex_game : KeyListener.Listener :=
  Eval vm_compute in
    match dget "game" (KeyListener._listeners ex_two_listeners) with
    | Some l => l
    | None => KeyListener.__init__ "game"
    end.

(** One round of the loop of [_unpack_joystick]. *)
Definition unpack_step (acc : result JoyMap.JoyMap)
    (item : string * JSONParser.jvalue) : result JoyMap.JoyMap :=
  unpacked_dict <- acc ;;
  let '(bind_name, joy_data) := item in
  data_points <- JSONParser.iterate joy_data ;;
  joy_data_points <-
    JSONParser.mapM
      (fun data_point =>
         a <- JSONParser.getitem data_point 0 ;;
         b <- JSONParser.getitem data_point 1 ;;
         Ok (a, b)) data_points ;;
  fixed_joy_data <-
    JSONParser.mapM
      (fun ab =>
         a <- JSONParser.hashed (fst ab) ;;
         b <- JSONParser.hashed (snd ab) ;;
         Ok (a, b))
      joy_data_points ;;
  Ok (setdefault_append (Some fixed_joy_data) bind_name unpacked_dict).

(** The controller section of a document, as [load] reads it. *)
Definition controller (file : JSONParser.document) : dict string JSONParser.jvalue :=
  match JSONParser.doc_controller file with
  | Some m => m
  | None => []
  end.

(** A document with one bound joystick bind and no key bind. *)
Definition ex_document : JSONParser.document :=
  JSONParser.mkDocument (Some [])
    (Some [("fire",
            JSONParser.JArr
              [JSONParser.JArr [JSONParser.JStr "hat"; JSONParser.JNum 0];
               JSONParser.JArr [JSONParser.JStr "button"; JSONParser.JNum 1]])]).

(** pygame's key names, as far as the examples go. *)
Definition ex_key_name (k : Z) : string :=
  if k =? 32 then "space" else "return".

Definition ex_key_code (n : string) : result Z :=
  if eqb n "space" then Ok 32
  else if eqb n "return" then Ok 13
  else Raise ValueError.

(** [ex_tables] after [ex_document] has been loaded into it. *)
Definition ex_loaded : KeyListener.Tables :=
  Eval vm_compute in
    match KeyListener.load_from_file
            (KeyListener.JSON ex_key_name ex_key_code) ex_tables ex_document with
    | Ok t => t
    | Raise _ => ex_tables
    end.

(** A table with one joystick bind, and what saving and loading it back
    makes of it. *)
Definition ex_fire_tables : KeyListener.Tables :=
  KeyListener.mkTables [] ex_fire_table.

Definition ex_reloaded : KeyListener.Tables :=
  Eval vm_compute in
    match KeyListener.load_from_file
            (KeyListener.JSON ex_key_name ex_key_code) ex_fire_tables
            (KeyListener.save_to_file
               (KeyListener.JSON ex_key_name ex_key_code) ex_fire_tables) with
    | Ok t => t
    | Raise _ => ex_fire_tables
    end.

(** The event type [bind] takes for a joystick dict when none is given. *)
Definition inferred_event (d : pydict) : Z :=
  if py_in (PStr "axis") (keys d) then KeyListener.JOYAXISMOTION
  else if py_in (PStr "hat") (keys d) then KeyListener.JOYHATMOTION
  else KeyListener.JOYBUTTONDOWN.

(** The list of a callable set that holds the handlers of a concurrency
    class. *)
Definition functions_of (sequential : bool) (sets : KeyListener._CallableSets)
    : list KeyListener.Callable :=
  if sequential then KeyListener.sequential_functions sets
  else KeyListener.concurrent_functions sets.

Definition methods_of (sequential : bool) (sets : KeyListener._CallableSets)
    : list (KeyListener.Callable * KeyListener.Class) :=
  if sequential then KeyListener.sequential_methods sets
  else KeyListener.concurrent_methods sets.

(** A press of joystick button 0, as pygame reports it. *)
Definition ex_button_press : Event :=
  mkEvent 1539 [(PStr "joy", PInt 0); (PStr "instance_id", PInt 0);
                (PStr "button", PInt 0)].

Definition ex_shoot : KeyListener.Callable := KeyListener.mkCallable "shoot" true.

(** The inverse index knows every bind a method is hooked under. *)
Definition inverse_complete (self : KeyListener.Listener) : Prop :=
  forall b c e method cls,
    In (method, cls) (KeyListener.hooks_of (KeyListener._class_listeners self) b c e) ->
    exists binds,
      @dget _ _ KeyListener.Callable_EqDec method
        (KeyListener._class_listener_binds self) = Some binds
      /\ In b binds.

(** A listener on which "Player" has registered [on_jump] under two binds. *)
Definition ex_twice_captured : KeyListener.Listener :=
  snd (KeyListener._capture_method
         (fst ex_method_bound) (snd ex_method_bound) "Player" ex_on_jump
         (KeyListener.mkTag "hop" (Some 13) None 768 None)).

(** One round of the loop of [_unpack_keys]. *)
Definition unpack_key_step (key_code : string -> result Z)
    (acc : result KeyMap.KeyMap) (item : string * JSONParser.jvalue)
    : result KeyMap.KeyMap :=
  unpacked_dict <- acc ;;
  let '(bind_name, key_data) := item in
  pair <- JSONParser.unpack_pair key_data ;;
  let '(name, modifier) := pair in
  code <- JSONParser.code_of key_code name ;;
  Ok (setdefault_append code
        (KeyMap.mkKeyBind bind_name (JSONParser.mask_of modifier)) unpacked_dict).

(** An entry of a key section that [_unpack_keys] can read: two items, the
    first [null] or a key name that [pygame.key.key_code] knows. *)
Definition readable_key_data (key_code : string -> result Z)
    (key_data : JSONParser.jvalue) : Prop :=
  exists name modifier,
    JSONParser.unpack_pair key_data = Ok (name, modifier) /\
    (name = JSONParser.JNull
     \/ exists n c, name = JSONParser.JStr n /\ key_code n = Ok c).

(** A modifier as [save] writes it: [null] or an int. *)
Definition is_mask (modifier : JSONParser.jvalue) : Prop :=
  modifier = JSONParser.JNull \/ exists m, modifier = JSONParser.JNum m.

(** The key section of a file: "jump" on the space bar with shift, "menu"
    unbound. *)
Definition ex_key_section : dict string JSONParser.jvalue :=
  [("jump", JSONParser.JArr [JSONParser.JStr "space"; JSONParser.JNum 1]);
   ("menu", JSONParser.JArr [JSONParser.JNull; JSONParser.JNull])].

(** The key section of a document, as [load] reads it. *)
Definition key_section (file : JSONParser.document) : dict string JSONParser.jvalue :=
  match JSONParser.doc_keys file with
  | Some m => m
  | None => []
  end.

(** A value that is written to a file and read back as itself: [None], an
    int or a str; a tuple comes back as a list. *)
Definition scalar (v : pyval) : bool :=
  match v with
  | PTuple _ => false
  | _ => true
  end.

Definition scalar_pairs (p : JoyMap.pattern) : bool :=
  forallb (fun kv => scalar (fst kv) && scalar (snd kv)) p.

(** What is packed for a bind reads back from a file: a pattern, and one of
    such values. *)
Definition reads_back (joy_data : option JoyMap.pattern) : bool :=
  match joy_data with
  | Some p => scalar_pairs p
  | None => false
  end.

(** Every member of every pattern of the table is such a value. *)
Definition scalar_patterns (t : JoyMap.JoyMap) : Prop :=
  forall key l k v, In (Some key, l) t -> In (k, v) key ->
    scalar k = true /\ scalar v = true.

(** A trackball motion: the relative motion is a tuple. *)
Definition ex_ball : pydict :=
  [(PStr "ball", PInt 0); (PStr "rel", PTuple [PInt 1; PInt 0])].






(** * Properties *)

(** ** Lists and dictionaries *)

Section ListFacts.
Context {A : Type} `{EqDec A}.

Lemma py_in_In (x : A) (l : list A) : py_in x l = true <-> In x l.
Proof.
  induction l as [| y r IH]; simpl.
  - split; [discriminate | tauto].
  - destruct (eq_dec x y) as [-> | Hne].
    + split; auto.
    + rewrite IH. split; [auto | intros [Heq | Hin]; [congruence | exact Hin]].
Qed.

Lemma py_in_false (x : A) (l : list A) : py_in x l = false <-> ~ In x l.
Proof.
  rewrite <- py_in_In. destruct (py_in x l); split; congruence.
Qed.

Lemma list_remove_incl (x y : A) (l : list A) :
  In y (list_remove x l) -> In y l.
Proof.
  induction l as [| z r IH]; simpl; [tauto |].
  destruct (eq_dec x z); simpl; [auto | intros [Heq | Hin]; auto].
Qed.

Lemma list_remove_other (x y : A) (l : list A) :
  y <> x -> In y l -> In y (list_remove x l).
Proof.
  intros Hne. induction l as [| z r IH]; simpl; [tauto |].
  intros [Heq | Hin].
  - subst z. destruct (eq_dec x y); [congruence | left; reflexivity].
  - destruct (eq_dec x z); [exact Hin | right; auto].
Qed.

Lemma list_remove_NoDup (x : A) (l : list A) :
  NoDup l -> NoDup (list_remove x l).
Proof.
  induction 1 as [| z r Hnin Hnd IH]; simpl; [constructor |].
  destruct (eq_dec x z); [exact Hnd |].
  constructor; [| exact IH].
  intros Hin. apply Hnin. eapply list_remove_incl; eauto.
Qed.

Lemma list_remove_gone (x : A) (l : list A) :
  NoDup l -> ~ In x (list_remove x l).
Proof.
  induction 1 as [| z r Hnin Hnd IH]; simpl; [tauto |].
  destruct (eq_dec x z) as [-> | Hne]; [exact Hnin |].
  simpl. intros [Heq | Hin]; [congruence | tauto].
Qed.

Lemma list_remove_absent (x : A) (l : list A) :
  ~ In x l -> list_remove x l = l.
Proof.
  induction l as [| z r IH]; simpl; [reflexivity |].
  intros Hnin. destruct (eq_dec x z) as [-> | Hne]; [tauto |].
  f_equal. apply IH. tauto.
Qed.
End ListFacts.

Section DictFacts.
Context {K V : Type} `{EqDec K}.

Lemma dget_In_keys (k : K) (d : dict K V) :
  dget k d <> None <-> In k (keys d).
Proof.
  induction d as [| [k' v] r IH]; simpl; [tauto |].
  destruct (eq_dec k k') as [-> | Hne].
  - split; [auto | discriminate].
  - rewrite IH. split; [auto | intros [Heq | Hin]; [congruence | exact Hin]].
Qed.

Lemma dget_None_keys (k : K) (d : dict K V) :
  dget k d = None <-> ~ In k (keys d).
Proof.
  rewrite <- dget_In_keys.
  destruct (dget k d) as [v |]; split; intros Hx; try discriminate; try reflexivity.
  - exfalso. apply Hx. discriminate.
  - intros Hy. apply Hy. reflexivity.
Qed.

Lemma dget_dset_same (k : K) (v : V) (d : dict K V) :
  dget k (dset k v d) = Some v.
Proof.
  induction d as [| [k' v'] r IH]; simpl.
  - destruct (eq_dec k k); [reflexivity | congruence].
  - destruct (eq_dec k k') as [-> | Hne]; simpl.
    + destruct (eq_dec k' k'); [reflexivity | congruence].
    + destruct (eq_dec k k'); [congruence | exact IH].
Qed.

Lemma dget_dset_other (k k0 : K) (v : V) (d : dict K V) :
  k0 <> k -> dget k0 (dset k v d) = dget k0 d.
Proof.
  intros Hne. induction d as [| [k' v'] r IH]; simpl.
  - destruct (eq_dec k0 k); [congruence | reflexivity].
  - destruct (eq_dec k k') as [-> | Hne']; simpl.
    + destruct (eq_dec k0 k'); [congruence | reflexivity].
    + destruct (eq_dec k0 k'); [reflexivity | exact IH].
Qed.

Lemma keys_dset (k : K) (v : V) (d : dict K V) :
  keys (dset k v d) = if py_in k (keys d) then keys d else keys d ++ [k].
Proof.
  induction d as [| [k' v'] r IH]; simpl; [reflexivity |].
  destruct (eq_dec k k') as [-> | Hne]; simpl; [reflexivity |].
  unfold keys in *. rewrite IH. destruct (py_in k (map fst r)); reflexivity.
Qed.

Lemma unique_keys_dset (k : K) (v : V) (d : dict K V) :
  unique_keys d -> unique_keys (dset k v d).
Proof.
  unfold unique_keys. intros Hnd. rewrite keys_dset.
  destruct (py_in k (keys d)) eqn:Hin; [exact Hnd |].
  apply py_in_false in Hin.
  apply NoDup_rev in Hnd. rewrite <- (rev_involutive (keys d ++ [k])).
  apply NoDup_rev. rewrite rev_app_distr. simpl.
  constructor; [rewrite <- in_rev; exact Hin | exact Hnd].
Qed.

Lemma dget_dpop_other (k k0 : K) (d : dict K V) :
  k0 <> k -> dget k0 (dpop k d) = dget k0 d.
Proof.
  intros Hne. induction d as [| [k' v'] r IH]; simpl; [reflexivity |].
  destruct (eq_dec k k') as [-> | Hne']; simpl.
  - destruct (eq_dec k0 k'); [congruence | reflexivity].
  - destruct (eq_dec k0 k'); [reflexivity | exact IH].
Qed.

Lemma dget_dpop_same (k : K) (d : dict K V) :
  unique_keys d -> dget k (dpop k d) = None.
Proof.
  unfold unique_keys. induction d as [| [k' v'] r IH]; simpl; [reflexivity |].
  intros Hnd. inversion Hnd as [| ? ? Hnin Hnd']; subst.
  destruct (eq_dec k k') as [-> | Hne]; simpl.
  - apply dget_None_keys. exact Hnin.
  - destruct (eq_dec k k'); [congruence | auto].
Qed.

Lemma dpop_absent (k : K) (d : dict K V) :
  ~ In k (keys d) -> dpop k d = d.
Proof.
  induction d as [| [k' v'] r IH]; simpl; [reflexivity |].
  intros Hnin. destruct (eq_dec k k') as [-> | Hne]; [tauto |].
  f_equal. apply IH. tauto.
Qed.

(** Popping keys that are not the head's leaves the head where it is. *)
Lemma fold_dpop_cons (ks : list K) (k : K) (v : V) (d : dict K V) :
  ~ In k ks ->
  fold_left (fun d' key => dpop key d') ks ((k, v) :: d)
  = (k, v) :: fold_left (fun d' key => dpop key d') ks d.
Proof.
  revert d. induction ks as [| k1 ks IH]; intros d Hnin; simpl; [reflexivity |].
  destruct (eq_dec k1 k) as [-> | Hne]; [simpl in Hnin; tauto |].
  apply IH. simpl in Hnin. tauto.
Qed.

(** Collecting the keys of the entries that satisfy a test and popping them
    one by one keeps exactly the other entries. *)
Lemma fold_dpop_filter (p : K * V -> bool) (d : dict K V) :
  unique_keys d ->
  fold_left (fun d' key => dpop key d') (keys (filter p d)) d
  = filter (fun e => negb (p e)) d.
Proof.
  unfold unique_keys.
  induction d as [| [k v] r IH]; simpl; [reflexivity |].
  intros Hnd. inversion Hnd as [| ? ? Hnin Hnd']; subst.
  destruct (p (k, v)) eqn:Hp; simpl.
  - destruct (eq_dec k k); [| congruence]. apply IH. exact Hnd'.
  - rewrite fold_dpop_cons.
    + f_equal. apply IH. exact Hnd'.
    + intros Hin. apply Hnin. unfold keys in *.
      apply in_map_iff in Hin. destruct Hin as [e [He Hin]].
      apply filter_In in Hin. apply in_map_iff. exists e. tauto.
Qed.
End DictFacts.

(** [setdefault(k, []).append(x)] walks to the slot of [k], or adds one at
    the end. *)
Lemma setdefault_append_nil {K A : Type} `{EqDec K} (k : K) (x : A) :
  setdefault_append k x [] = [(k, [x])].
Proof.
  unfold setdefault_append, setdefault. simpl.
  destruct (eq_dec k k); [reflexivity | congruence].
Qed.

Lemma setdefault_append_cons {K A : Type} `{EqDec K}
    (k k' : K) (x : A) (l : list A) (d : dict K (list A)) :
  setdefault_append k x ((k', l) :: d)
  = if eq_dec k k' then (k', l ++ [x]) :: d
    else (k', l) :: setdefault_append k x d.
Proof.
  unfold setdefault_append, setdefault. simpl.
  destruct (eq_dec k k') as [-> | Hne]; simpl.
  - destruct (eq_dec k' k'); [reflexivity | congruence].
  - destruct (dget k d) eqn:Hget; simpl.
    + destruct (eq_dec k k'); [congruence | reflexivity].
    + destruct (eq_dec k k'); [congruence |].
      destruct (eq_dec k k'); [congruence | reflexivity].
Qed.

(** ** Tables: the items of the value lists *)

Lemma NoDup_app_parts {A : Type} (l1 l2 : list A) :
  NoDup (l1 ++ l2) ->
  NoDup l1 /\ NoDup l2 /\ (forall a, In a l1 -> ~ In a l2).
Proof.
  induction l1 as [| x l1 IH]; simpl; intros Hnd.
  - repeat split; [constructor | exact Hnd | tauto].
  - inversion Hnd as [| ? ? Hnin Hnd']; subst.
    destruct (IH Hnd') as [H1 [H2 H3]].
    repeat split; [| exact H2 |].
    + constructor; [| exact H1]. intros Hin. apply Hnin, in_or_app. tauto.
    + intros a [-> | Hin] Hin2; [apply Hnin, in_or_app; tauto | eapply H3; eauto].
Qed.

Section TableFacts.
Context {K A : Type} `{EqDec K}.

Lemma all_binds_cons (k : K) (l : list A) (t : dict K (list A)) :
  all_binds ((k, l) :: t) = l ++ all_binds t.
Proof. reflexivity. Qed.

Lemma all_binds_In (x : A) (t : dict K (list A)) :
  In x (all_binds t) <-> exists k l, In (k, l) t /\ In x l.
Proof.
  induction t as [| [k l] r IH]; simpl.
  - split; [tauto | intros [k [l [[] _]]]].
  - rewrite all_binds_cons, in_app_iff, IH. split.
    + intros [Hin | [k0 [l0 [Hin Hx]]]].
      * exists k, l. tauto.
      * exists k0, l0. tauto.
    + intros [k0 [l0 [[Heq | Hin] Hx]]].
      * inversion Heq; subst. tauto.
      * right. exists k0, l0. tauto.
Qed.

Lemma keys_setdefault_append (k : K) (x : A) (t : dict K (list A)) :
  keys (setdefault_append k x t)
  = if py_in k (keys t) then keys t else keys t ++ [k].
Proof.
  induction t as [| [k' l] r IH].
  - rewrite setdefault_append_nil. reflexivity.
  - rewrite setdefault_append_cons. simpl.
    destruct (eq_dec k k') as [-> | Hne]; simpl; [reflexivity |].
    unfold keys in *. rewrite IH. destruct (py_in k (map fst r)); reflexivity.
Qed.

Lemma unique_keys_setdefault_append (k : K) (x : A) (t : dict K (list A)) :
  unique_keys t -> unique_keys (setdefault_append k x t).
Proof.
  unfold unique_keys. intros Hnd. rewrite keys_setdefault_append.
  destruct (py_in k (keys t)) eqn:Hin; [exact Hnd |].
  apply py_in_false in Hin.
  apply NoDup_app; [exact Hnd | repeat constructor; simpl; tauto |].
  intros a Ha [<- | []]. tauto.
Qed.

Lemma all_binds_setdefault_append_In (k : K) (x y : A) (t : dict K (list A)) :
  In y (all_binds (setdefault_append k x t)) <-> y = x \/ In y (all_binds t).
Proof.
  induction t as [| [k' l] r IH].
  - rewrite setdefault_append_nil. simpl. intuition.
  - rewrite setdefault_append_cons.
    destruct (eq_dec k k') as [-> | Hne];
      rewrite !all_binds_cons, !in_app_iff.
    + simpl. intuition.
    + rewrite IH. intuition.
Qed.

Lemma all_binds_setdefault_append_NoDup (k : K) (x : A) (t : dict K (list A)) :
  NoDup (all_binds t) -> ~ In x (all_binds t) ->
  NoDup (all_binds (setdefault_append k x t)).
Proof.
  induction t as [| [k' l] r IH]; intros Hnd Hnin.
  - rewrite setdefault_append_nil. repeat constructor. simpl. tauto.
  - rewrite setdefault_append_cons. rewrite all_binds_cons in Hnd, Hnin.
    destruct (NoDup_app_parts _ _ Hnd) as [Hl [Hr Hdis]].
    rewrite in_app_iff in Hnin.
    destruct (eq_dec k k') as [-> | Hne]; rewrite all_binds_cons.
    + apply NoDup_app; [| exact Hr |].
      * apply NoDup_app; [exact Hl | repeat constructor; simpl; tauto |].
        intros a Ha [<- | []]. tauto.
      * intros a Ha. apply in_app_iff in Ha. destruct Ha as [Ha | [<- | []]];
          [apply Hdis; exact Ha | tauto].
    + apply NoDup_app; [exact Hl | apply IH; tauto |].
      intros a Ha Hin. apply all_binds_setdefault_append_In in Hin.
      destruct Hin as [-> | Hin]; [tauto | eapply Hdis; eauto].
Qed.

Lemma no_empty_slot_setdefault_append (k : K) (x : A) (t : dict K (list A)) :
  no_empty_slot t -> no_empty_slot (setdefault_append k x t).
Proof.
  unfold no_empty_slot.
  induction t as [| [k' l] r IH]; intros Hne k0 l0.
  - rewrite setdefault_append_nil. intros [Heq | []]. inversion Heq. discriminate.
  - rewrite setdefault_append_cons. destruct (eq_dec k k') as [-> | Hnk].
    + intros [Heq | Hin].
      * inversion Heq; subst. destruct l; discriminate.
      * apply (Hne k0). right. exact Hin.
    + intros [Heq | Hin].
      * inversion Heq; subst. apply (Hne k0). left. reflexivity.
      * apply (IH (fun k1 l1 Hin1 => Hne k1 l1 (or_intror Hin1)) k0 l0 Hin).
Qed.
Lemma replay_names (other : dict K (list A)) :
  map snd (replay other) = all_binds other.
Proof.
  unfold replay. induction other as [| [k l] r IH]; simpl; [reflexivity |].
  rewrite map_app, IH, all_binds_cons, map_map. simpl. rewrite map_id.
  reflexivity.
Qed.

Lemma replay_In (other : dict K (list A)) (k : K) (b : A) :
  In (k, b) (replay other) <-> exists l, In (k, l) other /\ In b l.
Proof.
  unfold replay. rewrite in_flat_map. split.
  - intros [[k' l] [Hin Hb]]. simpl in Hb. apply in_map_iff in Hb.
    destruct Hb as [b' [Heq Hb]]. inversion Heq; subst. exists l. tauto.
  - intros [l [Hin Hb]]. exists (k, l). split; [exact Hin |].
    simpl. apply in_map_iff. exists b. tauto.
Qed.
End TableFacts.

(** ** The joystick table *)

Section JoyFacts.
Import JoyMap.

Lemma py_in_ext {A : Type} `{EqDec A} (x : A) (l l' : list A) :
  (In x l <-> In x l') -> py_in x l = py_in x l'.
Proof.
  intros Hiff. destruct (py_in x l') eqn:Hin.
  - apply py_in_In, Hiff, py_in_In, Hin.
  - apply py_in_false. rewrite Hiff. apply py_in_false, Hin.
Qed.

Lemma strip_other (b c : string) (l : list string) :
  c <> b -> (In c (strip b l) <-> In c l).
Proof.
  intros Hne. unfold strip. destruct (py_in b l); [| tauto].
  split; [apply list_remove_incl | apply list_remove_other; exact Hne].
Qed.

Lemma strip_incl (b c : string) (l : list string) :
  In c (strip b l) -> In c l.
Proof.
  unfold strip. destruct (py_in b l); [apply list_remove_incl | tauto].
Qed.

Lemma strip_gone (b : string) (l : list string) :
  NoDup l -> ~ In b (strip b l).
Proof.
  intros Hnd. unfold strip. destruct (py_in b l) eqn:Hin.
  - apply list_remove_gone, Hnd.
  - apply py_in_false, Hin.
Qed.

Lemma strip_NoDup (b : string) (l : list string) :
  NoDup l -> NoDup (strip b l).
Proof.
  intros Hnd. unfold strip. destruct (py_in b l); [| exact Hnd].
  apply list_remove_NoDup, Hnd.
Qed.

Lemma strip_absent (b : string) (l : list string) :
  ~ In b l -> strip b l = l.
Proof.
  intros Hnin. unfold strip. apply py_in_false in Hnin. rewrite Hnin. reflexivity.
Qed.

(** The two loops of [remove_bind] amount to: strip every list, keep the
    slots that are not empty. *)
Lemma remove_bind_filter (t : JoyMap) (b : string) :
  unique_keys t ->
  remove_bind t b
  = filter (fun item => negb (List.length (snd item) =? 0)%nat)
      (map (fun item => (fst item, strip b (snd item))) t).
Proof.
  intros Huk. unfold remove_bind, _joy_binds.
  assert (Hmap :
    map (fun item : option pattern * list string =>
           let '(key, bind_list) := item in
           (key, if py_in b bind_list then list_remove b bind_list else bind_list)) t
    = map (fun item => (fst item, strip b (snd item))) t).
  { apply map_ext. intros [k l]. reflexivity. }
  rewrite Hmap. apply fold_dpop_filter.
  unfold unique_keys, keys in *. rewrite map_map. simpl. exact Huk.
Qed.

Lemma bound_slot_None (b : string) (t : JoyMap) :
  bound_slot b t = None <-> ~ In b (all_binds t).
Proof.
  induction t as [| [k l] r IH]; simpl; [tauto |].
  rewrite all_binds_cons, in_app_iff.
  destruct (py_in b l) eqn:Hin.
  - apply py_in_In in Hin. split; [discriminate | tauto].
  - apply py_in_false in Hin. rewrite IH. tauto.
Qed.

Lemma bound_slot_In (b : string) (t : JoyMap) (k : option pattern) :
  bound_slot b t = Some k -> exists l, In (k, l) t /\ In b l.
Proof.
  induction t as [| [k' l] r IH]; simpl; [discriminate |].
  destruct (py_in b l) eqn:Hin.
  - intros Heq. inversion Heq; subst. exists l. apply py_in_In in Hin. tauto.
  - intros Heq. destruct (IH Heq) as [l' [H1 H2]]. exists l'. tauto.
Qed.

(** In a table without duplicates the scan finds the one slot of a name. *)
Lemma bound_slot_unique (b : string) (t : JoyMap) (k : option pattern)
    (l : list string) :
  NoDup (all_binds t) -> In (k, l) t -> In b l -> bound_slot b t = Some k.
Proof.
  induction t as [| [k' l'] r IH]; simpl; [tauto |].
  rewrite all_binds_cons. intros Hnd [Heq | Hin] Hb.
  - inversion Heq; subst. apply py_in_In in Hb. rewrite Hb. reflexivity.
  - destruct (NoDup_app_parts _ _ Hnd) as [_ [Hr Hdis]].
    destruct (py_in b l') eqn:Hin'.
    + exfalso. apply py_in_In in Hin'. apply (Hdis b Hin').
      apply all_binds_In. exists k, l. tauto.
    + apply IH; assumption.
Qed.

Lemma remove_bind_bound_other (t : JoyMap) (b c : string) :
  unique_keys t -> c <> b ->
  bound_slot c (remove_bind t b) = bound_slot c t.
Proof.
  intros Huk Hne. rewrite remove_bind_filter by exact Huk. clear Huk.
  induction t as [| [k l] r IH]; simpl; [reflexivity |].
  rewrite <- (py_in_ext c (strip b l) l (strip_other b c l Hne)).
  destruct (strip b l) as [| x l'] eqn:Hs; simpl.
  - exact IH.
  - rewrite IH. reflexivity.
Qed.

Lemma remove_bind_In (t : JoyMap) (b c : string) :
  unique_keys t ->
  In c (all_binds (remove_bind t b)) -> In c (all_binds t).
Proof.
  intros Huk. rewrite remove_bind_filter by exact Huk. clear Huk.
  rewrite !all_binds_In. intros [k [l [Hin Hc]]].
  apply filter_In in Hin. destruct Hin as [Hin _].
  apply in_map_iff in Hin. destruct Hin as [[k0 l0] [Heq Hin]].
  simpl in Heq. inversion Heq; subst.
  exists k, l0. split; [exact Hin | eapply strip_incl; eauto].
Qed.

Lemma remove_bind_In_other (t : JoyMap) (b c : string) :
  unique_keys t -> c <> b ->
  In c (all_binds t) -> In c (all_binds (remove_bind t b)).
Proof.
  intros Huk Hne. rewrite remove_bind_filter by exact Huk. clear Huk.
  rewrite !all_binds_In. intros [k [l [Hin Hc]]].
  exists k, (strip b l). split; [| apply strip_other; assumption].
  apply filter_In. split.
  - apply in_map_iff. exists (k, l). tauto.
  - simpl. apply (strip_other b c l Hne) in Hc.
    destruct (strip b l); [destruct Hc | reflexivity].
Qed.

Lemma remove_bind_gone (t : JoyMap) (b : string) :
  unique_keys t -> NoDup (all_binds t) ->
  ~ In b (all_binds (remove_bind t b)).
Proof.
  intros Huk Hnd. rewrite remove_bind_filter by exact Huk. clear Huk.
  rewrite all_binds_In. intros [k [l [Hin Hb]]].
  apply filter_In in Hin. destruct Hin as [Hin _].
  apply in_map_iff in Hin. destruct Hin as [[k0 l0] [Heq Hin]].
  simpl in Heq. inversion Heq; subst.
  revert Hb. apply strip_gone.
  clear - Hnd Hin. induction t as [| [k1 l1] r IH]; [destruct Hin |].
  rewrite all_binds_cons in Hnd.
  destruct (NoDup_app_parts _ _ Hnd) as [Hl [Hr _]].
  destruct Hin as [Heq | Hin]; [inversion Heq; subst; exact Hl | auto].
Qed.

Lemma remove_bind_NoDup (t : JoyMap) (b : string) :
  unique_keys t -> NoDup (all_binds t) ->
  NoDup (all_binds (remove_bind t b)).
Proof.
  intros Huk Hnd. rewrite remove_bind_filter by exact Huk. clear Huk.
  induction t as [| [k l] r IH]; simpl; [constructor |].
  rewrite all_binds_cons in Hnd.
  destruct (NoDup_app_parts _ _ Hnd) as [Hl [Hr Hdis]].
  assert (Htail :
    forall a, In a (strip b l) ->
      ~ In a (all_binds
                (filter (fun item => negb (List.length (snd item) =? 0)%nat)
                   (map (fun item => (fst item, strip b (snd item))) r)))).
  { intros a Ha Hin. apply (Hdis a (strip_incl b a l Ha)).
    apply all_binds_In in Hin. destruct Hin as [k0 [l0 [Hin Hx]]].
    apply filter_In in Hin. destruct Hin as [Hin _].
    apply in_map_iff in Hin. destruct Hin as [[k1 l1] [Heq Hin]].
    simpl in Heq. inversion Heq; subst.
    apply all_binds_In. exists k0, l1. split; [exact Hin |].
    eapply strip_incl; eauto. }
  destruct (strip b l) as [| x l'] eqn:Hs; simpl.
  - apply IH, Hr.
  - rewrite all_binds_cons. apply NoDup_app.
    + rewrite <- Hs. apply strip_NoDup, Hl.
    + apply IH, Hr.
    + exact Htail.
Qed.

Lemma remove_bind_unique_keys (t : JoyMap) (b : string) :
  unique_keys t -> unique_keys (remove_bind t b).
Proof.
  intros Huk. rewrite remove_bind_filter by exact Huk.
  unfold unique_keys, keys in *.
  induction t as [| [k l] r IH]; simpl; [constructor |].
  inversion Huk as [| ? ? Hnin Hnd]; subst.
  destruct (negb (List.length (strip b l) =? 0)%nat); simpl; [| auto].
  constructor; [| auto].
  intros Hin. apply Hnin. apply in_map_iff in Hin.
  destruct Hin as [[k0 l0] [Heq Hin]]. simpl in Heq. subst k0.
  apply filter_In in Hin. destruct Hin as [Hin _].
  apply in_map_iff in Hin. destruct Hin as [[k1 l1] [Heq Hin]].
  simpl in Heq. inversion Heq; subst.
  apply in_map_iff. exists (k, l1). tauto.
Qed.

Lemma remove_bind_no_empty_slot (t : JoyMap) (b : string) :
  unique_keys t -> no_empty_slot (remove_bind t b).
Proof.
  intros Huk. rewrite remove_bind_filter by exact Huk.
  intros k l Hin. apply filter_In in Hin. destruct Hin as [_ Hlen].
  simpl in Hlen. destruct l; [discriminate | discriminate].
Qed.

(** What is left under each key. *)
Lemma remove_bind_dget (t : JoyMap) (b : string) (k : option pattern) :
  unique_keys t ->
  dget k (remove_bind t b)
  = match dget k t with
    | Some l => match strip b l with [] => None | l' => Some l' end
    | None => None
    end.
Proof.
  intros Huk. rewrite remove_bind_filter by exact Huk.
  unfold unique_keys, keys in Huk.
  induction t as [| [k' l] r IH]; simpl; [reflexivity |].
  inversion Huk as [| ? ? Hnin Hnd]; subst.
  destruct (eq_dec k k') as [-> | Hne].
  - destruct (strip b l) as [| x l'] eqn:Hs; simpl.
    + apply dget_None_keys. unfold keys. intros Hin. apply Hnin.
      apply in_map_iff in Hin. destruct Hin as [[k0 l0] [Heq Hin]].
      simpl in Heq. subst k0.
      apply filter_In in Hin. destruct Hin as [Hin _].
      apply in_map_iff in Hin. destruct Hin as [[k1 l1] [Heq Hin]].
      simpl in Heq. inversion Heq; subst.
      apply in_map_iff. exists (k', l1). tauto.
    + destruct (eq_dec k' k'); [reflexivity | congruence].
  - destruct (strip b l) as [| x l'] eqn:Hs; simpl.
    + apply IH, Hnd.
    + destruct (eq_dec k k'); [congruence | apply IH, Hnd].
Qed.
End JoyFacts.

Section JoyRebindFacts.
Import JoyMap.

Lemma append_bound_other (t : JoyMap) (k : option pattern) (b c : string) :
  c <> b -> bound_slot c (setdefault_append k b t) = bound_slot c t.
Proof.
  intros Hne. induction t as [| [k' l] r IH].
  - rewrite setdefault_append_nil. simpl.
    destruct (eq_dec c b); [congruence | reflexivity].
  - rewrite setdefault_append_cons. destruct (eq_dec k k') as [-> | Hnk]; simpl.
    + assert (Hin : py_in c (l ++ [b]) = py_in c l).
      { apply py_in_ext. rewrite in_app_iff. simpl. intuition congruence. }
      rewrite Hin. reflexivity.
    + rewrite IH. reflexivity.
Qed.

Lemma append_bound_same (t : JoyMap) (k : option pattern) (b : string) :
  ~ In b (all_binds t) -> bound_slot b (setdefault_append k b t) = Some k.
Proof.
  induction t as [| [k' l] r IH]; intros Hnin.
  - rewrite setdefault_append_nil. simpl.
    destruct (eq_dec b b); [reflexivity | congruence].
  - rewrite setdefault_append_cons. rewrite all_binds_cons, in_app_iff in Hnin.
    destruct (eq_dec k k') as [-> | Hnk]; simpl.
    + assert (Hin : py_in b (l ++ [b]) = true).
      { apply py_in_In, in_app_iff. simpl. tauto. }
      rewrite Hin. reflexivity.
    + assert (Hin : py_in b l = false) by (apply py_in_false; tauto).
      rewrite Hin. apply IH. tauto.
Qed.

Lemma rebind_ok (t : JoyMap) (b : string) (k : option pattern) :
  joy_table_ok t -> joy_table_ok (_rebind t b k).
Proof.
  intros [Huk Hnd]. unfold _rebind. split.
  - apply unique_keys_setdefault_append, remove_bind_unique_keys, Huk.
  - apply all_binds_setdefault_append_NoDup.
    + apply remove_bind_NoDup; assumption.
    + apply remove_bind_gone; assumption.
Qed.

Lemma rebind_bound_same (t : JoyMap) (b : string) (k : option pattern) :
  joy_table_ok t -> bound_slot b (_rebind t b k) = Some k.
Proof.
  intros [Huk Hnd]. unfold _rebind.
  apply append_bound_same, remove_bind_gone; assumption.
Qed.

Lemma rebind_bound_other (t : JoyMap) (b c : string) (k : option pattern) :
  unique_keys t -> c <> b -> bound_slot c (_rebind t b k) = bound_slot c t.
Proof.
  intros Huk Hne. unfold _rebind.
  rewrite append_bound_other by exact Hne.
  apply remove_bind_bound_other; assumption.
Qed.

Lemma rebind_In (t : JoyMap) (b c : string) (k : option pattern) :
  joy_table_ok t ->
  (In c (all_binds (_rebind t b k)) <-> c = b \/ In c (all_binds t)).
Proof.
  intros [Huk Hnd]. unfold _rebind.
  rewrite all_binds_setdefault_append_In. split.
  - intros [-> | Hin]; [tauto | right; eapply remove_bind_In; eauto].
  - intros [-> | Hin]; [tauto |].
    destruct (string_dec c b) as [-> | Hne]; [tauto |].
    right. apply remove_bind_In_other; assumption.
Qed.

Lemma rebind_no_empty_slot (t : JoyMap) (b : string) (k : option pattern) :
  unique_keys t -> no_empty_slot (_rebind t b k).
Proof.
  intros Huk. unfold _rebind.
  apply no_empty_slot_setdefault_append, remove_bind_no_empty_slot, Huk.
Qed.

(** [merge] is the replay, one [_rebind] per item of the other table. *)
Lemma merge_replay (self other : JoyMap) :
  merge self other
  = fold_left (fun s pb => _rebind s (snd pb) (fst pb)) (replay other) self.
Proof.
  unfold merge, replay, _joy_binds. revert self.
  induction other as [| [k l] r IH]; intros self; simpl; [reflexivity |].
  rewrite fold_left_app, IH. f_equal.
  clear IH. revert self. induction l as [| b l IHl]; intros self; simpl;
    [reflexivity | apply IHl].
Qed.

(** A replay of steps with pairwise distinct names: each name ends where
    its step put it, the other names stay, the invariant is kept. *)
Lemma replay_fold (steps : list (option pattern * string)) (t : JoyMap) :
  joy_table_ok t ->
  let t' := fold_left (fun s pb => _rebind s (snd pb) (fst pb)) steps t in
  joy_table_ok t' /\
  (forall c, In c (all_binds t') <-> In c (map snd steps) \/ In c (all_binds t)) /\
  (forall c, ~ In c (map snd steps) -> bound_slot c t' = bound_slot c t) /\
  (NoDup (map snd steps) ->
   forall k b, In (k, b) steps -> bound_slot b t' = Some k).
Proof.
  revert t. induction steps as [| [k b] steps IH]; intros t Hok; simpl.
  - repeat split; try tauto. apply Hok. apply Hok.
  - pose proof (rebind_ok t b k Hok) as Hok1.
    destruct (IH (_rebind t b k) Hok1) as [Hok' [Hin [Hother Hsame]]].
    split; [exact Hok' |]. split; [| split].
    + intros c. rewrite Hin, (rebind_In t b c k Hok). intuition.
    + intros c Hnin. rewrite Hother by tauto.
      apply rebind_bound_other; [apply Hok | intros ->; tauto].
    + intros Hnd k0 b0 [Heq | Hin0].
      * inversion Heq; subst. inversion Hnd as [| ? ? Hnin Hnd']; subst.
        rewrite Hother by exact Hnin. apply rebind_bound_same, Hok.
      * inversion Hnd as [| ? ? Hnin Hnd']; subst. apply Hsame; assumption.
Qed.
End JoyRebindFacts.

(** ** The key table *)

Section KeyFacts.
Import KeyMap.

Lemma eqb_true {A : Type} `{EqDec A} (a b : A) : eqb a b = true <-> a = b.
Proof. unfold eqb. destruct (eq_dec a b); split; congruence. Qed.

Lemma eqb_false {A : Type} `{EqDec A} (a b : A) : eqb a b = false <-> a <> b.
Proof. unfold eqb. destruct (eq_dec a b); split; congruence. Qed.

Lemma named_true (name : string) (b : KeyBind) :
  named name b = true <-> bind_name b = name.
Proof. unfold named, eqb. destruct (eq_dec (bind_name b) name); split; congruence. Qed.

Lemma named_false (name : string) (b : KeyBind) :
  named name b = false <-> bind_name b <> name.
Proof. unfold named, eqb. destruct (eq_dec (bind_name b) name); split; congruence. Qed.

Lemma find_named_None (name : string) (l : list KeyBind) :
  find (named name) l = None <-> ~ In name (map bind_name l).
Proof.
  induction l as [| b l IH]; simpl; [tauto |].
  destruct (named name b) eqn:Hn.
  - apply named_true in Hn. split; [discriminate |].
    intros Hnin. exfalso. apply Hnin. left. exact Hn.
  - apply named_false in Hn. rewrite IH. split.
    + intros Hnin [Heq | Hin]; [apply Hn; exact Heq | apply Hnin; exact Hin].
    + intros Hnin Hin. apply Hnin. right. exact Hin.
Qed.

Lemma find_named_filter_other (name c : string) (l : list KeyBind) :
  c <> name ->
  find (named c) (filter (fun b => negb (named name b)) l) = find (named c) l.
Proof.
  intros Hne. induction l as [| b l IH]; simpl; [reflexivity |].
  destruct (named name b) eqn:Hn; simpl.
  - assert (Hc : named c b = false).
    { apply named_true in Hn. apply named_false. congruence. }
    rewrite Hc. exact IH.
  - destruct (named c b); [reflexivity | exact IH].
Qed.

Lemma find_named_filter_same (name : string) (l : list KeyBind) :
  find (named name) (filter (fun b => negb (named name b)) l) = None.
Proof.
  induction l as [| b l IH]; simpl; [reflexivity |].
  destruct (named name b) eqn:Hn; simpl; [exact IH |].
  rewrite Hn. exact IH.
Qed.

Lemma key_bound_slot_None (name : string) (t : KeyMap) :
  bound_slot name t = None <-> ~ In name (key_names t).
Proof.
  unfold key_names. induction t as [| [k l] r IH]; simpl; [tauto |].
  rewrite all_binds_cons, map_app, in_app_iff.
  destruct (find (named name) l) eqn:Hf.
  - split; [discriminate |]. intros Hnin. exfalso.
    assert (Hx : find (named name) l = None) by (apply find_named_None; tauto).
    congruence.
  - apply find_named_None in Hf. rewrite IH. tauto.
Qed.

Lemma key_remove_bind_same (t : KeyMap) (name : string) :
  bound_slot name (remove_bind t name) = None.
Proof.
  unfold remove_bind, key_binds.
  induction t as [| [k l] r IH]; simpl; [reflexivity |].
  pose proof (find_named_filter_same name l) as Hf.
  destruct (filter (fun b => negb (named name b)) l) as [| x l']; simpl.
  - exact IH.
  - simpl in Hf. rewrite Hf. exact IH.
Qed.

Lemma key_remove_bind_other (t : KeyMap) (name c : string) :
  c <> name -> bound_slot c (remove_bind t name) = bound_slot c t.
Proof.
  intros Hne. unfold remove_bind, key_binds.
  induction t as [| [k l] r IH]; simpl; [reflexivity |].
  rewrite <- (find_named_filter_other name c l Hne).
  destruct (filter (fun b => negb (named name b)) l) as [| x l'] eqn:Hs; simpl.
  - exact IH.
  - rewrite IH. reflexivity.
Qed.

Lemma key_remove_bind_no_empty_slot (t : KeyMap) (name : string) :
  no_empty_slot (remove_bind t name).
Proof.
  unfold remove_bind. intros k l Hin.
  apply filter_In in Hin. destruct Hin as [_ Hlen].
  simpl in Hlen. destruct l; discriminate.
Qed.

Lemma key_append_same (t : KeyMap) (k : option Z) (kb : KeyBind) :
  bound_slot (bind_name kb) t = None ->
  bound_slot (bind_name kb) (setdefault_append k kb t) = Some (k, mod_ kb).
Proof.
  assert (Hself : named (bind_name kb) kb = true) by (apply named_true; reflexivity).
  induction t as [| [k' l] r IH]; intros Hnone.
  - rewrite setdefault_append_nil. simpl. 
    rewrite Hself. reflexivity.
  - rewrite setdefault_append_cons. simpl in Hnone.
    destruct (find (named (bind_name kb)) l) eqn:Hf; [discriminate |].
    destruct (eq_dec k k') as [-> | Hnk]; simpl.
    + assert (Hx : find (named (bind_name kb)) (l ++ [kb]) = Some kb).
      { clear - Hf Hself. induction l as [| b l IHl]; simpl.
        - rewrite Hself. reflexivity.
        - simpl in Hf. destruct (named (bind_name kb) b); [discriminate | auto]. }
      rewrite Hx. reflexivity.
    + rewrite Hf. apply IH, Hnone.
Qed.

Lemma key_append_other (t : KeyMap) (k : option Z) (kb : KeyBind) (c : string) :
  c <> bind_name kb ->
  bound_slot c (setdefault_append k kb t) = bound_slot c t.
Proof.
  intros Hne.
  assert (Hc : named c kb = false) by (apply named_false; congruence).
  induction t as [| [k' l] r IH].
  - rewrite setdefault_append_nil. simpl. rewrite Hc. reflexivity.
  - rewrite setdefault_append_cons.
    destruct (eq_dec k k') as [-> | Hnk]; simpl.
    + assert (Hx : find (named c) (l ++ [kb]) = find (named c) l).
      { clear - Hc. induction l as [| b l IHl]; simpl.
        - rewrite Hc. reflexivity.
        - destruct (named c b); [reflexivity | exact IHl]. }
      rewrite Hx. reflexivity.
    + rewrite IH. reflexivity.
Qed.

Lemma key_rebind_same (t : KeyMap) (kb : KeyBind) (k : option Z) :
  bound_slot (bind_name kb) (rebind t kb k) = Some (k, mod_ kb).
Proof.
  unfold rebind. apply key_append_same, key_remove_bind_same.
Qed.

Lemma key_rebind_other (t : KeyMap) (kb : KeyBind) (k : option Z) (c : string) :
  c <> bind_name kb -> bound_slot c (rebind t kb k) = bound_slot c t.
Proof.
  intros Hne. unfold rebind.
  rewrite key_append_other by exact Hne.
  apply key_remove_bind_other, Hne.
Qed.
End KeyFacts.

Section KeyMergeFacts.
Import KeyMap.

Lemma key_merge_replay (self other : KeyMap) :
  merge self other
  = fold_left (fun s kb => rebind s (snd kb) (fst kb)) (replay other) self.
Proof.
  unfold merge, replay, key_binds. revert self.
  induction other as [| [k l] r IH]; intros self; simpl; [reflexivity |].
  rewrite fold_left_app, IH. f_equal.
  clear IH. revert self. induction l as [| b l IHl]; intros self; simpl;
    [reflexivity | apply IHl].
Qed.

Lemma find_named_unique (l : list KeyBind) (kb : KeyBind) :
  NoDup (map bind_name l) -> In kb l -> find (named (bind_name kb)) l = Some kb.
Proof.
  induction l as [| b l IH]; simpl; [tauto |].
  intros Hnd Hin. inversion Hnd as [| ? ? Hnin Hnd']; subst.
  destruct Hin as [-> | Hin].
  - assert (Hs : named (bind_name kb) kb = true) by (apply named_true; reflexivity).
    rewrite Hs. reflexivity.
  - assert (Hs : named (bind_name kb) b = false).
    { apply named_false. intros Heq. apply Hnin. rewrite Heq.
      apply in_map, Hin. }
    rewrite Hs. apply IH; assumption.
Qed.

(** In a key table without duplicate names the scan finds a bind in its
    slot, with its modifier. *)
Lemma key_bound_slot_unique (t : KeyMap) (k : option Z) (kb : KeyBind) :
  NoDup (key_names t) -> In (k, kb) (replay t) ->
  bound_slot (bind_name kb) t = Some (k, mod_ kb).
Proof.
  unfold key_names.
  induction t as [| [k' l] r IH]; simpl; [tauto |].
  rewrite all_binds_cons, map_app. intros Hnd Hin.
  destruct (NoDup_app_parts _ _ Hnd) as [Hl [Hr Hdis]].
  apply in_app_or in Hin. destruct Hin as [Hin | Hin].
  - apply in_map_iff in Hin. destruct Hin as [b [Heq Hin]].
    simpl in Heq. inversion Heq; subst.
    rewrite (find_named_unique l kb Hl Hin). reflexivity.
  - assert (Hnone : find (named (bind_name kb)) l = None).
    { apply find_named_None. intros Hx. apply (Hdis _ Hx).
      apply in_map. apply all_binds_In. apply replay_In in Hin.
      destruct Hin as [l' [H1 H2]]. exists k, l'. tauto. }
    rewrite Hnone. apply IH; assumption.
Qed.

Lemma key_replay_fold (steps : list (option Z * KeyBind)) (t : KeyMap) :
  let t' := fold_left (fun s kb => rebind s (snd kb) (fst kb)) steps t in
  (forall c, ~ In c (map (fun kb => bind_name (snd kb)) steps) ->
     bound_slot c t' = bound_slot c t) /\
  (NoDup (map (fun kb => bind_name (snd kb)) steps) ->
   forall k kb, In (k, kb) steps ->
     bound_slot (bind_name kb) t' = Some (k, mod_ kb)).
Proof.
  revert t. induction steps as [| [k b] steps IH]; intros t; simpl.
  - split; [reflexivity | tauto].
  - destruct (IH (rebind t b k)) as [Hother Hsame]. split.
    + intros c Hnin. rewrite Hother by tauto.
      apply key_rebind_other. intros ->. tauto.
    + intros Hnd k0 b0 [Heq | Hin].
      * inversion Heq; subst. inversion Hnd as [| ? ? Hnin Hnd']; subst.
        rewrite Hother by exact Hnin. apply key_rebind_same.
      * inversion Hnd as [| ? ? Hnin Hnd']; subst. apply Hsame; assumption.
Qed.

(** The key table merges as the joystick table does: the names of the
    other table end bound as they are there, the remaining ones stay. *)
Lemma key_merge_latter_wins (A B : KeyMap) :
  NoDup (key_names B) ->
  (forall b, In b (key_names B) ->
     get_bound_key (merge A B) b = get_bound_key B b) /\
  (forall b, ~ In b (key_names B) ->
     get_bound_key (merge A B) b = get_bound_key A b).
Proof.
  intros Hnd. rewrite key_merge_replay.
  destruct (key_replay_fold (replay B) A) as [Hother Hsame].
  assert (Hnames : map (fun kb : option Z * KeyBind => bind_name (snd kb)) (replay B)
                   = key_names B).
  { unfold key_names. rewrite <- replay_names, map_map. reflexivity. }
  rewrite Hnames in Hother, Hsame.
  unfold get_bound_key, key_binds. split.
  - intros b Hb. unfold key_names in Hb. apply in_map_iff in Hb.
    destruct Hb as [kb [Heq Hin]]. subst b.
    rewrite <- replay_names in Hin. apply in_map_iff in Hin.
    destruct Hin as [[k kb'] [Heq Hin]]. simpl in Heq. subst kb'.
    rewrite (Hsame Hnd k kb Hin).
    rewrite (key_bound_slot_unique B k kb Hnd Hin). reflexivity.
  - intros b Hb. rewrite Hother by exact Hb. reflexivity.
Qed.
End KeyMergeFacts.

(** ** Pattern conversion *)

Lemma convert_items_drop_noise (d : pydict) :
  JoyMap.convert_items d = drop_noise d.
Proof.
  unfold JoyMap.convert_items, drop_noise.
  assert (Hgen : forall acc,
    fold_left
      (fun (pairs : JoyMap.pattern) (item : pyval * pyval) =>
         let '(key, value) := item in
         if py_in key JoyMap._invalid_params then pairs
         else pairs ++ [(key, value)]) d acc
    = acc ++ filter (fun kv => negb (py_in (fst kv) JoyMap._invalid_params)) d).
  { induction d as [| [k v] r IH]; intros acc.
    - simpl. rewrite app_nil_r. reflexivity.
    - cbn [fold_left filter fst]. rewrite IH.
      destruct (py_in k JoyMap._invalid_params); cbn [negb].
      + reflexivity.
      + rewrite <- app_assoc. reflexivity. }
  apply (Hgen []).
Qed.

Lemma dset_fresh {K V : Type} `{EqDec K} (k : K) (v : V) (d : dict K V) :
  ~ In k (keys d) -> dset k v d = d ++ [(k, v)].
Proof.
  induction d as [| [k' v'] r IH]; simpl; [reflexivity |].
  intros Hnin. destruct (eq_dec k k') as [-> | Hne]; [tauto |].
  f_equal. apply IH. tauto.
Qed.

(** Pairs with distinct attributes come back from [_convert_pairs] as they
    are. *)
Lemma convert_pairs_unique (p : JoyMap.pattern) :
  unique_keys p -> JoyMap._convert_pairs p = p.
Proof.
  unfold JoyMap._convert_pairs, unique_keys.
  assert (Hgen : forall acc : pydict,
    NoDup (keys (acc ++ p)) ->
    fold_left (fun (d : pydict) kv => dset (fst kv) (snd kv) d) p acc = acc ++ p).
  { induction p as [| [k v] r IH]; intros acc Hnd.
    - simpl. rewrite app_nil_r. reflexivity.
    - simpl. rewrite dset_fresh.
      + rewrite IH; rewrite <- app_assoc; [reflexivity | exact Hnd].
      + unfold keys in *. rewrite map_app in Hnd. simpl in Hnd.
        apply NoDup_remove_2 in Hnd. intros Hin. apply Hnd.
        apply in_or_app. tauto. }
  intros Hnd. apply (Hgen []). exact Hnd.
Qed.

Lemma unique_keys_filter {K V : Type} (f : K * V -> bool) (d : dict K V) :
  unique_keys d -> unique_keys (filter f d).
Proof.
  unfold unique_keys, keys.
  induction d as [| [k v] r IH]; simpl; [constructor |].
  intros Hnd. inversion Hnd as [| ? ? Hnin Hnd']; subst.
  destruct (f (k, v)); simpl; [| auto].
  constructor; [| auto].
  intros Hin. apply Hnin. apply in_map_iff in Hin.
  destruct Hin as [e [He Hin]]. apply filter_In in Hin.
  apply in_map_iff. exists e. tauto.
Qed.

Lemma drop_noise_unique_keys (d : pydict) :
  unique_keys d -> unique_keys (drop_noise d).
Proof. apply unique_keys_filter. Qed.

(** C2, as stated, fails: the same attributes given in another order
    convert to different patterns, and only one of the two finds the bind. *)
Lemma convert_event_order_sensitive :
  same_mapping (drop_noise ex_hat_button) (drop_noise ex_button_hat) /\
  JoyMap._convert_event (ArgDict ex_hat_button)
    <> JoyMap._convert_event (ArgDict ex_button_hat) /\
  JoyMap.get ex_fire_table (ArgDict ex_hat_button) None = Ok ["fire"] /\
  JoyMap.get ex_fire_table (ArgDict ex_button_hat) None = Ok [].
Proof.
  split; [| split; [| split]].
  - intros k. simpl.
    destruct (eq_dec k (PStr "hat")) as [H1 | H1];
      destruct (eq_dec k (PStr "button")) as [H2 | H2];
      try reflexivity; congruence.
  - vm_compute. discriminate.
  - vm_compute. reflexivity.
  - vm_compute. reflexivity.
Qed.

(** C2, amended: two representations convert to equal patterns exactly when
    dropping 'value', 'instance_id' and 'joy' leaves the same pairs in the
    same order; they then resolve to the same bind names in every table. *)
Theorem convert_event_noise_insensitive
    (e1 e2 : event_arg) (d1 d2 : pydict) :
  attributes e1 = Some d1 -> attributes e2 = Some d2 ->
  (JoyMap._convert_event e1 = JoyMap._convert_event e2
   <-> drop_noise d1 = drop_noise d2) /\
  (drop_noise d1 = drop_noise d2 ->
   forall jm default, JoyMap.get jm e1 default = JoyMap.get jm e2 default).
Proof.
  intros H1 H2.
  assert (Hc1 : JoyMap._convert_event e1 = Ok (drop_noise d1)).
  { destruct e1; simpl in H1; inversion H1; subst;
      unfold JoyMap._convert_event, rbind;
      rewrite convert_items_drop_noise; reflexivity. }
  assert (Hc2 : JoyMap._convert_event e2 = Ok (drop_noise d2)).
  { destruct e2; simpl in H2; inversion H2; subst;
      unfold JoyMap._convert_event, rbind;
      rewrite convert_items_drop_noise; reflexivity. }
  split.
  - rewrite Hc1, Hc2. split; [intros Heq; inversion Heq; reflexivity | congruence].
  - intros Heq jm default. unfold JoyMap.get. rewrite Hc1, Hc2, Heq. reflexivity.
Qed.

Lemma convert_event_noise_insensitive_witness :
  JoyMap._convert_event (ArgEvent (mkEvent 1539 ex_button_noisy))
  = JoyMap._convert_event (ArgDict [(PStr "joy", PInt 2); (PStr "button", PInt 1)]).
Proof.
  apply (convert_event_noise_insensitive
           (ArgEvent (mkEvent 1539 ex_button_noisy))
           (ArgDict [(PStr "joy", PInt 2); (PStr "button", PInt 1)])
           ex_button_noisy [(PStr "joy", PInt 2); (PStr "button", PInt 1)]);
    reflexivity.
Defined.

(** ** The joystick table: invariant, removal, merge *)

Lemma joy_table_ok_nil : joy_table_ok [].
Proof. split; constructor. Qed.

Lemma generate_bind_ok (t : JoyMap.JoyMap) (b : string) (d : option pydict) :
  joy_table_ok t -> joy_table_ok (JoyMap.generate_bind t b d).
Proof.
  intros [Huk Hnd]. unfold JoyMap.generate_bind, JoyMap.get_bound_joystick_event.
  destruct (JoyMap.bound_slot b (JoyMap._joy_binds t)) as [[p |] |] eqn:Hb;
    try (split; assumption).
  apply bound_slot_None in Hb. split.
  - apply unique_keys_setdefault_append, Huk.
  - apply all_binds_setdefault_append_NoDup; assumption.
Qed.

Lemma merge_ok (t other : JoyMap.JoyMap) :
  joy_table_ok t -> joy_table_ok (JoyMap.merge t other).
Proof.
  intros Hok. rewrite merge_replay.
  apply (replay_fold (replay other) t Hok).
Qed.

(** Every table the operations build satisfies the invariant, and has no
    empty slot. *)
Lemma built_ok (t : JoyMap.JoyMap) : built t -> joy_table_ok t.
Proof.
  induction 1 as [| t b d _ IH | t b d _ IH | t b _ IH | t other _ IH _ _].
  - apply joy_table_ok_nil.
  - apply generate_bind_ok, IH.
  - apply rebind_ok, IH.
  - destruct IH as [Huk Hnd].
    split; [apply remove_bind_unique_keys | apply remove_bind_NoDup]; assumption.
  - apply merge_ok, IH.
Qed.

(** C8: [generate_bind], [rebind], [remove_bind] and [merge] keep the
    joystick table free of duplicates: a table in which no bind name occurs
    twice, within a list or across lists, is turned into such a table
    (whatever the other table of a merge holds). *)
Theorem joy_table_invariant_preserved
    (t other : JoyMap.JoyMap) (b : string) (d : option pydict) :
  unique_keys t -> NoDup (all_binds t) ->
  (unique_keys (JoyMap.generate_bind t b d)
   /\ NoDup (all_binds (JoyMap.generate_bind t b d))) /\
  (unique_keys (JoyMap.rebind t b d)
   /\ NoDup (all_binds (JoyMap.rebind t b d))) /\
  (unique_keys (JoyMap.remove_bind t b)
   /\ NoDup (all_binds (JoyMap.remove_bind t b))) /\
  (unique_keys (JoyMap.merge t other)
   /\ NoDup (all_binds (JoyMap.merge t other))).
Proof.
  intros Huk Hnd.
  assert (Hok : joy_table_ok t) by (split; assumption).
  split; [| split; [| split]].
  - apply generate_bind_ok, Hok.
  - apply rebind_ok, Hok.
  - split; [apply remove_bind_unique_keys | apply remove_bind_NoDup]; assumption.
  - apply merge_ok, Hok.
Qed.

Ltac distinct :=
  repeat constructor; simpl; intuition discriminate.

Lemma ex_two_binds_ok : joy_table_ok ex_two_binds.
Proof. split; vm_compute; distinct. Qed.

Lemma joy_table_invariant_preserved_witness :
  NoDup (all_binds (JoyMap.merge ex_two_binds ex_fire_table)).
Proof.
  apply (joy_table_invariant_preserved ex_two_binds ex_fire_table "jump" None);
    apply ex_two_binds_ok.
Defined.

Lemma get_bound_of_slot (t t' : JoyMap.JoyMap) (b b' : string) :
  JoyMap.bound_slot b t = JoyMap.bound_slot b' t' ->
  JoyMap.get_bound_joystick_event t b = JoyMap.get_bound_joystick_event t' b'.
Proof.
  unfold JoyMap.get_bound_joystick_event, JoyMap._joy_binds.
  intros ->. reflexivity.
Qed.

(** C9: after [remove_bind(b)] the look-up of [b] raises, every other bind
    name is bound as before, and no slot is left with an empty list: under
    each key stays its list without [b], if that is not empty.  The same
    holds of the key table. *)
Theorem remove_bind_forgets_only_that_bind
    (t : JoyMap.JoyMap) (km : KeyMap.KeyMap) (b : string) :
  unique_keys t -> NoDup (all_binds t) ->
  (JoyMap.get_bound_joystick_event (JoyMap.remove_bind t b) b = Raise ValueError
   /\ (forall c, c <> b ->
       JoyMap.get_bound_joystick_event (JoyMap.remove_bind t b) c
       = JoyMap.get_bound_joystick_event t c)
   /\ no_empty_slot (JoyMap.remove_bind t b)
   /\ (forall k,
       dget k (JoyMap.remove_bind t b)
       = match dget k t with
         | Some l => match strip b l with [] => None | l' => Some l' end
         | None => None
         end)) /\
  (KeyMap.get_bound_key (KeyMap.remove_bind km b) b = Raise ValueError
   /\ (forall c, c <> b ->
       KeyMap.get_bound_key (KeyMap.remove_bind km b) c
       = KeyMap.get_bound_key km c)
   /\ no_empty_slot (KeyMap.remove_bind km b)).
Proof.
  intros Huk Hnd. split; [split; [| split; [| split]] | split; [| split]].
  - unfold JoyMap.get_bound_joystick_event, JoyMap._joy_binds.
    assert (Hb : JoyMap.bound_slot b (JoyMap.remove_bind t b) = None)
      by (apply bound_slot_None, remove_bind_gone; assumption).
    rewrite Hb. reflexivity.
  - intros c Hne. apply get_bound_of_slot, remove_bind_bound_other; assumption.
  - apply remove_bind_no_empty_slot, Huk.
  - intros k. apply remove_bind_dget, Huk.
  - unfold KeyMap.get_bound_key, KeyMap.key_binds.
    rewrite key_remove_bind_same. reflexivity.
  - intros c Hne. unfold KeyMap.get_bound_key, KeyMap.key_binds.
    rewrite key_remove_bind_other by exact Hne. reflexivity.
  - apply key_remove_bind_no_empty_slot.
Qed.

Lemma remove_bind_forgets_only_that_bind_witness :
  JoyMap.get_bound_joystick_event (JoyMap.remove_bind ex_two_binds "fire") "fire"
  = Raise ValueError.
Proof.
  apply (remove_bind_forgets_only_that_bind ex_two_binds [] "fire");
    apply ex_two_binds_ok.
Defined.

(** C6: after [A.merge(B)] every bind name of [B] is bound in [A] as it was
    in [B] and every bind name of [A] alone is bound as before; the names
    are those of [A] and of [B]; so {x: K1, y: K2} merged with
    {y: K3, z: K4} binds x to K1, y to K3 and z to K4.  The key table
    merges the same way. *)
Theorem merge_latter_wins (A B : JoyMap.JoyMap) (KA KB : KeyMap.KeyMap) :
  joy_table_ok A -> joy_table_ok B -> NoDup (key_names KB) ->
  (forall b, In b (all_binds B) ->
     JoyMap.get_bound_joystick_event (JoyMap.merge A B) b
     = JoyMap.get_bound_joystick_event B b) /\
  (forall b, ~ In b (all_binds B) ->
     JoyMap.get_bound_joystick_event (JoyMap.merge A B) b
     = JoyMap.get_bound_joystick_event A b) /\
  (forall b, In b (all_binds (JoyMap.merge A B))
     <-> In b (all_binds A) \/ In b (all_binds B)) /\
  (forall K1 K2 K3 K4,
     let M := JoyMap.merge (two_binds "x" K1 "y" K2) (two_binds "y" K3 "z" K4) in
     JoyMap.bound_slot "x" M = Some K1 /\
     JoyMap.bound_slot "y" M = Some K3 /\
     JoyMap.bound_slot "z" M = Some K4 /\
     (forall b, In b (all_binds M) <-> b = "x" \/ b = "y" \/ b = "z")) /\
  (forall b, In b (key_names KB) ->
     KeyMap.get_bound_key (KeyMap.merge KA KB) b = KeyMap.get_bound_key KB b) /\
  (forall b, ~ In b (key_names KB) ->
     KeyMap.get_bound_key (KeyMap.merge KA KB) b = KeyMap.get_bound_key KA b).
Proof.
  assert (Hgen : forall A B, joy_table_ok A -> joy_table_ok B ->
    (forall b, In b (all_binds B) ->
       JoyMap.bound_slot b (JoyMap.merge A B) = JoyMap.bound_slot b B) /\
    (forall b, ~ In b (all_binds B) ->
       JoyMap.bound_slot b (JoyMap.merge A B) = JoyMap.bound_slot b A) /\
    (forall b, In b (all_binds (JoyMap.merge A B))
       <-> In b (all_binds A) \/ In b (all_binds B))).
  { clear A B. intros A B HA [HBk HBn]. rewrite merge_replay.
    destruct (replay_fold (replay B) A HA) as [_ [Hin [Hother Hsame]]].
    rewrite replay_names in Hin, Hother, Hsame.
    split; [| split].
    - intros b Hb. destruct (JoyMap.bound_slot b B) as [k |] eqn:Hslot.
      + apply (Hsame HBn). apply replay_In.
        apply bound_slot_In. exact Hslot.
      + apply bound_slot_None in Hslot. tauto.
    - exact Hother.
    - intros b. rewrite Hin. tauto. }
  intros HA HB HKB. destruct (Hgen A B HA HB) as [H1 [H2 H3]].
  split; [| split; [| split; [| split]]].
  - intros b Hb. apply get_bound_of_slot, H1, Hb.
  - intros b Hb. apply get_bound_of_slot, H2, Hb.
  - exact H3.
  - intros K1 K2 K3 K4 M. unfold M, two_binds.
    assert (Hx : joy_table_ok (JoyMap._rebind [] "x" K1))
      by apply rebind_ok, joy_table_ok_nil.
    assert (Hy : joy_table_ok (JoyMap._rebind [] "y" K3))
      by apply rebind_ok, joy_table_ok_nil.
    pose proof (rebind_ok _ "y" K2 Hx) as Hxy.
    pose proof (rebind_ok _ "z" K4 Hy) as Hyz.
    destruct (Hgen _ _ Hxy Hyz) as [G1 [G2 G3]].
    assert (HinB : forall b,
      In b (all_binds (JoyMap._rebind (JoyMap._rebind [] "y" K3) "z" K4))
      <-> b = "y" \/ b = "z").
    { intros b. rewrite (rebind_In _ "z" b K4 Hy).
      rewrite (rebind_In _ "y" b K3 joy_table_ok_nil). simpl. tauto. }
    assert (HinA : forall b,
      In b (all_binds (JoyMap._rebind (JoyMap._rebind [] "x" K1) "y" K2))
      <-> b = "x" \/ b = "y").
    { intros b. rewrite (rebind_In _ "y" b K2 Hx).
      rewrite (rebind_In _ "x" b K1 joy_table_ok_nil). simpl. tauto. }
    split; [| split; [| split]].
    + rewrite G2 by (rewrite HinB; intros [H | H]; discriminate).
      rewrite rebind_bound_other; [| apply Hx | discriminate].
      apply rebind_bound_same, joy_table_ok_nil.
    + rewrite G1 by (apply HinB; tauto).
      rewrite rebind_bound_other; [| apply Hy | discriminate].
      apply rebind_bound_same, joy_table_ok_nil.
    + rewrite G1 by (apply HinB; tauto).
      apply rebind_bound_same, Hy.
    + intros b. rewrite G3, HinA, HinB. tauto.
  - apply (key_merge_latter_wins KA KB HKB).
Qed.

Lemma ex_fire_table_ok : joy_table_ok ex_fire_table.
Proof. split; vm_compute; distinct. Qed.

Lemma merge_latter_wins_witness :
  JoyMap.get_bound_joystick_event (JoyMap.merge ex_two_binds ex_fire_table) "fire"
  = JoyMap.get_bound_joystick_event ex_fire_table "fire".
Proof.
  apply (merge_latter_wins ex_two_binds ex_fire_table [] []
           ex_two_binds_ok ex_fire_table_ok (NoDup_nil string)).
  vm_compute. tauto.
Defined.

(** ** Rebinding through the listener *)

Section RebindFacts.
Import KeyListener.

Lemma rebind_dispatch (t : Tables) (name : string) (args : list arg)
    (kwds : rebind_kwds) :
  rebind t name args kwds
  = if on_joystick_table args kwds
    then _rebind_joystick t name (first_trigger args kwds)
    else _rebind_key t name (first_trigger args kwds)
           (match args with
            | _ :: a1 :: _ => a1
            | _ => opt_arg (kw_new_mod kwds)
            end).
Proof. reflexivity. Qed.

Lemma joy_rebind_trigger (jm : JoyMap.JoyMap) (name : string) (T : option pydict) :
  joy_rebind jm name (joy_arg T)
  = Ok (JoyMap._rebind jm name (option_map drop_noise T)).
Proof.
  destruct T as [d |]; simpl; [| reflexivity].
  rewrite convert_items_drop_noise. reflexivity.
Qed.

Lemma opt_int_int_arg (k : option Z) : opt_int (int_arg k) = k.
Proof. destruct k; reflexivity. Qed.

(** C5, as stated, fails on the joystick table: a trigger that carries a
    noise attribute is not what the look-up hands back. *)
Lemma rebind_lookup_drops_noise :
  exists t',
    rebind ex_tables "fire" [ADict ex_button_noisy] no_kwds
    = Ok (RJoy ex_button, t', []) /\
    JoyMap.get_bound_joystick_event (joy_map t') "fire"
    = Ok (Some [(PStr "button", PInt 1)]) /\
    ~ same_mapping [(PStr "button", PInt 1)] ex_button_noisy.
Proof.
  eexists. split; [vm_compute; reflexivity |]. split; [vm_compute; reflexivity |].
  intros Hsame. specialize (Hsame (PStr "instance_id")). vm_compute in Hsame.
  discriminate.
Qed.

(** C5, amended.  On the joystick table: [rebind(b, T)] with a dict [T]
    as positional trigger hands back the trigger bound before, and
    [get_bound_joystick_event(b)] then gives [T] without its attributes
    'value', 'instance_id' and 'joy' (so exactly [T] when it has none of
    them).  On the key table: [rebind(b, K)] and [rebind(b, K, M)] with a
    positional key [K], an int or [None], and no [new_joystick_data] keyword
    that is true, hand back the key and modifier bound before, and
    [get_bound_key(b)] then gives exactly [(K, M)], [M] being the keyword
    [new_mod], or [None], when it is not positional.  A positional [None]
    is a key: on a name that the key table does not hold the call logs a
    warning, hands back [None] and changes neither table, so a joystick
    bind is not unbound that way.  On the joystick table itself,
    [JoyMap.rebind(b, T)] is followed by a look-up that gives [T] without
    the three attributes, and [None] for [T = None]. *)
Theorem rebind_returns_previous_then_lookup (t : Tables) (b : string) :
  (forall d rest kwds old,
     joy_table_ok (joy_map t) -> unique_keys d ->
     JoyMap.get_bound_joystick_event (joy_map t) b = Ok old ->
     exists t',
       rebind t b (ADict d :: rest) kwds = Ok (joy_rebound old, t', []) /\
       JoyMap.get_bound_joystick_event (joy_map t') b = Ok (Some (drop_noise d)) /\
       (drop_noise d = d ->
        JoyMap.get_bound_joystick_event (joy_map t') b = Ok (Some d))) /\
  (forall k m rest kwds old,
     truthy (opt_arg (kw_new_joystick_data kwds)) = false ->
     KeyMap.get_bound_key (key_map t) b = Ok old ->
     exists t',
       rebind t b (int_arg k :: int_arg m :: rest) kwds = Ok (RKey old, t', []) /\
       KeyMap.get_bound_key (key_map t') b = Ok (k, m)) /\
  (forall k kwds old,
     truthy (opt_arg (kw_new_joystick_data kwds)) = false ->
     KeyMap.get_bound_key (key_map t) b = Ok old ->
     exists t',
       rebind t b [int_arg k] kwds = Ok (RKey old, t', []) /\
       KeyMap.get_bound_key (key_map t') b
       = Ok (k, opt_int (opt_arg (kw_new_mod kwds)))) /\
  (forall rest kwds e,
     truthy (opt_arg (kw_new_joystick_data kwds)) = false ->
     KeyMap.get_bound_key (key_map t) b = Raise e ->
     rebind t b (AVal PNone :: rest) kwds = Ok (RNone, t, [Warning])) /\
  (joy_table_ok (joy_map t) ->
   (forall d, unique_keys d ->
      JoyMap.get_bound_joystick_event (JoyMap.rebind (joy_map t) b (Some d)) b
      = Ok (Some (drop_noise d))) /\
   JoyMap.get_bound_joystick_event (JoyMap.rebind (joy_map t) b None) b
   = Ok None).
Proof.
  assert (Hjoy : forall d, joy_table_ok (joy_map t) -> unique_keys d ->
            JoyMap.get_bound_joystick_event
              (JoyMap._rebind (joy_map t) b (Some (drop_noise d))) b
            = Ok (Some (drop_noise d))).
  { intros d Hok Hd.
    unfold JoyMap.get_bound_joystick_event, JoyMap._joy_binds.
    rewrite rebind_bound_same by exact Hok.
    rewrite convert_pairs_unique by (apply drop_noise_unique_keys, Hd).
    reflexivity. }
  assert (Hkey : forall k m args kwds old,
            on_joystick_table args kwds = false ->
            first_trigger args kwds = int_arg k ->
            match args with
            | _ :: a1 :: _ => a1
            | _ => opt_arg (kw_new_mod kwds)
            end = m ->
            KeyMap.get_bound_key (key_map t) b = Ok old ->
            exists t',
              rebind t b args kwds = Ok (RKey old, t', []) /\
              KeyMap.get_bound_key (key_map t') b = Ok (k, opt_int m)).
  { intros k m args kwds old Hj Hfirst Hmod Hold.
    rewrite rebind_dispatch, Hj, Hfirst, Hmod. unfold _rebind_key. rewrite Hold.
    eexists. split; [reflexivity |]. simpl.
    unfold KeyMap.get_bound_key, KeyMap.key_binds.
    rewrite opt_int_int_arg.
    pose proof (key_rebind_same (key_map t) (KeyMap.mkKeyBind b (opt_int m)) k)
      as Hs.
    simpl in Hs. rewrite Hs. reflexivity. }
  split; [| split; [| split; [| split]]].
  - intros d rest kwds old Hok Hd Hold.
    rewrite rebind_dispatch.
    assert (Hj : on_joystick_table (ADict d :: rest) kwds = true).
    { unfold on_joystick_table. simpl. apply orb_true_r. }
    rewrite Hj. unfold _rebind_joystick. rewrite Hold.
    change (first_trigger (ADict d :: rest) kwds) with (joy_arg (Some d)).
    rewrite joy_rebind_trigger. simpl.
    eexists. split; [reflexivity |]. simpl.
    split; [exact (Hjoy d Hok Hd) |].
    intros Hid. rewrite (Hjoy d Hok Hd), Hid. reflexivity.
  - intros k m rest kwds old Hkw Hold.
    destruct (Hkey k (int_arg m) (int_arg k :: int_arg m :: rest) kwds old)
      as [t' [H1 H2]]; try reflexivity; try exact Hold.
    + unfold on_joystick_table. rewrite Hkw. destruct k; reflexivity.
    + exists t'. rewrite opt_int_int_arg in H2. split; assumption.
  - intros k kwds old Hkw Hold.
    apply (Hkey k (opt_arg (kw_new_mod kwds)) [int_arg k] kwds old);
      try reflexivity; try exact Hold.
    unfold on_joystick_table. rewrite Hkw. destruct k; reflexivity.
  - intros rest kwds e Hkw He. rewrite rebind_dispatch.
    assert (Hj : on_joystick_table (AVal PNone :: rest) kwds = false).
    { unfold on_joystick_table. rewrite Hkw. reflexivity. }
    rewrite Hj. unfold _rebind_key. rewrite He. reflexivity.
  - intros Hok. split.
    + intros d Hd. unfold JoyMap.rebind. rewrite convert_items_drop_noise.
      apply (Hjoy d Hok Hd).
    + unfold JoyMap.rebind, JoyMap.get_bound_joystick_event, JoyMap._joy_binds.
      rewrite rebind_bound_same by exact Hok. reflexivity.
Qed.

Lemma rebind_returns_previous_then_lookup_witness :
  (exists t',
     rebind ex_tables "fire" [ADict ex_button_noisy] no_kwds
     = Ok (RJoy ex_button, t', []) /\
     JoyMap.get_bound_joystick_event (joy_map t') "fire"
     = Ok (Some [(PStr "button", PInt 1)])) /\
  (exists t',
     rebind ex_tables "jump" [AVal (PInt 13); AVal (PInt 64)] no_kwds
     = Ok (RKey (Some 32, None), t', []) /\
     KeyMap.get_bound_key (key_map t') "jump" = Ok (Some 13, Some 64)) /\
  (exists t',
     rebind ex_tables "jump" [AVal (PInt 13)] no_kwds
     = Ok (RKey (Some 32, None), t', []) /\
     KeyMap.get_bound_key (key_map t') "jump" = Ok (Some 13, None)) /\
  rebind ex_tables "fire" [AVal PNone] no_kwds = Ok (RNone, ex_tables, [Warning]) /\
  JoyMap.get_bound_joystick_event
    (JoyMap.rebind (joy_map ex_tables) "fire" None) "fire"
  = Ok None.
Proof.
  destruct (rebind_returns_previous_then_lookup ex_tables "fire")
    as [HJ [_ [_ [HN HT]]]].
  destruct (rebind_returns_previous_then_lookup ex_tables "jump")
    as [_ [HK2 [HK1 _]]].
  split; [| split; [| split; [| split]]].
  - destruct (HJ ex_button_noisy [] no_kwds (Some ex_button))
      as [t' [H1 [H2 _]]].
    + apply ex_two_binds_ok.
    + vm_compute. distinct.
    + reflexivity.
    + exists t'. split; [exact H1 | exact H2].
  - destruct (HK2 (Some 13) (Some 64) [] no_kwds (Some 32, None))
      as [t' [H1 H2]].
    + reflexivity.
    + reflexivity.
    + exists t'. split; [exact H1 | exact H2].
  - destruct (HK1 (Some 13) no_kwds (Some 32, None)) as [t' [H1 H2]].
    + reflexivity.
    + reflexivity.
    + exists t'. split; [exact H1 | exact H2].
  - apply (HN [] no_kwds ValueError); reflexivity.
  - apply (proj2 (HT ex_two_binds_ok)).
Defined.

(** The keyword form: [new_bind] is read from [new_key], so a rebind that
    passes the dict as [new_joystick_data] leaves the bind unbound. *)
Lemma rebind_keyword_joystick_unbinds :
  exists t',
    rebind ex_tables "fire" []
      (mkRebindKwds None None (Some (ADict ex_hat_button)))
    = Ok (RJoy ex_button, t', []) /\
    JoyMap.get_bound_joystick_event (joy_map t') "fire" = Ok None.
Proof. eexists. split; vm_compute; reflexivity. Qed.

(** C7: a rebind that names a bind the addressed table does not hold raises
    nothing, logs one warning, hands back [None] and leaves both tables as
    they were; one that names a bind the table holds hands back the trigger
    bound before (the trigger passed being a dict or [None] where the
    joystick table is addressed). *)
Theorem rebind_unknown_warns_known_returns_previous
    (t : Tables) (name : string) (args : list arg) (kwds : rebind_kwds) :
  (on_joystick_table args kwds = true ->
   forall e, JoyMap.get_bound_joystick_event (joy_map t) name = Raise e ->
   rebind t name args kwds = Ok (RNone, t, [Warning])) /\
  (on_joystick_table args kwds = false ->
   forall e, KeyMap.get_bound_key (key_map t) name = Raise e ->
   rebind t name args kwds = Ok (RNone, t, [Warning])) /\
  (on_joystick_table args kwds = true ->
   forall old T, JoyMap.get_bound_joystick_event (joy_map t) name = Ok old ->
   first_trigger args kwds = joy_arg T ->
   exists jm',
     rebind t name args kwds
     = Ok (joy_rebound old, mkTables (key_map t) jm', [])) /\
  (on_joystick_table args kwds = false ->
   forall old, KeyMap.get_bound_key (key_map t) name = Ok old ->
   exists km',
     rebind t name args kwds = Ok (RKey old, mkTables km' (joy_map t), [])).
Proof.
  rewrite rebind_dispatch. split; [| split; [| split]].
  - intros -> e He. unfold _rebind_joystick. rewrite He. reflexivity.
  - intros -> e He. unfold _rebind_key. rewrite He. reflexivity.
  - intros -> old T Hold HT. unfold _rebind_joystick. rewrite Hold, HT.
    rewrite joy_rebind_trigger. simpl. eexists. reflexivity.
  - intros -> old Hold. unfold _rebind_key. rewrite Hold.
    eexists. reflexivity.
Qed.

Lemma rebind_unknown_warns_known_returns_previous_witness :
  rebind ex_tables "dash" [ADict ex_button] no_kwds = Ok (RNone, ex_tables, [Warning]) /\
  rebind ex_tables "dash" [AVal (PInt 13)] no_kwds = Ok (RNone, ex_tables, [Warning]) /\
  (exists jm',
     rebind ex_tables "fire" [ADict ex_hat_button] no_kwds
     = Ok (RJoy ex_button, mkTables (key_map ex_tables) jm', [])) /\
  (exists km',
     rebind ex_tables "jump" [AVal (PInt 13)] no_kwds
     = Ok (RKey (Some 32, None), mkTables km' (joy_map ex_tables), [])).
Proof.
  split; [| split; [| split]].
  - destruct (rebind_unknown_warns_known_returns_previous
                ex_tables "dash" [ADict ex_button] no_kwds) as [H _].
    apply (H eq_refl ValueError eq_refl).
  - destruct (rebind_unknown_warns_known_returns_previous
                ex_tables "dash" [AVal (PInt 13)] no_kwds) as [_ [H _]].
    apply (H eq_refl ValueError eq_refl).
  - destruct (rebind_unknown_warns_known_returns_previous
                ex_tables "fire" [ADict ex_hat_button] no_kwds) as [_ [_ [H _]]].
    apply (H eq_refl (Some ex_button) (Some ex_hat_button) eq_refl eq_refl).
  - destruct (rebind_unknown_warns_known_returns_previous
                ex_tables "jump" [AVal (PInt 13)] no_kwds) as [_ [_ [_ H]]].
    apply (H eq_refl (Some 32, None) eq_refl).
Defined.
End RebindFacts.

(** ** Event resolution *)

Section ResolutionFacts.
Import KeyListener.

Lemma land_nonzero_shares_bit (a b : Z) : Z.land a b <> 0 <-> shares_bit a b.
Proof.
  split.
  - intros Hne.
    assert (Hbit : exists i, 0 <= i /\ Z.testbit (Z.land a b) i = true).
    { destruct (Z.lt_trichotomy (Z.land a b) 0) as [Hneg | [H0 | Hpos]].
      - exists (Z.succ (Z.log2 (Z.abs (Z.land a b)))). split.
        + pose proof (Z.log2_nonneg (Z.abs (Z.land a b))). lia.
        + apply Z.bits_iff_neg; [lia | exact Hneg].
      - contradiction.
      - exists (Z.log2 (Z.land a b)). split.
        + apply Z.log2_nonneg.
        + apply Z.bit_log2. exact Hpos. }
    destruct Hbit as [i [Hi Ht]]. rewrite Z.land_spec in Ht.
    apply andb_true_iff in Ht. exists i. tauto.
  - intros [i [Hi [Ha Hb]]] H0.
    assert (Ht : Z.testbit (Z.land a b) i = true)
      by (rewrite Z.land_spec, Ha, Hb; reflexivity).
    rewrite H0, Z.bits_0 in Ht. discriminate.
Qed.

Lemma cpython_is_sound (a b : Z) : cpython_is a b = true -> a = b.
Proof.
  unfold cpython_is. intros H.
  apply andb_true_iff in H. destruct H as [H _].
  apply andb_true_iff in H. destruct H as [H _].
  apply Z.eqb_eq, H.
Qed.

Section AnyIdentity.
Variable int_is : Z -> Z -> bool.
Hypothesis int_is_sound : forall a b, int_is a b = true -> a = b.
Hypothesis int_is_zero : int_is 0 0 = true.

(** The identity test only matters at zero: next to [mod & mod_keys] it
    amounts to equality. *)
Lemma modifier_test (m M : Z) :
  negb (Z.land m M =? 0) || int_is m M = negb (Z.land m M =? 0) || (m =? M).
Proof.
  destruct (Z.land m M =? 0) eqn:Hland; simpl; [| reflexivity].
  apply Z.eqb_eq in Hland.
  destruct (m =? M) eqn:Heq.
  - apply Z.eqb_eq in Heq. subst M. rewrite Z.land_diag in Hland. subst m.
    exact int_is_zero.
  - destruct (int_is m M) eqn:His; [| reflexivity].
    apply int_is_sound in His. apply Z.eqb_neq in Heq. contradiction.
Qed.

Lemma validate_input_keyed (key_bind : KeyMap.KeyBind) (event : Event) (K M : Z) :
  getattr event "key" = PInt K -> getattr event "mod" = PInt M ->
  _validate_input int_is key_bind event = Ok (modifier_ok M key_bind).
Proof.
  intros HK HM. unfold _validate_input, modifier_ok. rewrite HK, HM.
  destruct (KeyMap.mod_ key_bind) as [m |]; [| reflexivity].
  rewrite modifier_test. reflexivity.
Qed.

Lemma accepted_filter (event : Event) (K M : Z) (binds : list KeyMap.KeyBind) :
  getattr event "key" = PInt K -> getattr event "mod" = PInt M ->
  accepted int_is event binds = Ok (filter (modifier_ok M) binds).
Proof.
  intros HK HM. induction binds as [| kb r IH]; simpl; [reflexivity |].
  rewrite (validate_input_keyed kb event K M HK HM), IH. simpl.
  destruct (modifier_ok M kb); reflexivity.
Qed.
End AnyIdentity.

Lemma modifier_ok_rule (M : Z) (key_bind : KeyMap.KeyBind) :
  modifier_ok M key_bind = true
  <-> KeyMap.mod_ key_bind = None
      \/ exists m, KeyMap.mod_ key_bind = Some m /\ (shares_bit m M \/ m = M).
Proof.
  unfold modifier_ok. destruct (KeyMap.mod_ key_bind) as [m |].
  - rewrite orb_true_iff, negb_true_iff, Z.eqb_neq, Z.eqb_eq,
      land_nonzero_shares_bit.
    split.
    + intros H. right. exists m. tauto.
    + intros [H | [m' [Hm H]]]; [discriminate | inversion Hm; subst; exact H].
  - split; [tauto | reflexivity].
Qed.

Lemma shares_bit_zero (M : Z) : ~ shares_bit 0 M.
Proof. intros [i [_ [H _]]]. rewrite Z.bits_0 in H. discriminate. Qed.

(** C1: for an event with key code [K] and modifier mask [M], resolution
    goes through the binds stored under [K] and accepts a bind whose
    constraint is [None]; it accepts one with constraint [m] exactly when
    [m] and [M] share a set bit or [m = M], so [KMOD_NONE] matches exactly
    [M = 0]; it rejects it when they share no bit and differ. *)
Theorem validate_input_modifier_rule
    (int_is : Z -> Z -> bool) (t : Tables) (event : Event) (K M : Z)
    (key_bind : KeyMap.KeyBind) :
  (forall a b, int_is a b = true -> a = b) -> int_is 0 0 = true ->
  getattr event "key" = PInt K -> getattr event "mod" = PInt M ->
  In key_bind (key_slot (key_map t) (PInt K)) ->
  exists acc,
    accepted int_is event (key_slot (key_map t) (getattr event "key")) = Ok acc /\
    (_validate_input int_is key_bind event = Ok true <-> In key_bind acc) /\
    (KeyMap.mod_ key_bind = None -> In key_bind acc) /\
    (forall m, KeyMap.mod_ key_bind = Some m ->
       (In key_bind acc <-> shares_bit m M \/ m = M)) /\
    (KeyMap.mod_ key_bind = Some KMOD_NONE -> (In key_bind acc <-> M = 0)) /\
    (forall m, KeyMap.mod_ key_bind = Some m ->
       ~ shares_bit m M -> m <> M -> ~ In key_bind acc).
Proof.
  intros Hsound Hzero HK HM Hin.
  exists (filter (modifier_ok M) (key_slot (key_map t) (PInt K))).
  assert (Hacc : In key_bind (filter (modifier_ok M) (key_slot (key_map t) (PInt K)))
                 <-> modifier_ok M key_bind = true).
  { rewrite filter_In. tauto. }
  split; [| split; [| split; [| split; [| split]]]].
  - rewrite HK. apply (accepted_filter int_is Hsound Hzero event K M); assumption.
  - rewrite (validate_input_keyed int_is Hsound Hzero key_bind event K M HK HM).
    rewrite Hacc. split; [intros H; inversion H; reflexivity | intros ->; reflexivity].
  - intros Hnone. apply Hacc, modifier_ok_rule. tauto.
  - intros m Hm. rewrite Hacc, modifier_ok_rule. split.
    + intros [H | [m' [Hm' H]]]; [congruence |].
      rewrite Hm in Hm'. inversion Hm'; subst. exact H.
    + intros H. right. exists m. tauto.
  - intros Hm. rewrite Hacc, modifier_ok_rule. unfold KMOD_NONE in Hm. split.
    + intros [H | [m' [Hm' [H | H]]]]; [congruence | |].
      * rewrite Hm in Hm'. inversion Hm'; subst.
        exfalso. exact (shares_bit_zero M H).
      * rewrite Hm in Hm'. inversion Hm'; subst. reflexivity.
    + intros ->. right. exists 0. tauto.
  - intros m Hm Hshare Hne. rewrite Hacc, modifier_ok_rule.
    intros [H | [m' [Hm' H]]]; [congruence |].
    rewrite Hm in Hm'. inversion Hm'; subst. tauto.
Qed.

Lemma validate_input_modifier_rule_witness :
  exists acc,
    accepted cpython_is ex_shift_space
      (key_slot (key_map ex_space_table) (getattr ex_shift_space "key")) = Ok acc /\
    (In (KeyMap.mkKeyBind "run" (Some 65)) acc <-> shares_bit 65 1 \/ 65 = 1).
Proof.
  destruct (validate_input_modifier_rule cpython_is ex_space_table ex_shift_space
              32 1 (KeyMap.mkKeyBind "run" (Some 65)))
    as [acc [Hacc [_ [_ [Hrule _]]]]].
  - exact cpython_is_sound.
  - reflexivity.
  - reflexivity.
  - reflexivity.
  - simpl. tauto.
  - exists acc. split; [exact Hacc | apply Hrule; reflexivity].
Defined.

(** An event without a key reaches the slot of the unbound binds and
    accepts none of them. *)
Lemma unbound_never_accepted (int_is : Z -> Z -> bool) (event : Event)
    (binds : list KeyMap.KeyBind) :
  getattr event "key" = PNone -> accepted int_is event binds = Ok [].
Proof.
  intros HK. induction binds as [| kb r IH]; simpl; [reflexivity |].
  unfold _validate_input. rewrite HK. simpl. rewrite IH. reflexivity.
Qed.

(** The loops of [_get_callables] gather, in order, the hooks of the bind
    names the event resolves to. *)
Lemma fold_add_hooks (self : Listener) (event : Event) (binds : list string)
    (acc : hook_lists) :
  fold_left (fun a bind => add_hooks self event bind a) binds acc
  = mkHookLists
      (conc_funcs_lists acc
         ++ map (fun b => hooks_of (_key_hooks self) b true (type_ event)) binds)
      (seq_funcs_lists acc
         ++ map (fun b => hooks_of (_key_hooks self) b false (type_ event)) binds)
      (conc_methods_lists acc
         ++ map (fun b => hooks_of (_class_listeners self) b true (type_ event)) binds)
      (seq_methods_lists acc
         ++ map (fun b => hooks_of (_class_listeners self) b false (type_ event)) binds).
Proof.
  revert acc. induction binds as [| b r IH]; intros acc; simpl.
  - rewrite !app_nil_r. destruct acc; reflexivity.
  - rewrite IH. simpl. rewrite <- !app_assoc. reflexivity.
Qed.

Lemma key_loop_accepted (int_is : Z -> Z -> bool) (self : Listener)
    (event : Event) (binds : list KeyMap.KeyBind) (acc : hook_lists) :
  key_loop int_is self event binds acc
  = (a <- accepted int_is event binds ;;
     Ok (fold_left (fun a' bind => add_hooks self event bind a')
           (map KeyMap.bind_name a) acc)).
Proof.
  revert acc. induction binds as [| kb r IH]; intros acc; simpl; [reflexivity |].
  destruct (_validate_input int_is kb event) as [valid | e]; simpl; [| reflexivity].
  rewrite IH. destruct (accepted int_is event r) as [a | e]; simpl; [| reflexivity].
  destruct valid; reflexivity.
Qed.

Lemma get_callables_resolved (int_is : Z -> Z -> bool) (t : Tables)
    (self : Listener) (event : Event) :
  _get_callables int_is t self event
  = (binds <- resolved_binds int_is t event ;;
     Ok (callables_of self event binds)).
Proof.
  unfold _get_callables, resolved_binds. rewrite key_loop_accepted.
  destruct (accepted int_is event (key_slot (key_map t) (getattr event "key")))
    as [a | e]; cbn [rbind]; [| reflexivity].
  unfold JoyMap.get, JoyMap._convert_event. cbn [rbind].
  rewrite <- fold_left_app, fold_add_hooks. simpl.
  unfold callables_of. rewrite !flat_map_concat_map. reflexivity.
Qed.
End ResolutionFacts.

(** ** Clearing a bind *)

Section ClearFacts.
Import KeyListener.

Lemma hooks_of_cleared {A : Type} (index : hook_index A) (b : string)
    (c : bool) (e : Z) :
  hooks_of (dset b [] index) b c e = [].
Proof. unfold hooks_of. rewrite dget_dset_same. reflexivity. Qed.

(** Without elimination the tables stay and the bind has no hooks left, in
    either index. *)
Lemma clear_bind_keeps_trigger (t : Tables) (self : Listener) (b : string) :
  let '(t', self', _) := clear_bind t self b false in
  t' = t /\
  forall c e,
    hooks_of (_key_hooks self') b c e = [] /\
    hooks_of (_class_listeners self') b c e = [].
Proof.
  unfold clear_bind.
  destruct (dget b (_key_hooks self)) as [[| x l] |] eqn:Hk;
    destruct (dget b (_class_listeners self)) as [[| y m] |] eqn:Hc;
    simpl; (split; [reflexivity |]); intros c e;
    rewrite ?hooks_of_cleared; unfold hooks_of; rewrite ?Hk, ?Hc; tauto.
Qed.

(** A name with no entry in either index: one warning, nothing changes. *)
Lemma clear_bind_unknown (t : Tables) (self : Listener) (b : string)
    (eliminate_bind : bool) :
  dget b (_key_hooks self) = None -> dget b (_class_listeners self) = None ->
  clear_bind t self b eliminate_bind = (t, self, [Warning]).
Proof.
  intros Hk Hc. unfold clear_bind. rewrite Hk, Hc.
  destruct eliminate_bind; reflexivity.
Qed.

(** With elimination, a bind that has function hooks leaves both tables and
    the function index. *)
Lemma clear_bind_eliminates_function_bind (t : Tables) (self : Listener)
    (b : string) (hooks : dict bool (dict Z (list Callable))) :
  joy_table_ok (joy_map t) -> unique_keys (_key_hooks self) ->
  dget b (_key_hooks self) = Some hooks ->
  let '(t', self', log) := clear_bind t self b true in
  KeyMap.get_bound_key (key_map t') b = Raise ValueError /\
  JoyMap.get_bound_joystick_event (joy_map t') b = Raise ValueError /\
  dget b (_key_hooks self') = None /\
  log = [].
Proof.
  intros [Huk Hnd] Hkh Hk. unfold clear_bind. rewrite Hk. simpl.
  split; [| split; [| split]].
  - unfold KeyMap.get_bound_key, KeyMap.key_binds.
    rewrite key_remove_bind_same. reflexivity.
  - unfold JoyMap.get_bound_joystick_event, JoyMap._joy_binds.
    assert (Hb : JoyMap.bound_slot b (JoyMap.remove_bind (joy_map t) b) = None)
      by (apply bound_slot_None, remove_bind_gone; assumption).
    rewrite Hb. reflexivity.
  - apply dget_dpop_same, Hkh.
  - reflexivity.
Qed.

(** C3, where the code departs from it: a bind that only a class method is
    registered under is in the key table and resolves to that method, yet
    [clear_bind] with [eliminate_bind=True] looks in the function index
    alone, warns that the bind does not exist and removes nothing, while
    with [eliminate_bind=False] both indexes are looked at and the method is
    cleared. *)
Theorem clear_bind_eliminate_skips_method_binds :
  let '(t, self) := ex_method_bound in
  KeyMap.get_bound_key (key_map t) "jump" = Ok (Some 32, None) /\
  _get_callables cpython_is t self ex_space
  = Ok (mkCallableSets [] [] [(ex_on_jump, "Player")] []) /\
  clear_bind t self "jump" true = (t, self, [Warning]) /\
  (let '(t', self', _) := clear_bind t self "jump" true in
   _get_callables cpython_is t' self' ex_space
   = Ok (mkCallableSets [] [] [(ex_on_jump, "Player")] [])) /\
  (let '(t', self', log) := clear_bind t self "jump" false in
   t' = t /\ log = [Info] /\
   _get_callables cpython_is t' self' ex_space = Ok (mkCallableSets [] [] [] [])).
Proof. vm_compute. repeat split; reflexivity. Qed.
End ClearFacts.

(** ** Persistence *)

Section PersistenceFacts.
Import JSONParser.

(** C4, where the code departs from it: a joystick bind that is declared
    but unbound is saved as [null], and [_unpack_joystick] iterates over it
    without the test for [None] that [_unpack_keys] makes, so the load
    raises [TypeError]; the same table without that bind loads back. *)
Theorem load_after_save_unbound_joystick_raises
    (key_name : Z -> string) (key_code : string -> result Z) :
  JoyMap.get_bound_joystick_event ex_two_binds "jump" = Ok None /\
  doc_controller (save key_name [] ex_two_binds)
  = Some [("fire", JArr [JArr [JStr "button"; JNum 0]]); ("jump", JNull)] /\
  load key_code (save key_name [] ex_two_binds) = Raise TypeError /\
  load key_code (save key_name [] (JoyMap.remove_bind ex_two_binds "jump"))
  = Ok ([], JoyMap.remove_bind ex_two_binds "jump") /\
  _unpack_keys key_code [("jump", JArr [JNull; JNull])]
  = Ok [(None, [KeyMap.mkKeyBind "jump" None])].
Proof. repeat split; reflexivity. Qed.
End PersistenceFacts.

(** ** Class attributes and instance attributes *)

Section ProcessFacts.
Import KeyListener.


(** The trigger "menu" created is the one "game" gets: its own default key
    is not taken, the space bar resolves to its handler and to no handler of
    "menu"; once "menu" rebinds "jump" to the return key, the space bar
    resolves to nothing for "game". *)
Lemma listeners_share_the_trigger :
  call ex_start "menu" ex_menu_binds = Ok ex_menu_bound /\
  call ex_menu_bound "game" ex_game_binds = Ok ex_two_listeners /\
  view ex_two_listeners "menu" = Some (tables ex_two_listeners, ex_menu) /\
  view ex_two_listeners "game" = Some (tables ex_two_listeners, ex_game) /\
  KeyMap.get_bound_key (key_map (tables ex_two_listeners)) "jump"
  = Ok (Some 32, None) /\
  _get_callables cpython_is (tables ex_two_listeners) ex_game ex_space
  = Ok (mkCallableSets [] [mkCallable "game_jump" true] [] []) /\
  _get_callables cpython_is (tables ex_two_listeners) ex_menu ex_space
  = Ok (mkCallableSets [] [mkCallable "menu_jump" true] [] []) /\
  exists p',
    call ex_two_listeners "menu" (CallRebind "jump" [AVal (PInt 13)] no_kwds)
    = Ok p' /\
    view p' "game" = Some (tables p', ex_game) /\
    _get_callables cpython_is (tables p') ex_game ex_space
    = Ok (mkCallableSets [] [] [] []).
Proof.
  repeat (split; [reflexivity |]).
  eexists. split; [vm_compute; reflexivity |]. split; reflexivity.
Qed.
End ProcessFacts.

(** ** Persistence of the joystick table in general *)

Section RoundTripFacts.
Import JSONParser.

Lemma hashed_dump_value (v : pyval) :
  hashed (dump_value v) = if scalar v then Ok v else Raise TypeError.
Proof. destruct v; reflexivity. Qed.

Lemma read_points (p : JoyMap.pattern) :
  mapM (fun data_point =>
          a <- getitem data_point 0 ;;
          b <- getitem data_point 1 ;;
          Ok (a, b))
    (map (fun kv => JArr [dump_value (fst kv); dump_value (snd kv)]) p)
  = Ok (map (fun kv => (dump_value (fst kv), dump_value (snd kv))) p).
Proof.
  induction p as [| [k v] r IH]; simpl; [reflexivity |].
  rewrite IH. reflexivity.
Qed.

Lemma hash_points (p : JoyMap.pattern) :
  mapM (fun ab => a <- hashed (fst ab) ;; b <- hashed (snd ab) ;; Ok (a, b))
    (map (fun kv => (dump_value (fst kv), dump_value (snd kv))) p)
  = if scalar_pairs p then Ok p else Raise TypeError.
Proof.
  induction p as [| [k v] r IH]; [reflexivity |].
  cbn [map mapM fst snd scalar_pairs forallb]. rewrite !hashed_dump_value.
  destruct (scalar k); cbn [rbind andb]; [| reflexivity].
  destruct (scalar v); cbn [rbind andb]; [| reflexivity].
  rewrite IH. fold (scalar_pairs r).
  destruct (scalar_pairs r); reflexivity.
Qed.

Lemma unpack_joystick_raised (maps : dict string jvalue) (e : exn) :
  fold_left
    (fun (acc : result JoyMap.JoyMap) (item : string * jvalue) =>
       unpacked_dict <- acc ;;
       let '(bind_name, joy_data) := item in
       data_points <- iterate joy_data ;;
       joy_data_points <-
         mapM (fun data_point =>
                 a <- getitem data_point 0 ;;
                 b <- getitem data_point 1 ;;
                 Ok (a, b)) data_points ;;
       fixed_joy_data <-
         mapM (fun ab => a <- hashed (fst ab) ;; b <- hashed (snd ab) ;; Ok (a, b))
           joy_data_points ;;
       Ok (setdefault_append (Some fixed_joy_data) bind_name unpacked_dict))
    maps (Raise e)
  = Raise e.
Proof. induction maps as [| [b j] r IH]; simpl; [reflexivity | exact IH]. Qed.

(** Reading back what was written for a list of packed binds: each bound
    one is appended under its pattern; the first one that is unbound, or
    whose pattern holds a tuple, raises. *)
Lemma unpack_joystick_dumped (packed : dict string (option JoyMap.pattern))
    (acc : JoyMap.JoyMap) :
  fold_left
    (fun (acc : result JoyMap.JoyMap) (item : string * jvalue) =>
       unpacked_dict <- acc ;;
       let '(bind_name, joy_data) := item in
       data_points <- iterate joy_data ;;
       joy_data_points <-
         mapM (fun data_point =>
                 a <- getitem data_point 0 ;;
                 b <- getitem data_point 1 ;;
                 Ok (a, b)) data_points ;;
       fixed_joy_data <-
         mapM (fun ab => a <- hashed (fst ab) ;; b <- hashed (snd ab) ;; Ok (a, b))
           joy_data_points ;;
       Ok (setdefault_append (Some fixed_joy_data) bind_name unpacked_dict))
    (map (fun e => (fst e, dump_joy_data (snd e))) packed) (Ok acc)
  = if forallb (fun e => reads_back (snd e)) packed
    then Ok (fold_left (fun t e => setdefault_append (snd e) (fst e) t) packed acc)
    else Raise TypeError.
Proof.
  revert acc. induction packed as [| [b [p |]] r IH]; intros acc.
  - reflexivity.
  - cbn [map fold_left fst snd forallb dump_joy_data rbind iterate reads_back].
    rewrite read_points. cbn [rbind]. rewrite hash_points.
    destruct (scalar_pairs p); cbn [rbind andb].
    + apply IH.
    + apply unpack_joystick_raised.
  - cbn [map fold_left fst snd forallb andb dump_joy_data rbind iterate reads_back].
    apply unpack_joystick_raised.
Qed.

Lemma pack_binds_replay (jm : JoyMap.JoyMap) :
  JoyMap.pack_binds jm
  = fold_left (fun p kb => dset (snd kb) (fst kb) p) (replay jm) [].
Proof.
  unfold JoyMap.pack_binds, replay, JoyMap._joy_binds.
  generalize (@nil (string * option JoyMap.pattern)).
  induction jm as [| [k l] r IH]; intros acc; simpl; [reflexivity |].
  rewrite fold_left_app, IH. f_equal.
  clear IH. revert acc. induction l as [| b l IHl]; intros acc; simpl;
    [reflexivity | apply IHl].
Qed.

Lemma fold_dset_fresh (steps : list (option JoyMap.pattern * string))
    (acc : dict string (option JoyMap.pattern)) :
  NoDup (keys acc ++ map snd steps) ->
  fold_left (fun p kb => dset (snd kb) (fst kb) p) steps acc
  = acc ++ map (fun kb => (snd kb, fst kb)) steps.
Proof.
  revert acc. induction steps as [| [k b] r IH]; intros acc Hnd; simpl.
  - rewrite app_nil_r. reflexivity.
  - simpl in Hnd. rewrite dset_fresh.
    + rewrite IH.
      * rewrite <- app_assoc. reflexivity.
      * unfold keys in *. rewrite map_app. simpl. rewrite <- app_assoc. exact Hnd.
    + apply NoDup_remove_2 in Hnd. intros Hin. apply Hnd, in_or_app. tauto.
Qed.

(** Without duplicates the packed dictionary lists the binds in replay
    order, each with its slot. *)
Lemma pack_binds_entries (jm : JoyMap.JoyMap) :
  NoDup (all_binds jm) ->
  JoyMap.pack_binds jm = map (fun kb => (snd kb, fst kb)) (replay jm).
Proof.
  intros Hnd. rewrite pack_binds_replay.
  apply (fold_dset_fresh (replay jm) []). simpl. rewrite replay_names. exact Hnd.
Qed.

Lemma fold_append_bound (steps : list (option JoyMap.pattern * string))
    (t : JoyMap.JoyMap) :
  let t' := fold_left (fun s kb => setdefault_append (fst kb) (snd kb) s) steps t in
  (forall c, ~ In c (map snd steps) ->
     JoyMap.bound_slot c t' = JoyMap.bound_slot c t) /\
  (NoDup (map snd steps) ->
   (forall b, In b (map snd steps) -> ~ In b (all_binds t)) ->
   forall k b, In (k, b) steps -> JoyMap.bound_slot b t' = Some k).
Proof.
  revert t. induction steps as [| [k b] r IH]; intros t; simpl.
  - split; [reflexivity | tauto].
  - destruct (IH (setdefault_append k b t)) as [Hother Hsame]. split.
    + intros c Hnin. rewrite Hother by tauto.
      apply append_bound_other. intros ->. tauto.
    + intros Hnd Hfresh k0 b0 [Heq | Hin].
      * inversion Heq; subst. inversion Hnd as [| ? ? Hnin Hnd']; subst.
        rewrite Hother by exact Hnin.
        apply append_bound_same, Hfresh. tauto.
      * inversion Hnd as [| ? ? Hnin Hnd']; subst.
        apply Hsame; [exact Hnd' | | exact Hin].
        intros b1 Hb1 Hin1. apply all_binds_setdefault_append_In in Hin1.
        destruct Hin1 as [-> | Hin1]; [tauto |].
        apply (Hfresh b1); tauto.
Qed.

(** A joystick table with an unbound bind does not load back: whatever the
    key table, [load] after [save] raises. *)
Lemma load_after_save_unbound_raises
    (key_name : Z -> string) (key_code : string -> result Z)
    (km : KeyMap.KeyMap) (jm : JoyMap.JoyMap) (b : string) :
  joy_table_ok jm -> JoyMap.bound_slot b jm = Some None ->
  _unpack_joystick
    (match doc_controller (save key_name km jm) with Some m => m | None => [] end)
  = Raise TypeError /\
  exists e, load key_code (save key_name km jm) = Raise e.
Proof.
  intros [Huk Hnd] Hb.
  assert (Hun :
    _unpack_joystick
      (match doc_controller (save key_name km jm) with Some m => m | None => [] end)
    = Raise TypeError).
  { unfold save. cbn [doc_controller]. unfold _unpack_joystick.
    rewrite unpack_joystick_dumped.
    destruct (forallb (fun e => reads_back (snd e))
                (JoyMap.pack_binds jm)) eqn:Hall; [| reflexivity].
    exfalso. rewrite forallb_forall in Hall.
    specialize (Hall (b, None)). simpl in Hall.
    assert (Hin : In (b, @None JoyMap.pattern) (JoyMap.pack_binds jm)).
    { rewrite pack_binds_entries by exact Hnd.
      apply in_map_iff. exists (None, b). split; [reflexivity |].
      apply replay_In, bound_slot_In, Hb. }
    specialize (Hall Hin). discriminate. }
  split; [exact Hun |].
  unfold load. rewrite Hun.
  destruct (_unpack_keys key_code
              (match doc_keys (save key_name km jm) with Some m => m | None => [] end))
    as [k | e]; simpl; eexists; reflexivity.
Qed.

(** What is packed for the binds of a table without duplicates. *)
Lemma pack_binds_In (jm : JoyMap.JoyMap) (b : string)
    (k : option JoyMap.pattern) :
  joy_table_ok jm ->
  (In (b, k) (JoyMap.pack_binds jm) <-> JoyMap.bound_slot b jm = Some k).
Proof.
  intros [Huk Hnd]. rewrite pack_binds_entries by exact Hnd. split.
  - intros Hin. apply in_map_iff in Hin. destruct Hin as [[k' b'] [Heq Hin]].
    simpl in Heq. inversion Heq; subst.
    apply replay_In in Hin. destruct Hin as [l [Hin Hb]].
    eapply bound_slot_unique; eauto.
  - intros Hslot. apply in_map_iff. exists (k, b). split; [reflexivity |].
    apply replay_In, bound_slot_In, Hslot.
Qed.

(** A joystick table in which every bind has a pattern, and one without
    tuples, is written and read back to a table that binds every name as
    before. *)
Lemma load_after_save_bound_round_trip (key_name : Z -> string)
    (km : KeyMap.KeyMap) (jm : JoyMap.JoyMap) :
  joy_table_ok jm ->
  (forall b k, JoyMap.bound_slot b jm = Some k -> reads_back k = true) ->
  exists jm',
    _unpack_joystick
      (match doc_controller (save key_name km jm) with Some m => m | None => [] end)
    = Ok jm' /\
    forall b,
      JoyMap.get_bound_joystick_event jm' b = JoyMap.get_bound_joystick_event jm b.
Proof.
  intros Hok Hbound. pose proof Hok as [Huk Hnd].
  exists (fold_left (fun t e => setdefault_append (snd e) (fst e) t)
            (JoyMap.pack_binds jm) []).
  split.
  - unfold save. cbn [doc_controller]. unfold _unpack_joystick.
    rewrite unpack_joystick_dumped.
    destruct (forallb (fun e => reads_back (snd e))
                (JoyMap.pack_binds jm)) eqn:Hall; [reflexivity |].
    exfalso. apply not_true_iff_false in Hall. apply Hall.
    apply forallb_forall. intros [b k] Hin. cbn [snd].
    apply (Hbound b). apply (pack_binds_In jm b k Hok), Hin.
  - intros b. apply get_bound_of_slot.
    rewrite pack_binds_entries by exact Hnd.
    assert (Hfold :
      fold_left (fun t (e : string * option JoyMap.pattern) =>
                   setdefault_append (snd e) (fst e) t)
        (map (fun kb => (snd kb, fst kb)) (replay jm)) []
      = fold_left (fun s (kb : option JoyMap.pattern * string) =>
                     setdefault_append (fst kb) (snd kb) s) (replay jm) []).
    { generalize (@nil (option JoyMap.pattern * list string)).
      induction (replay jm) as [| [k c] r IH]; intros acc; simpl;
        [reflexivity | apply IH]. }
    rewrite Hfold.
    destruct (fold_append_bound (replay jm) []) as [Hother Hsame].
    rewrite replay_names in Hother, Hsame.
    destruct (JoyMap.bound_slot b jm) as [k |] eqn:Hslot.
    + apply (Hsame Hnd); [intros c _ [] |].
      apply replay_In, bound_slot_In, Hslot.
    + apply bound_slot_None in Hslot. rewrite Hother by exact Hslot. reflexivity.
Qed.
(** What was written reads back only if every bind had a pattern, and one
    without tuples; if not, it is a [TypeError]. *)
Lemma load_after_save_outcome (key_name : Z -> string)
    (km : KeyMap.KeyMap) (jm : JoyMap.JoyMap) :
  joy_table_ok jm ->
  ((exists jm',
      _unpack_joystick
        (match doc_controller (save key_name km jm) with Some m => m | None => [] end)
      = Ok jm') /\
   forall b k, JoyMap.bound_slot b jm = Some k -> reads_back k = true) \/
  (_unpack_joystick
     (match doc_controller (save key_name km jm) with Some m => m | None => [] end)
   = Raise TypeError /\
   exists b k, JoyMap.bound_slot b jm = Some k /\ reads_back k = false).
Proof.
  intros Hok. unfold save. cbn [doc_controller]. unfold _unpack_joystick.
  rewrite unpack_joystick_dumped.
  destruct (forallb (fun e => reads_back (snd e)) (JoyMap.pack_binds jm)) eqn:Hall.
  - left. split; [eexists; reflexivity |].
    intros b k Hslot. rewrite forallb_forall in Hall.
    apply (Hall (b, k)). apply (pack_binds_In jm b k Hok), Hslot.
  - right. split; [reflexivity |].
    assert (Hex : exists e, In e (JoyMap.pack_binds jm)
                            /\ reads_back (snd e) = false).
    { clear Hok. induction (JoyMap.pack_binds jm) as [| e r IH];
        [discriminate |].
      cbn [forallb] in Hall. apply andb_false_iff in Hall.
      destruct Hall as [He | Hr].
      - exists e. split; [left; reflexivity | exact He].
      - destruct (IH Hr) as [e' [Hin He']]. exists e'.
        split; [right; exact Hin | exact He']. }
    destruct Hex as [[b k] [Hin Hk]]. exists b, k.
    split; [apply (pack_binds_In jm b k Hok), Hin | exact Hk].
Qed.
End RoundTripFacts.

(** * Further properties *)

(** ** The joystick table: registration and look-up by event *)

Section JoyLookupFacts.
Import JoyMap.

Lemma dget_In {K V : Type} `{EqDec K} (k : K) (v : V) (d : dict K V) :
  dget k d = Some v -> In (k, v) d.
Proof.
  induction d as [| [k' v'] r IH]; simpl; [discriminate |].
  destruct (eq_dec k k') as [-> | Hne].
  - intros Heq. inversion Heq. left. reflexivity.
  - intros Hget. right. apply IH, Hget.
Qed.

Lemma In_dget {K V : Type} `{EqDec K} (k : K) (v : V) (d : dict K V) :
  unique_keys d -> In (k, v) d -> dget k d = Some v.
Proof.
  unfold unique_keys, keys.
  induction d as [| [k' v'] r IH]; simpl; [tauto |].
  intros Hnd Hin. inversion Hnd as [| ? ? Hnin Hnd']; subst.
  destruct Hin as [Heq | Hin].
  - inversion Heq; subst. destruct (eq_dec k k); [reflexivity | congruence].
  - destruct (eq_dec k k') as [-> | Hne]; [| apply IH; assumption].
    exfalso. apply Hnin. apply in_map_iff. exists (k', v). tauto.
Qed.

Lemma dget_setdefault_append_same {K A : Type} `{EqDec K}
    (k : K) (x : A) (t : dict K (list A)) :
  dget k (setdefault_append k x t)
  = Some (match dget k t with Some l => l | None => [] end ++ [x]).
Proof.
  induction t as [| [k' l] r IH].
  - rewrite setdefault_append_nil. simpl.
    destruct (eq_dec k k); [reflexivity | congruence].
  - rewrite setdefault_append_cons. simpl.
    destruct (eq_dec k k') as [-> | Hne]; simpl.
    + destruct (eq_dec k' k'); [reflexivity | congruence].
    + destruct (eq_dec k k'); [congruence | exact IH].
Qed.

(** In a table without duplicates the scan by name and the look-up by key
    tell the same: a name is in the list under the key of its slot. *)
Lemma slot_lookup (t : JoyMap) (b : string) (k : option pattern) :
  joy_table_ok t ->
  (bound_slot b t = Some k <-> exists l, dget k t = Some l /\ In b l).
Proof.
  intros [Huk Hnd]. split.
  - intros Hslot. destruct (bound_slot_In b t k Hslot) as [l [Hin Hb]].
    exists l. split; [apply In_dget; assumption | exact Hb].
  - intros [l [Hget Hb]]. apply (bound_slot_unique b t k l Hnd); [| exact Hb].
    apply dget_In, Hget.
Qed.

Lemma convert_event_attributes (e : event_arg) (d : pydict) :
  attributes e = Some d -> _convert_event e = Ok (drop_noise d).
Proof.
  intros Hat. destruct e; simpl in Hat; inversion Hat; subst;
    unfold _convert_event, rbind; rewrite convert_items_drop_noise; reflexivity.
Qed.

(** What [get] returns for an event, without a default: the names whose
    slot is the pattern of the event. *)
Lemma get_names (t : JoyMap) (e : event_arg) (d : pydict) :
  joy_table_ok t -> attributes e = Some d ->
  exists l, get t e None = Ok l /\
    forall b, In b l <-> bound_slot b t = Some (Some (drop_noise d)).
Proof.
  intros Hok Hat. unfold get. rewrite (convert_event_attributes e d Hat).
  cbn [rbind]. unfold _joy_binds.
  match goal with
  | |- context [dget ?k t] => destruct (dget k t) as [l |] eqn:Hget
  end.
  - exists l. split; [reflexivity |]. intros b.
    rewrite (slot_lookup t b (@Some pattern (drop_noise d)) Hok). split.
    + intros Hb. exists l. tauto.
    + intros [l' [Hget' Hb]]. rewrite Hget in Hget'. inversion Hget'; subst.
      exact Hb.
  - exists []. split; [reflexivity |]. intros b. split; [intros [] |].
    intros Hslot. apply (slot_lookup t b _ Hok) in Hslot.
    destruct Hslot as [l [Hget' _]].
    pose proof (eq_trans (eq_sym Hget) Hget') as Hx. discriminate Hx.
Qed.

(** X1: [generate_bind] never overwrites: on a name the table holds it
    changes nothing, whatever default is passed, so registering a name a
    second time with another default is the same as registering it once. *)
Theorem generate_bind_keeps_existing
    (t : JoyMap) (b : string) (d d' : option pydict) :
  (forall old, get_bound_joystick_event t b = Ok old -> generate_bind t b d = t) /\
  generate_bind (generate_bind t b d) b d' = generate_bind t b d.
Proof.
  split.
  - intros old Hold. unfold generate_bind. rewrite Hold. reflexivity.
  - destruct (bound_slot b t) as [k |] eqn:Hb.
    + assert (Hsame : forall x, generate_bind t b x = t).
      { intros x. unfold generate_bind, get_bound_joystick_event, _joy_binds.
        rewrite Hb. destruct k; reflexivity. }
      rewrite !Hsame. reflexivity.
    + assert (Hnew : generate_bind t b d
                     = setdefault_append (option_map convert_items d) b t).
      { unfold generate_bind, get_bound_joystick_event, _joy_binds.
        rewrite Hb. destruct d; reflexivity. }
      rewrite Hnew. apply bound_slot_None in Hb.
      unfold generate_bind, get_bound_joystick_event, _joy_binds.
      rewrite (append_bound_same t _ b Hb).
      destruct (option_map convert_items d); reflexivity.
Qed.

Lemma generate_bind_keeps_existing_witness :
  generate_bind ex_two_binds "fire" (Some ex_hat_button) = ex_two_binds.
Proof.
  apply (proj1 (generate_bind_keeps_existing ex_two_binds "fire"
                  (Some ex_hat_button) None) (Some ex_button)).
  reflexivity.
Defined.

(** X2: the first registration of a name binds it to its default: the
    look-up by name gives the default without its noise attributes (or
    [None]), an event with the same attributes finds the name, and every
    other name is bound as before. *)
Theorem generate_bind_registers
    (t : JoyMap) (b : string) (d : pydict) (e : event_arg) (d' : pydict) :
  get_bound_joystick_event t b = Raise ValueError ->
  unique_keys d -> attributes e = Some d' -> drop_noise d' = drop_noise d ->
  get_bound_joystick_event (generate_bind t b (Some d)) b = Ok (Some (drop_noise d)) /\
  get_bound_joystick_event (generate_bind t b None) b = Ok None /\
  (exists l, get (generate_bind t b (Some d)) e None = Ok l /\ In b l) /\
  (forall c x, c <> b ->
     get_bound_joystick_event (generate_bind t b x) c
     = get_bound_joystick_event t c).
Proof.
  intros Habs Hd Hat Hsame.
  assert (Hnin : ~ In b (all_binds t)).
  { apply bound_slot_None. unfold get_bound_joystick_event, _joy_binds in Habs.
    destruct (bound_slot b t) as [[p |] |]; [discriminate | discriminate | reflexivity]. }
  assert (Hgen : forall x,
    generate_bind t b x
    = setdefault_append (option_map convert_items x) b t).
  { intros x. unfold generate_bind. rewrite Habs. destruct x; reflexivity. }
  split; [| split; [| split]].
  - rewrite Hgen. unfold get_bound_joystick_event, _joy_binds.
    rewrite (append_bound_same t _ b Hnin). simpl.
    rewrite convert_items_drop_noise.
    rewrite convert_pairs_unique by (apply drop_noise_unique_keys, Hd).
    reflexivity.
  - rewrite Hgen. unfold get_bound_joystick_event, _joy_binds.
    rewrite (append_bound_same t _ b Hnin). reflexivity.
  - rewrite Hgen. unfold get. rewrite (convert_event_attributes e d' Hat).
    cbn [rbind option_map]. unfold _joy_binds.
    rewrite convert_items_drop_noise, Hsame, dget_setdefault_append_same.
    eexists. split; [reflexivity |]. apply in_or_app. right. left. reflexivity.
  - intros c x Hne. rewrite Hgen. apply get_bound_of_slot.
    apply append_bound_other, Hne.
Qed.

Lemma generate_bind_registers_witness :
  exists l,
    get (generate_bind ex_two_binds "dash" (Some ex_hat_button))
      (ArgDict ex_hat_button) None = Ok l /\ In "dash" l.
Proof.
  apply (generate_bind_registers ex_two_binds "dash" ex_hat_button
           (ArgDict ex_hat_button) ex_hat_button).
  - reflexivity.
  - vm_compute. distinct.
  - reflexivity.
  - reflexivity.
Defined.

(** X3: after [rebind(b, d)] an event finds [b] exactly when its attributes
    without noise are those of [d] without noise, in their order; any other
    name is found by the events that found it before. *)
Theorem rebind_moves_trigger
    (t : JoyMap) (b : string) (d : pydict) (e : event_arg) (d' : pydict) :
  joy_table_ok t -> attributes e = Some d' ->
  exists l l0,
    get (rebind t b (Some d)) e None = Ok l /\ get t e None = Ok l0 /\
    (In b l <-> drop_noise d' = drop_noise d) /\
    (forall c, c <> b -> (In c l <-> In c l0)).
Proof.
  intros Hok Hat. unfold rebind.
  pose proof (rebind_ok t b (Some (convert_items d)) Hok) as Hok'.
  destruct (get_names _ e d' Hok' Hat) as [l [Hl Hin]].
  destruct (get_names t e d' Hok Hat) as [l0 [Hl0 Hin0]].
  exists l, l0. split; [exact Hl |]. split; [exact Hl0 |]. split.
  - rewrite Hin, (rebind_bound_same t b _ Hok), convert_items_drop_noise.
    split; [intros Heq; inversion Heq; reflexivity | intros ->; reflexivity].
  - intros c Hne. rewrite Hin, Hin0.
    rewrite (rebind_bound_other t b c _ (proj1 Hok) Hne). tauto.
Qed.

Lemma rebind_moves_trigger_witness :
  exists l l0,
    get (rebind ex_two_binds "fire" (Some ex_hat_button))
      (ArgDict ex_button) None = Ok l /\
    get ex_two_binds (ArgDict ex_button) None = Ok l0 /\
    (In "fire" l <-> drop_noise ex_button = drop_noise ex_hat_button) /\
    (forall c, c <> "fire" -> (In c l <-> In c l0)).
Proof.
  apply (rebind_moves_trigger ex_two_binds "fire" ex_hat_button
           (ArgDict ex_button) ex_button).
  - apply ex_two_binds_ok.
  - reflexivity.
Defined.

(** X4: an unbound name is found by no event: neither a name the look-up
    by name reports as [None], nor, so, a name rebound to [None]. *)
Theorem unbound_never_found
    (t : JoyMap) (b : string) (e : event_arg) (d : pydict) :
  joy_table_ok t -> attributes e = Some d ->
  (get_bound_joystick_event t b = Ok None ->
   exists l, get t e None = Ok l /\ ~ In b l) /\
  (exists l, get (rebind t b None) e None = Ok l /\ ~ In b l).
Proof.
  intros Hok Hat. split.
  - intros Hnone. destruct (get_names t e d Hok Hat) as [l [Hl Hin]].
    exists l. split; [exact Hl |]. rewrite Hin.
    unfold get_bound_joystick_event, _joy_binds in Hnone.
    destruct (bound_slot b t) as [[p |] |]; congruence.
  - pose proof (rebind_ok t b None Hok) as Hok'.
    destruct (get_names _ e d Hok' Hat) as [l [Hl Hin]].
    exists l. split; [exact Hl |]. rewrite Hin.
    unfold rebind. rewrite (rebind_bound_same t b None Hok). discriminate.
Qed.

Lemma unbound_never_found_witness :
  exists l, get ex_two_binds (ArgDict ex_button) None = Ok l /\ ~ In "jump" l.
Proof.
  apply (proj1 (unbound_never_found ex_two_binds "jump" (ArgDict ex_button)
                  ex_button ex_two_binds_ok eq_refl)).
  reflexivity.
Defined.
End JoyLookupFacts.

(** ** The joystick table: packing, removal of an absent name, conversion *)

Section JoyPackFacts.
Import JoyMap.

Lemma dget_swapped (steps : list (option pattern * string)) (b : string)
    (k : option pattern) :
  NoDup (map snd steps) -> In (k, b) steps ->
  dget b (map (fun kb => (snd kb, fst kb)) steps) = Some k.
Proof.
  induction steps as [| [k' b'] r IH]; simpl; [tauto |].
  intros Hnd Hin. inversion Hnd as [| ? ? Hnin Hnd']; subst.
  destruct Hin as [Heq | Hin].
  - inversion Heq; subst. destruct (eq_dec b b); [reflexivity | congruence].
  - destruct (eq_dec b b') as [-> | Hne]; [| apply IH; assumption].
    exfalso. apply Hnin. apply in_map_iff. exists (k, b'). tauto.
Qed.

Lemma pack_binds_keys (t : JoyMap) :
  NoDup (all_binds t) -> keys (pack_binds t) = all_binds t.
Proof.
  intros Hnd. rewrite pack_binds_entries by exact Hnd.
  unfold keys. rewrite map_map. simpl. apply replay_names.
Qed.

(** X5: [pack_binds] is the look-up by name turned into a dictionary: in
    a table without duplicates it has one entry per bind name, in the order
    of the slots, and under each name the slot that the look-up by name
    finds. *)
Theorem pack_binds_inverts (t : JoyMap) :
  joy_table_ok t ->
  keys (pack_binds t) = all_binds t /\
  unique_keys (pack_binds t) /\
  (forall b, dget b (pack_binds t) = bound_slot b t) /\
  (forall b,
     get_bound_joystick_event t b
     = match dget b (pack_binds t) with
       | Some (Some key) => Ok (Some (_convert_pairs key))
       | Some None => Ok None
       | None => Raise ValueError
       end).
Proof.
  intros [Huk Hnd].
  pose proof (pack_binds_keys t Hnd) as Hkeys.
  assert (Hget : forall b, dget b (pack_binds t) = bound_slot b t).
  { intros b. destruct (bound_slot b t) as [k |] eqn:Hslot.
    - rewrite pack_binds_entries by exact Hnd.
      apply dget_swapped; [rewrite replay_names; exact Hnd |].
      apply replay_In, bound_slot_In, Hslot.
    - apply dget_None_keys. rewrite Hkeys. apply bound_slot_None, Hslot. }
  split; [exact Hkeys |]. split; [| split; [exact Hget |]].
  - unfold unique_keys. rewrite Hkeys. exact Hnd.
  - intros b. rewrite Hget. reflexivity.
Qed.

Lemma pack_binds_inverts_witness :
  keys (pack_binds ex_two_binds) = all_binds ex_two_binds.
Proof. apply (pack_binds_inverts ex_two_binds ex_two_binds_ok). Defined.

Lemma strip_all_absent (t : JoyMap) (b : string) :
  no_empty_slot t -> ~ In b (all_binds t) ->
  filter (fun item => negb (List.length (snd item) =? 0)%nat)
    (map (fun item => (fst item, strip b (snd item))) t)
  = t.
Proof.
  induction t as [| [k l] r IH]; intros Hne Hnin; simpl; [reflexivity |].
  rewrite all_binds_cons, in_app_iff in Hnin.
  rewrite strip_absent by tauto.
  assert (Hl : l <> []) by (apply (Hne k); left; reflexivity).
  destruct l as [| x l]; [congruence |]. simpl. f_equal.
  apply IH; [| tauto].
  intros k0 l0 Hin. apply (Hne k0). right. exact Hin.
Qed.

(** X6: [remove_bind] of a name the table does not hold changes nothing
    (in a table with no empty slot), so removing a name twice is removing
    it once. *)
Theorem remove_bind_absent_is_noop (t : JoyMap) (b : string) :
  joy_table_ok t ->
  (no_empty_slot t -> ~ In b (all_binds t) -> remove_bind t b = t) /\
  remove_bind (remove_bind t b) b = remove_bind t b.
Proof.
  intros [Huk Hnd].
  assert (Hnoop : forall t', unique_keys t' -> no_empty_slot t' ->
            ~ In b (all_binds t') -> remove_bind t' b = t').
  { intros t' Huk' Hne Hnin. rewrite remove_bind_filter by exact Huk'.
    apply strip_all_absent; assumption. }
  split.
  - apply Hnoop, Huk.
  - apply Hnoop.
    + apply remove_bind_unique_keys, Huk.
    + apply remove_bind_no_empty_slot, Huk.
    + apply remove_bind_gone; assumption.
Qed.

Lemma remove_bind_absent_is_noop_witness :
  remove_bind ex_two_binds "dash" = ex_two_binds.
Proof.
  apply (proj1 (remove_bind_absent_is_noop ex_two_binds "dash" ex_two_binds_ok)).
  - intros k l Hin. vm_compute in Hin.
    destruct Hin as [Heq | [Heq | []]]; inversion Heq; discriminate.
  - vm_compute. intuition discriminate.
Defined.

Lemma drop_noise_idempotent (d : pydict) : drop_noise (drop_noise d) = drop_noise d.
Proof.
  unfold drop_noise.
  induction d as [| [k v] r IH]; [reflexivity |].
  cbn [filter fst].
  destruct (negb (py_in k _invalid_params)) eqn:Hk; [| exact IH].
  cbn [filter fst]. rewrite Hk, IH. reflexivity.
Qed.

(** X7: [_convert_event] raises [ValueError] exactly on what is neither an
    event nor a dict; otherwise the pattern holds the pairs whose attribute
    is not 'value', 'instance_id' or 'joy', and only them; and the dict
    that [_convert_pairs] rebuilds from it converts to the same pattern, so
    a trigger read with [get_bound_joystick_event] can be passed back. *)
Theorem convert_event_pattern (e : event_arg) :
  (attributes e = None -> _convert_event e = Raise ValueError) /\
  (forall d, attributes e = Some d ->
     exists p, _convert_event e = Ok p /\
       (forall k v, In (k, v) p <-> In (k, v) d /\ ~ In k _invalid_params) /\
       (unique_keys d -> _convert_event (ArgDict (_convert_pairs p)) = Ok p)).
Proof.
  split.
  - destruct e; simpl; intros Hat; try discriminate. reflexivity.
  - intros d Hat. exists (drop_noise d).
    split; [apply convert_event_attributes, Hat |]. split.
    + intros k v. unfold drop_noise. rewrite filter_In. cbn [fst].
      rewrite negb_true_iff, py_in_false. tauto.
    + intros Hd. rewrite convert_pairs_unique by (apply drop_noise_unique_keys, Hd).
      rewrite (convert_event_attributes (ArgDict (drop_noise d)) (drop_noise d) eq_refl).
      rewrite drop_noise_idempotent. reflexivity.
Qed.

Lemma convert_event_pattern_witness :
  _convert_event (ArgOther (PInt 3)) = Raise ValueError /\
  exists p, _convert_event (ArgDict ex_button_noisy) = Ok p /\
    _convert_event (ArgDict (_convert_pairs p)) = Ok p.
Proof.
  split.
  - apply (proj1 (convert_event_pattern (ArgOther (PInt 3)))). reflexivity.
  - destruct (proj2 (convert_event_pattern (ArgDict ex_button_noisy))
                ex_button_noisy eq_refl) as [p [Hp [_ Hback]]].
    exists p. split; [exact Hp |]. apply Hback. vm_compute. distinct.
Defined.
End JoyPackFacts.

(** ** Loading and saving *)

Section LoadFacts.
Import JSONParser.

Lemma unpack_joystick_steps (maps : dict string jvalue) :
  _unpack_joystick maps = fold_left unpack_step maps (Ok []).
Proof. reflexivity. Qed.

Lemma unpack_step_raised (maps : dict string jvalue) (e : exn) :
  fold_left unpack_step maps (Raise e) = Raise e.
Proof. induction maps as [| [b j] r IH]; simpl; [reflexivity | exact IH]. Qed.

Lemma unpack_step_appends (acc acc' : JoyMap.JoyMap) (b : string) (j : jvalue) :
  unpack_step (Ok acc) (b, j) = Ok acc' ->
  exists p, acc' = setdefault_append (Some p) b acc.
Proof.
  unfold unpack_step. cbn [rbind].
  destruct (iterate j) as [pts | e]; cbn [rbind]; [| discriminate].
  destruct (mapM _ pts) as [pairs | e]; cbn [rbind]; [| discriminate].
  destruct (mapM _ pairs) as [p | e]; cbn [rbind]; [| discriminate].
  intros Heq. inversion Heq. exists p. reflexivity.
Qed.

Lemma unpack_fold_props (maps : dict string jvalue) (acc jm : JoyMap.JoyMap) :
  fold_left unpack_step maps (Ok acc) = Ok jm ->
  (unique_keys acc -> unique_keys jm) /\
  (no_empty_slot acc -> no_empty_slot jm) /\
  (~ In None (keys acc) -> ~ In None (keys jm)) /\
  (forall b, In b (all_binds jm) <-> In b (all_binds acc) \/ In b (keys maps)) /\
  (NoDup (all_binds acc ++ keys maps) -> NoDup (all_binds jm)).
Proof.
  revert acc. induction maps as [| [b j] r IH]; intros acc Hfold.
  - simpl in Hfold. inversion Hfold; subst.
    split; [tauto |]. split; [tauto |]. split; [tauto |]. split.
    + intros b. simpl. tauto.
    + simpl. rewrite app_nil_r. tauto.
  - cbn [fold_left] in Hfold.
    destruct (unpack_step (Ok acc) (b, j)) as [acc1 |e] eqn:Hstep;
      [| rewrite unpack_step_raised in Hfold; discriminate].
    destruct (unpack_step_appends acc acc1 b j Hstep) as [p Hacc1].
    destruct (IH acc1 Hfold) as [Huk [Hne [Hnone [Hin Hnd]]]].
    subst acc1. split; [| split; [| split; [| split]]].
    + intros H. apply Huk, unique_keys_setdefault_append, H.
    + intros H. apply Hne, no_empty_slot_setdefault_append, H.
    + intros H. apply Hnone. rewrite keys_setdefault_append.
      destruct (py_in (Some p) (keys acc)); [exact H |].
      rewrite in_app_iff. simpl. intros [Hx | [Hx | []]]; [tauto | discriminate].
    + intros c. rewrite Hin, all_binds_setdefault_append_In. simpl. intuition.
    + intros H. apply Hnd. simpl in H.
      destruct (NoDup_app_parts _ _ H) as [Ha [Hr Hdis]].
      inversion Hr as [| ? ? Hb Hr']; subst.
      apply NoDup_app; [| exact Hr' |].
      * apply all_binds_setdefault_append_NoDup; [exact Ha |].
        intros Hx. apply (Hdis b Hx). left. reflexivity.
      * intros a Ha' Hin'. apply all_binds_setdefault_append_In in Ha'.
        destruct Ha' as [-> | Ha']; [tauto |].
        apply (Hdis a Ha'). right. exact Hin'.
Qed.

Lemma unpack_joystick_ok (maps : dict string jvalue) (jm : JoyMap.JoyMap) :
  unique_keys maps -> _unpack_joystick maps = Ok jm ->
  joy_table_ok jm /\
  (forall b, In b (all_binds jm) <-> In b (keys maps)) /\
  (forall b, JoyMap.bound_slot b jm <> Some None).
Proof.
  intros Huk Hun. rewrite unpack_joystick_steps in Hun.
  destruct (unpack_fold_props maps [] jm Hun) as [H1 [_ [H3 [H4 H5]]]].
  split; [split; [apply H1; constructor | apply H5; exact Huk] |]. split.
  - intros b. rewrite H4. simpl. tauto.
  - intros b Hslot. destruct (bound_slot_In b jm None Hslot) as [l [Hin _]].
    apply H3; [simpl; tauto |].
    unfold keys. apply in_map_iff. exists (None, l). tauto.
Qed.

(** X8: what [_unpack_joystick] returns, for a dictionary of distinct bind
    names, is a well-formed table: no name twice, no empty slot, the names
    are those read, and none of them is unbound. *)
Theorem unpack_joystick_well_formed
    (maps : dict string jvalue) (jm : JoyMap.JoyMap) :
  unique_keys maps -> _unpack_joystick maps = Ok jm ->
  joy_table_ok jm /\
  no_empty_slot jm /\
  (forall b, In b (all_binds jm) <-> In b (keys maps)) /\
  (forall b, JoyMap.get_bound_joystick_event jm b <> Ok None).
Proof.
  intros Huk Hun.
  destruct (unpack_joystick_ok maps jm Huk Hun) as [Hok [Hnames Hbound]].
  split; [exact Hok |]. split; [| split; [exact Hnames |]].
  - rewrite unpack_joystick_steps in Hun.
    apply (unpack_fold_props maps [] jm Hun). intros k l [].
  - intros b Hnone.
    unfold JoyMap.get_bound_joystick_event, JoyMap._joy_binds in Hnone.
    destruct (JoyMap.bound_slot b jm) as [[p |] |] eqn:Hslot; try discriminate.
    apply (Hbound b Hslot).
Qed.

Lemma unpack_joystick_well_formed_witness :
  exists jm, _unpack_joystick (controller ex_document) = Ok jm /\ joy_table_ok jm.
Proof.
  eexists. split; [reflexivity |].
  eapply (unpack_joystick_well_formed (controller ex_document)).
  - vm_compute. distinct.
  - reflexivity.
Defined.

Lemma In_dset {K V : Type} `{EqDec K} (k k0 : K) (v v0 : V) (d : dict K V) :
  In (k, v) (dset k0 v0 d) -> (k, v) = (k0, v0) \/ In (k, v) d.
Proof.
  induction d as [| [k1 v1] r IH]; simpl.
  - intros [Heq | []]. left. symmetry. exact Heq.
  - destruct (eq_dec k0 k1) as [-> | Hne]; simpl.
    + intros [Heq | Hin]; [left; symmetry; exact Heq | right; right; exact Hin].
    + intros [Heq | Hin]; [right; left; exact Heq |].
      destruct (IH Hin) as [Hl | Hr]; [left; exact Hl | right; right; exact Hr].
Qed.

(** The dict of a pattern holds pairs of the pattern only. *)
Lemma convert_pairs_In (key : JoyMap.pattern) (k v : pyval) :
  In (k, v) (JoyMap._convert_pairs key) -> In (k, v) key.
Proof.
  unfold JoyMap._convert_pairs.
  assert (Hgen : forall acc : pydict,
            In (k, v) (fold_left (fun (d : pydict) (kv : pyval * pyval) =>
                                    dset (fst kv) (snd kv) d) key acc) ->
            In (k, v) acc \/ In (k, v) key).
  { induction key as [| [k1 v1] r IH]; intros acc Hin; simpl in *.
    - left. exact Hin.
    - destruct (IH _ Hin) as [Hacc | Hr]; [| right; right; exact Hr].
      apply In_dset in Hacc. destruct Hacc as [Heq | Hacc];
        [right; left; symmetry; exact Heq | left; exact Hacc]. }
  intros Hin. destruct (Hgen [] Hin) as [[] | Hkey]. exact Hkey.
Qed.

Lemma scalar_patterns_check (t : JoyMap.JoyMap) :
  forallb (fun item => match fst item with
                       | Some p => scalar_pairs p
                       | None => true
                       end) t = true ->
  scalar_patterns t.
Proof.
  intros Hall key l k v Hin Hkv. rewrite forallb_forall in Hall.
  specialize (Hall (Some key, l) Hin). cbn [fst] in Hall.
  unfold scalar_pairs in Hall. rewrite forallb_forall in Hall.
  apply andb_true_iff. apply (Hall (k, v) Hkv).
Qed.

(** X9: a joystick table in which every bind has a pattern, and no
    pattern holds a tuple, survives [save] and [load]: if the key section
    reads back, the document loads, the joystick table loaded is well formed
    and binds every name as the table saved did.  A bind whose pattern holds
    a tuple, as attribute or as value, makes the load of what was saved
    raise [TypeError]: the tuple is written as an array and comes back as a
    list, which does not hash. *)
Theorem save_load_round_trip (key_name : Z -> string)
    (key_code : string -> result Z) (km km' : KeyMap.KeyMap)
    (jm : JoyMap.JoyMap) :
  joy_table_ok jm ->
  _unpack_keys key_code (key_section (save key_name km jm)) = Ok km' ->
  ((forall b, JoyMap.get_bound_joystick_event jm b <> Ok None) ->
   scalar_patterns jm ->
   exists jm',
     load key_code (save key_name km jm) = Ok (km', jm') /\
     joy_table_ok jm' /\
     forall b,
       JoyMap.get_bound_joystick_event jm' b
       = JoyMap.get_bound_joystick_event jm b) /\
  (forall b d k v,
     JoyMap.get_bound_joystick_event jm b = Ok (Some d) -> In (k, v) d ->
     scalar k = false \/ scalar v = false ->
     load key_code (save key_name km jm) = Raise TypeError).
Proof.
  intros Hok Hkeys. unfold key_section in Hkeys. split.
  - intros Hbound Hscalar.
    assert (Hreads : forall b k, JoyMap.bound_slot b jm = Some k ->
                                 reads_back k = true).
    { intros b [p |] Hslot.
      - destruct (bound_slot_In b jm (Some p) Hslot) as [l [Hin _]].
        cbn [reads_back]. unfold scalar_pairs. apply forallb_forall.
        intros [k v] Hkv. cbn [fst snd]. apply andb_true_iff.
        apply (Hscalar p l k v Hin Hkv).
      - exfalso. apply (Hbound b).
        unfold JoyMap.get_bound_joystick_event, JoyMap._joy_binds.
        rewrite Hslot. reflexivity. }
    destruct (load_after_save_bound_round_trip key_name km jm Hok Hreads)
      as [jm' [Hun Hsame]].
    exists jm'. split; [| split; [| exact Hsame]].
    + unfold load. rewrite Hkeys. cbn [rbind]. rewrite Hun. reflexivity.
    + apply (unpack_joystick_ok
               (controller (save key_name km jm)) jm'); [| exact Hun].
      unfold controller, save. cbn [doc_controller].
      unfold unique_keys, keys. rewrite map_map. simpl.
      assert (Hk : NoDup (keys (JoyMap.pack_binds jm)))
        by (rewrite (pack_binds_keys jm (proj2 Hok)); apply Hok).
      exact Hk.
  - intros b d k v Hget Hkv Htuple.
    unfold JoyMap.get_bound_joystick_event, JoyMap._joy_binds in Hget.
    destruct (JoyMap.bound_slot b jm) as [[key |] |] eqn:Hslot;
      try discriminate.
    inversion Hget; subst d. apply convert_pairs_In in Hkv.
    unfold load. rewrite Hkeys. cbn [rbind].
    destruct (load_after_save_outcome key_name km jm Hok)
      as [[_ Hreads] | [Hraise _]]; [| rewrite Hraise; reflexivity].
    exfalso. specialize (Hreads b (Some key) Hslot). cbn [reads_back] in Hreads.
    unfold scalar_pairs in Hreads. rewrite forallb_forall in Hreads.
    specialize (Hreads (k, v) Hkv). cbn [fst snd] in Hreads.
    apply andb_true_iff in Hreads. destruct Hreads as [Hk Hv].
    destruct Htuple as [H | H]; congruence.
Qed.

Lemma save_load_round_trip_witness :
  (exists jm',
     load ex_key_code (save ex_key_name [] ex_fire_table) = Ok ([], jm') /\
     joy_table_ok jm' /\
     forall b,
       JoyMap.get_bound_joystick_event jm' b
       = JoyMap.get_bound_joystick_event ex_fire_table b) /\
  load ex_key_code
    (save ex_key_name [] (JoyMap.generate_bind [] "roll" (Some ex_ball)))
  = Raise TypeError.
Proof.
  split.
  - apply (save_load_round_trip ex_key_name ex_key_code [] [] ex_fire_table
             ex_fire_table_ok eq_refl).
    + intros b Hb.
      unfold JoyMap.get_bound_joystick_event, JoyMap._joy_binds in Hb.
      destruct (JoyMap.bound_slot b ex_fire_table) as [[p |] |] eqn:Hslot;
        try discriminate.
      destruct (bound_slot_In b ex_fire_table None Hslot) as [l [Hin _]].
      vm_compute in Hin. destruct Hin as [Heq | []]. discriminate.
    + apply scalar_patterns_check. reflexivity.
  - apply (proj2 (save_load_round_trip ex_key_name ex_key_code [] []
                    (JoyMap.generate_bind [] "roll" (Some ex_ball))
                    (built_ok _ (built_generate_bind [] "roll" (Some ex_ball)
                                   built_empty))
                    eq_refl)
             "roll" ex_ball (PStr "rel") (PTuple [PInt 1; PInt 0])).
    + reflexivity.
    + right. left. reflexivity.
    + right. reflexivity.
Defined.
End LoadFacts.

(** ** load_from_file, save_to_file *)

Section FileFacts.
Import KeyListener.

Lemma joy_merge_slots (A B : JoyMap.JoyMap) :
  joy_table_ok A -> joy_table_ok B ->
  joy_table_ok (JoyMap.merge A B) /\
  (forall b, In b (all_binds B) ->
     JoyMap.bound_slot b (JoyMap.merge A B) = JoyMap.bound_slot b B) /\
  (forall b, ~ In b (all_binds B) ->
     JoyMap.bound_slot b (JoyMap.merge A B) = JoyMap.bound_slot b A).
Proof.
  intros HA [HBk HBn]. rewrite merge_replay.
  destruct (replay_fold (replay B) A HA) as [Hok [_ [Hother Hsame]]].
  rewrite replay_names in Hother, Hsame.
  split; [exact Hok |]. split.
  - intros b Hb. destruct (JoyMap.bound_slot b B) as [k |] eqn:Hslot.
    + apply (Hsame HBn). apply replay_In. apply bound_slot_In. exact Hslot.
    + apply bound_slot_None in Hslot. tauto.
  - exact Hother.
Qed.

Lemma load_from_file_loaded (key_name : Z -> string)
    (key_code : string -> result Z) (t t' : Tables) (file : JSONParser.document) :
  load_from_file (JSON key_name key_code) t file = Ok t' ->
  exists km jm,
    JSONParser.load key_code file = Ok (km, jm) /\
    JSONParser._unpack_joystick (controller file) = Ok jm /\
    t' = mkTables (KeyMap.merge (key_map t) km) (JoyMap.merge (joy_map t) jm).
Proof.
  unfold load_from_file. cbn [parser_load JSON].
  destruct (JSONParser.load key_code file) as [[km jm] | e] eqn:Hload;
    cbn [rbind]; [| discriminate].
  intros Heq. inversion Heq. exists km, jm.
  split; [reflexivity |]. split; [| reflexivity].
  unfold JSONParser.load in Hload. unfold controller.
  destruct (JSONParser._unpack_keys key_code _) as [km0 | e]; cbn [rbind] in Hload;
    [| discriminate].
  destruct (JSONParser._unpack_joystick _) as [jm0 | e]; cbn [rbind] in Hload;
    [| discriminate].
  inversion Hload. reflexivity.
Qed.

(** X10: [load_from_file] updates bind by bind: a joystick bind named in
    the file ends bound as the file has it (and so to a pattern, never
    unbound), one the file does not name stays bound as it was, and the
    table keeps its invariant. *)
Theorem load_from_file_latter_wins (key_name : Z -> string)
    (key_code : string -> result Z) (t t' : Tables) (file : JSONParser.document) :
  joy_table_ok (joy_map t) -> unique_keys (controller file) ->
  load_from_file (JSON key_name key_code) t file = Ok t' ->
  exists km jm,
    JSONParser.load key_code file = Ok (km, jm) /\
    joy_table_ok (joy_map t') /\
    (forall b, In b (keys (controller file)) ->
       JoyMap.get_bound_joystick_event (joy_map t') b
       = JoyMap.get_bound_joystick_event jm b
       /\ JoyMap.get_bound_joystick_event (joy_map t') b <> Ok None
       /\ JoyMap.get_bound_joystick_event (joy_map t') b <> Raise ValueError) /\
    (forall b, ~ In b (keys (controller file)) ->
       JoyMap.get_bound_joystick_event (joy_map t') b
       = JoyMap.get_bound_joystick_event (joy_map t) b).
Proof.
  intros Hok Huk Hload.
  destruct (load_from_file_loaded key_name key_code t t' file Hload)
    as [km [jm [Hl [Hun Ht']]]].
  destruct (unpack_joystick_ok (controller file) jm Huk Hun)
    as [Hjm [Hnames Hbound]].
  destruct (joy_merge_slots (joy_map t) jm Hok Hjm) as [Hmok [Hin Hout]].
  exists km, jm. subst t'. cbn [joy_map].
  split; [exact Hl |]. split; [exact Hmok |]. split.
  - intros b Hb. apply Hnames in Hb.
    assert (Heq : JoyMap.get_bound_joystick_event (JoyMap.merge (joy_map t) jm) b
                  = JoyMap.get_bound_joystick_event jm b)
      by (apply get_bound_of_slot, Hin, Hb).
    split; [exact Heq |]. rewrite Heq.
    unfold JoyMap.get_bound_joystick_event, JoyMap._joy_binds.
    destruct (JoyMap.bound_slot b jm) as [[p |] |] eqn:Hslot.
    + split; discriminate.
    + exfalso. apply (Hbound b Hslot).
    + apply bound_slot_None in Hslot. tauto.
  - intros b Hb. apply get_bound_of_slot, Hout. rewrite Hnames. exact Hb.
Qed.

Lemma load_from_file_latter_wins_witness :
  load_from_file (JSON ex_key_name ex_key_code) ex_tables ex_document
  = Ok ex_loaded /\
  exists km jm,
    JSONParser.load ex_key_code ex_document = Ok (km, jm) /\
    JoyMap.get_bound_joystick_event (joy_map ex_loaded) "fire"
    = JoyMap.get_bound_joystick_event jm "fire".
Proof.
  assert (Hload : load_from_file (JSON ex_key_name ex_key_code) ex_tables
                    ex_document = Ok ex_loaded) by reflexivity.
  split; [exact Hload |].
  destruct (load_from_file_latter_wins ex_key_name ex_key_code ex_tables
              ex_loaded ex_document ex_two_binds_ok) as [km [jm [Hl [_ [Hin _]]]]].
  - vm_compute. distinct.
  - exact Hload.
  - exists km, jm. split; [exact Hl |]. apply Hin. vm_compute. tauto.
Defined.

(** X11: writing the tables with [save_to_file] and reading the file back
    with [load_from_file], when that load goes through, leaves every
    joystick bind bound as it was. *)
Theorem save_then_load_from_file (key_name : Z -> string)
    (key_code : string -> result Z) (t t' : Tables) :
  joy_table_ok (joy_map t) ->
  load_from_file (JSON key_name key_code) t
    (save_to_file (JSON key_name key_code) t) = Ok t' ->
  joy_table_ok (joy_map t') /\
  forall b,
    JoyMap.get_bound_joystick_event (joy_map t') b
    = JoyMap.get_bound_joystick_event (joy_map t) b.
Proof.
  intros Hok Hload.
  destruct (load_from_file_loaded key_name key_code t t' _ Hload)
    as [km [jm [_ [Hun Ht']]]].
  unfold save_to_file in Hun. cbn [parser_save JSON] in Hun.
  assert (Hbound : forall b k, JoyMap.bound_slot b (joy_map t) = Some k ->
                               reads_back k = true).
  { destruct (load_after_save_outcome key_name (key_map t) (joy_map t) Hok)
      as [[_ Hreads] | [Hraise _]]; [exact Hreads |].
    unfold controller in Hun. rewrite Hraise in Hun. discriminate. }
  destruct (load_after_save_bound_round_trip key_name (key_map t) (joy_map t)
              Hok Hbound) as [jm' [Hun' Hsame]].
  unfold controller in Hun. rewrite Hun' in Hun. inversion Hun; subst jm'.
  assert (Hjm : joy_table_ok jm).
  { apply (unpack_joystick_ok
             (controller (JSONParser.save key_name (key_map t) (joy_map t))) jm);
      [| exact Hun'].
    unfold controller, JSONParser.save. cbn [JSONParser.doc_controller].
    unfold unique_keys, keys. rewrite map_map. simpl.
    assert (Hk : NoDup (keys (JoyMap.pack_binds (joy_map t))))
      by (rewrite (pack_binds_keys (joy_map t) (proj2 Hok)); apply Hok).
    exact Hk. }
  destruct (joy_merge_slots (joy_map t) jm Hok Hjm) as [Hmok [Hin Hout]].
  subst t'. cbn [joy_map]. split; [exact Hmok |].
  intros b.
  destruct (in_dec string_dec b (all_binds jm)) as [Hb | Hb].
  - rewrite <- Hsame. apply get_bound_of_slot, Hin, Hb.
  - apply get_bound_of_slot, Hout, Hb.
Qed.

Lemma save_then_load_from_file_witness :
  load_from_file (JSON ex_key_name ex_key_code) ex_fire_tables
    (save_to_file (JSON ex_key_name ex_key_code) ex_fire_tables)
  = Ok ex_reloaded /\
  JoyMap.get_bound_joystick_event (joy_map ex_reloaded) "fire"
  = JoyMap.get_bound_joystick_event (joy_map ex_fire_tables) "fire".
Proof.
  assert (Hload : load_from_file (JSON ex_key_name ex_key_code) ex_fire_tables
                    (save_to_file (JSON ex_key_name ex_key_code) ex_fire_tables)
                  = Ok ex_reloaded) by reflexivity.
  split; [exact Hload |].
  apply (save_then_load_from_file ex_key_name ex_key_code ex_fire_tables
           ex_reloaded ex_fire_table_ok Hload).
Defined.
End FileFacts.

(** ** Hook indexes: registration and resolution *)

Section HookFacts.
Import KeyListener.

Lemma dset_dset {K V : Type} `{EqDec K} (k : K) (v v' : V) (d : dict K V) :
  dset k v' (dset k v d) = dset k v' d.
Proof.
  induction d as [| [k0 v0] r IH]; simpl.
  - destruct (eq_dec k k); [reflexivity | congruence].
  - destruct (eq_dec k k0) as [-> | Hne]; simpl.
    + destruct (eq_dec k0 k0); [reflexivity | congruence].
    + destruct (eq_dec k k0); [congruence | rewrite IH; reflexivity].
Qed.

Lemma dset_same_value {K V : Type} `{EqDec K} (k : K) (v : V) (d : dict K V) :
  dget k d = Some v -> dset k v d = d.
Proof.
  induction d as [| [k0 v0] r IH]; simpl; [discriminate |].
  destruct (eq_dec k k0) as [-> | Hne].
  - intros Heq. inversion Heq. reflexivity.
  - intros Hget. rewrite IH by exact Hget. reflexivity.
Qed.

Lemma dget_map_values {K A B : Type} `{EqDec K} (f : A -> B) (k : K)
    (d : dict K A) :
  dget k (map_values f d) = option_map f (dget k d).
Proof.
  unfold map_values. induction d as [| [k0 v0] r IH]; simpl; [reflexivity |].
  destruct (eq_dec k k0); [reflexivity | exact IH].
Qed.

(** The three [setdefault]s and the write-back amount to one nested
    update. *)
Lemma index_update_nested {A : Type} (f : list A -> list A) (b : string)
    (c : bool) (e : Z) (index : hook_index A) :
  index_update f b c e index
  = let event_dict := match dget b index with Some d => d | None => [] end in
    let hooks := match dget c event_dict with Some d => d | None => [] end in
    let listeners := match dget e hooks with Some l => l | None => [] end in
    dset b (dset c (dset e (f listeners) hooks) event_dict) index.
Proof.
  unfold index_update, setdefault, hook_index, dict in *.
  destruct (dget b index) as [event_dict |]; cbn zeta iota beta.
  - destruct (dget c event_dict) as [hooks |]; cbn zeta iota beta.
    + destruct (dget e hooks) as [listeners |]; cbn zeta iota beta;
        [reflexivity | rewrite dset_dset; reflexivity].
    + simpl. destruct (eq_dec e e); [| congruence].
      rewrite dset_dset. reflexivity.
  - simpl. destruct (eq_dec c c); [| congruence].
    destruct (eq_dec e e); [| congruence].
    rewrite dset_dset. reflexivity.
Qed.

Lemma hooks_of_index_update_same {A : Type} (f : list A -> list A) (b : string)
    (c : bool) (e : Z) (index : hook_index A) :
  hooks_of (index_update f b c e index) b c e = f (hooks_of index b c e).
Proof.
  rewrite index_update_nested. unfold hooks_of. cbn zeta.
  rewrite !dget_dset_same.
  unfold hook_index, dict in *.
  destruct (dget b index) as [d |]; [| reflexivity].
  destruct (dget c d) as [h |]; reflexivity.
Qed.

Lemma hooks_of_index_update_other {A : Type} (f : list A -> list A)
    (b b' : string) (c c' : bool) (e e' : Z) (index : hook_index A) :
  (b', c', e') <> (b, c, e) ->
  hooks_of (index_update f b c e index) b' c' e' = hooks_of index b' c' e'.
Proof.
  intros Hne. rewrite index_update_nested. unfold hooks_of. cbn zeta.
  destruct (eq_dec b' b) as [-> | Hb];
    [rewrite dget_dset_same | rewrite dget_dset_other by exact Hb; reflexivity].
  destruct (eq_dec c' c) as [-> | Hc];
    [rewrite dget_dset_same
    | rewrite dget_dset_other by exact Hc; destruct (dget b index); reflexivity].
  destruct (eq_dec e' e) as [-> | He]; [congruence |].
  rewrite dget_dset_other by exact He.
  destruct (dget b index) as [d |]; [| reflexivity].
  destruct (dget c d); reflexivity.
Qed.

(** X12: registration is idempotent: applying the decorator of a bind to
    the same responder again changes nothing; after it the responder is in
    the list of its bind, concurrency class and event type, once if that
    list had no duplicates, and every other list is as before. *)
Theorem decorator_registers_once
    (self : Listener) (b : string) (e : Z) (responder : Callable) :
  let c := negb (_runs_sequential responder) in
  let self' := decorator self b e responder in
  decorator self' b e responder = self' /\
  In responder (hooks_of (_key_hooks self') b c e) /\
  (NoDup (hooks_of (_key_hooks self) b c e) ->
   NoDup (hooks_of (_key_hooks self') b c e)) /\
  (forall b' c' e', (b', c', e') <> (b, c, e) ->
     hooks_of (_key_hooks self') b' c' e' = hooks_of (_key_hooks self) b' c' e') /\
  _class_listeners self' = _class_listeners self.
Proof.
  intros c self'.
  set (f := fun listeners : list Callable =>
              if py_in responder listeners then listeners
              else listeners ++ [responder]).
  assert (Hin : forall l, In responder (f l)).
  { intros l. unfold f. destruct (py_in responder l) eqn:Hp.
    - apply py_in_In, Hp.
    - apply in_or_app. right. left. reflexivity. }
  assert (Hfix : forall l, f (f l) = f l).
  { intros l. unfold f at 1. assert (Hp : py_in responder (f l) = true)
      by (apply py_in_In, Hin). rewrite Hp. reflexivity. }
  assert (Hhooks : hooks_of (_key_hooks self') b c e
                   = f (hooks_of (_key_hooks self) b c e)).
  { unfold self', decorator. cbn [_key_hooks].
    apply hooks_of_index_update_same. }
  split; [| split; [| split; [| split]]].
  - unfold self', decorator. cbn [handle _key_hooks _class_listeners
      _class_listener_binds _assigned_classes]. f_equal.
    fold c. fold f.
    rewrite (index_update_nested f b c e (index_update f b c e (_key_hooks self))).
    rewrite (index_update_nested f b c e (_key_hooks self)). cbn zeta.
    rewrite !dget_dset_same. rewrite Hfix.
    rewrite !dset_dset. reflexivity.
  - rewrite Hhooks. apply Hin.
  - intros Hnd. rewrite Hhooks. unfold f.
    destruct (py_in responder (hooks_of (_key_hooks self) b c e)) eqn:Hp;
      [exact Hnd |].
    apply py_in_false in Hp.
    apply NoDup_app; [exact Hnd | repeat constructor; simpl; tauto |].
    intros a Ha [<- | []]. tauto.
  - intros b' c' e' Hne. unfold self', decorator. cbn [_key_hooks].
    apply hooks_of_index_update_other, Hne.
  - reflexivity.
Qed.
Lemma decorator_registers_once_witness :
  NoDup (hooks_of
           (_key_hooks (decorator (__init__ "main") "fire" JOYBUTTONDOWN ex_shoot))
           "fire" (negb (_runs_sequential ex_shoot)) JOYBUTTONDOWN).
Proof.
  apply (proj1 (proj2 (proj2 (decorator_registers_once
                                (__init__ "main") "fire" JOYBUTTONDOWN ex_shoot)))).
  vm_compute. constructor.
Defined.
End HookFacts.

(** ** From registration to resolution *)

Section ResolveFacts.
Import KeyListener.

Lemma joy_get_after_generate (jm : JoyMap.JoyMap) (name : string) (d : pydict)
    (event : Event) :
  JoyMap.get_bound_joystick_event jm name = Raise ValueError ->
  drop_noise (__dict__ event) = drop_noise d ->
  exists l,
    JoyMap.get (JoyMap.generate_bind jm name (Some d)) (ArgEvent event) (Some [])
    = Ok l /\ In name l.
Proof.
  intros Habs Hsame. unfold JoyMap.generate_bind. rewrite Habs.
  unfold JoyMap.get, JoyMap._convert_event. cbn [rbind].
  rewrite !convert_items_drop_noise, Hsame. unfold JoyMap._joy_binds.
  rewrite dget_setdefault_append_same.
  eexists. split; [reflexivity |]. apply in_or_app. right. left. reflexivity.
Qed.

Lemma callables_of_function (self : Listener) (event : Event)
    (binds : list string) (name : string) (responder : Callable) :
  In name binds ->
  In responder
    (hooks_of (_key_hooks self) name (negb (_runs_sequential responder))
       (type_ event)) ->
  In responder
    (functions_of (_runs_sequential responder) (callables_of self event binds)).
Proof.
  intros Hname Hin. unfold functions_of, callables_of.
  destruct (_runs_sequential responder); cbn [negb] in Hin;
    cbn [sequential_functions concurrent_functions];
    apply in_flat_map; exists name; tauto.
Qed.

Lemma callables_of_method (self : Listener) (event : Event)
    (binds : list string) (name : string) (method : Callable) (cls : Class) :
  In name binds ->
  In (method, cls)
    (hooks_of (_class_listeners self) name (negb (_runs_sequential method))
       (type_ event)) ->
  In (method, cls)
    (methods_of (_runs_sequential method) (callables_of self event binds)).
Proof.
  intros Hname Hin. unfold methods_of, callables_of.
  destruct (_runs_sequential method); cbn [negb] in Hin;
    cbn [sequential_methods concurrent_methods];
    apply in_flat_map; exists name; tauto.
Qed.

Lemma get_callables_joystick (int_is : Z -> Z -> bool) (t : Tables)
    (self : Listener) (event : Event) (l : list string) :
  getattr event "key" = PNone ->
  JoyMap.get (joy_map t) (ArgEvent event) (Some []) = Ok l ->
  _get_callables int_is t self event = Ok (callables_of self event l).
Proof.
  intros HK Hget. rewrite get_callables_resolved. unfold resolved_binds.
  rewrite (unbound_never_accepted int_is event _ HK). cbn [rbind].
  rewrite Hget. reflexivity.
Qed.

(** X13: a handler bound with a joystick dict to a name that is new to
    the table is returned for every event of the bind's type that has the
    attributes of the dict, noise apart, in the list of its concurrency
    class; the type is the keyword [event_type] or, without it, the one the
    dict suggests (axis, hat, else button down). *)
Theorem bound_handler_is_resolved
    (int_is : Z -> Z -> bool) (t t' : Tables) (self : Listener) (name : string)
    (d : pydict) (rest : list arg) (kwds : bind_kwds) (event_type : Z)
    (responder : Callable) (event : Event) :
  JoyMap.get_bound_joystick_event (joy_map t) name = Raise ValueError ->
  bind t name (ADict d :: rest) kwds = (t', event_type) ->
  getattr event "key" = PNone -> type_ event = event_type ->
  drop_noise (__dict__ event) = drop_noise d ->
  event_type = match kw_event_type kwds with
               | Some e => e
               | None => inferred_event d
               end /\
  key_map t' = key_map t /\
  exists sets,
    _get_callables int_is t' (decorator self name event_type responder) event
    = Ok sets /\
    In responder (functions_of (_runs_sequential responder) sets).
Proof.
  intros Habs Hbind HK Hty Hsame.
  unfold bind in Hbind. cbn [scan_args is_stick default_joystick_data opt_dict]
    in Hbind.
  inversion Hbind as [[Ht' Hev]]. clear Hbind.
  split; [destruct (kw_event_type kwds); reflexivity |].
  split; [reflexivity |].
  destruct (joy_get_after_generate (joy_map t) name d event Habs Hsame)
    as [l [Hget Hin]].
  exists (callables_of
            (decorator self name
               match kw_event_type kwds with
               | Some e => e
               | None =>
                   if py_in (PStr "axis") (keys d) then JOYAXISMOTION
                   else if py_in (PStr "hat") (keys d) then JOYHATMOTION
                   else JOYBUTTONDOWN
               end responder) event l).
  split.
  - apply get_callables_joystick; [exact HK | exact Hget].
  - apply (callables_of_function _ event l name responder Hin).
    unfold decorator. cbn [_key_hooks]. rewrite Hty, <- Hev.
    rewrite hooks_of_index_update_same.
    destruct (py_in responder _) eqn:Hp; [apply py_in_In, Hp |].
    apply in_or_app. right. left. reflexivity.
Qed.

Lemma bound_handler_is_resolved_witness :
  exists sets,
    _get_callables cpython_is
      (fst (bind ex_tables "shoot" [ADict ex_button] no_bind_kwds))
      (decorator (__init__ "main") "shoot" JOYBUTTONDOWN ex_shoot)
      ex_button_press
    = Ok sets /\
    In ex_shoot (functions_of true sets).
Proof.
  apply (bound_handler_is_resolved cpython_is ex_tables
           (fst (bind ex_tables "shoot" [ADict ex_button] no_bind_kwds))
           (__init__ "main") "shoot" ex_button [] no_bind_kwds JOYBUTTONDOWN
           ex_shoot ex_button_press); reflexivity.
Defined.

(** X14: a method captured with joystick data under a name that is new to
    the table is returned, with its class, for every event of its type that
    has the attributes of the data, noise apart; the name is noted under the
    method and the method under its class. *)
Theorem captured_method_is_resolved
    (int_is : Z -> Z -> bool) (t t' : Tables) (self self' : Listener)
    (cls : Class) (method : Callable) (tag : tag_data) (d : pydict)
    (event : Event) :
  tag_default_joystick_data tag = Some d ->
  JoyMap.get_bound_joystick_event (joy_map t) (tag_bind_name tag)
  = Raise ValueError ->
  _capture_method t self cls method tag = (t', self') ->
  getattr event "key" = PNone -> type_ event = tag_event_type tag ->
  drop_noise (__dict__ event) = drop_noise d ->
  (exists sets,
     _get_callables int_is t' self' event = Ok sets /\
     In (method, cls) (methods_of (_runs_sequential method) sets)) /\
  (exists binds, dget method (_class_listener_binds self') = Some binds
                 /\ In (tag_bind_name tag) binds) /\
  (exists methods, dget cls (_assigned_classes self') = Some methods
                   /\ In method methods) /\
  _key_hooks self' = _key_hooks self.
Proof.
  intros Hd Habs Hcap HK Hty Hsame.
  unfold _capture_method in Hcap. rewrite Hd in Hcap.
  inversion Hcap as [[Ht' Hself']]. clear Hcap.
  destruct (joy_get_after_generate (joy_map t) (tag_bind_name tag) d event
              Habs Hsame) as [l [Hget Hin]].
  split; [| split; [| split]].
  - eexists. split.
    + apply get_callables_joystick; [exact HK |]. cbn [joy_map]. exact Hget.
    + apply (callables_of_method _ event l (tag_bind_name tag) method cls Hin).
      cbn [_class_listeners]. rewrite Hty.
      rewrite hooks_of_index_update_same.
      apply in_or_app. right. left. reflexivity.
  - cbn [_class_listener_binds]. rewrite dget_setdefault_append_same.
    eexists. split; [reflexivity |]. apply in_or_app. right. left. reflexivity.
  - cbn [_assigned_classes]. rewrite dget_setdefault_append_same.
    eexists. split; [reflexivity |]. apply in_or_app. right. left. reflexivity.
  - reflexivity.
Qed.

Lemma captured_method_is_resolved_witness :
  exists sets,
    _get_callables cpython_is
      (fst (_capture_method ex_tables (__init__ "main") "Player" ex_on_jump
              (mkTag "shoot" None None JOYBUTTONDOWN (Some ex_button))))
      (snd (_capture_method ex_tables (__init__ "main") "Player" ex_on_jump
              (mkTag "shoot" None None JOYBUTTONDOWN (Some ex_button))))
      ex_button_press
    = Ok sets /\
    In (ex_on_jump, "Player") (methods_of false sets).
Proof.
  apply (captured_method_is_resolved cpython_is ex_tables _ (__init__ "main") _
           "Player" ex_on_jump
           (mkTag "shoot" None None JOYBUTTONDOWN (Some ex_button))
           ex_button ex_button_press); reflexivity.
Defined.

(** X15: the four lists that [_get_callables] returns are, for the type
    of the event, the hooks of the binds accepted under its key, in table
    order, followed by those of the binds of its joystick pattern, each
    bind's hooks in registration order; an exception of either look-up is
    the outcome. *)
Theorem get_callables_in_order
    (int_is : Z -> Z -> bool) (t : Tables) (self : Listener) (event : Event) :
  _get_callables int_is t self event
  = (by_key <- accepted int_is event
                 (key_slot (key_map t) (getattr event "key")) ;;
     by_joy <- JoyMap.get (joy_map t) (ArgEvent event) (Some []) ;;
     Ok (callables_of self event (map KeyMap.bind_name by_key ++ by_joy))).
Proof.
  rewrite get_callables_resolved. unfold resolved_binds.
  destruct (accepted int_is event _) as [a | e]; cbn [rbind]; [| reflexivity].
  destruct (JoyMap.get (joy_map t) (ArgEvent event) (Some [])) as [j | e];
    reflexivity.
Qed.
End ResolveFacts.

(** ** Taking handlers away *)

Section UnbindFacts.
Import KeyListener.

Lemma hooks_of_inner_map {A : Type} (g : list A -> list A)
    (event_dict : dict bool (dict Z (list A))) (c : bool) (e : Z) :
  g [] = [] ->
  match dget c (map_values (map_values g) event_dict) with
  | Some by_type => match dget e by_type with Some l => l | None => [] end
  | None => []
  end
  = g match dget c event_dict with
      | Some by_type => match dget e by_type with Some l => l | None => [] end
      | None => []
      end.
Proof.
  intros Hg. rewrite dget_map_values.
  destruct (dget c event_dict) as [by_type |]; cbn [option_map]; [| auto].
  rewrite dget_map_values. destruct (dget e by_type); cbn [option_map]; auto.
Qed.

Lemma hooks_of_map_values {A : Type} (g : list A -> list A)
    (index : hook_index A) (b : string) (c : bool) (e : Z) :
  g [] = [] ->
  hooks_of (map_values (map_values (map_values g)) index) b c e
  = g (hooks_of index b c e).
Proof.
  intros Hg. unfold hooks_of. rewrite dget_map_values.
  destruct (dget b index) as [event_dict |]; cbn [option_map]; [| auto].
  apply hooks_of_inner_map, Hg.
Qed.

Lemma hooks_of_dset_inner_map {A : Type} (g : list A -> list A)
    (index : hook_index A) (name b : string) (c : bool) (e : Z) :
  g [] = [] ->
  hooks_of
    (dset name
       (map_values (map_values g)
          match dget name index with Some d => d | None => [] end) index)
    b c e
  = if eq_dec b name then g (hooks_of index b c e) else hooks_of index b c e.
Proof.
  intros Hg. unfold hooks_of.
  destruct (eq_dec b name) as [-> | Hne].
  - rewrite dget_dset_same, hooks_of_inner_map by exact Hg.
    destruct (dget name index); [reflexivity | auto].
  - rewrite dget_dset_other by exact Hne. reflexivity.
Qed.

Lemma discard_nil (func : Callable) : discard func [] = [].
Proof. reflexivity. Qed.

(** X16: [unbind] takes the function out of the lists it is in: without
    a bind name, out of every list of every bind; with one, out of the lists
    of that bind alone; the other handlers keep their places.  Naming a bind
    that has no hooks changes nothing and logs a warning. *)
Theorem unbind_removes_handler (self : Listener) (func : Callable) :
  (forall b c e,
     hooks_of (_key_hooks (fst (unbind self func None))) b c e
     = discard func (hooks_of (_key_hooks self) b c e)) /\
  snd (unbind self func None) = [] /\
  (forall name, name <> "" -> forall b c e,
     hooks_of (_key_hooks (fst (unbind self func (Some name)))) b c e
     = if eq_dec b name then discard func (hooks_of (_key_hooks self) b c e)
       else hooks_of (_key_hooks self) b c e) /\
  (forall name, name <> "" ->
     dget name (_key_hooks self) = None \/ dget name (_key_hooks self) = Some [] ->
     unbind self func (Some name) = (self, [Warning])) /\
  (forall l, NoDup l -> ~ In func (discard func l)) /\
  (forall l h, h <> func -> (In h (discard func l) <-> In h l)).
Proof.
  split; [| split; [| split; [| split; [| split]]]].
  - intros b c e. unfold unbind. cbn [fst _key_hooks].
    apply hooks_of_map_values, discard_nil.
  - reflexivity.
  - intros name Hname b c e. unfold unbind.
    assert (Hn : negb (eqb name "") = true).
    { unfold eqb. destruct (eq_dec name ""); [contradiction | reflexivity]. }
    rewrite Hn.
    destruct (dget name (_key_hooks self)) as [[| x event_dict] |] eqn:Hget;
      cbn [fst _key_hooks].
    + destruct (eq_dec b name) as [-> | Hne]; [| reflexivity].
      unfold hooks_of. rewrite Hget. reflexivity.
    + pose proof (hooks_of_dset_inner_map (discard func) (_key_hooks self)
                    name b c e (discard_nil func)) as Hh.
      rewrite Hget in Hh. exact Hh.
    + destruct (eq_dec b name) as [-> | Hne]; [| reflexivity].
      unfold hooks_of. rewrite Hget. reflexivity.
  - intros name Hname Hnone. unfold unbind.
    assert (Hn : negb (eqb name "") = true).
    { unfold eqb. destruct (eq_dec name ""); [contradiction | reflexivity]. }
    rewrite Hn. destruct Hnone as [H | H]; rewrite H; reflexivity.
  - intros l Hnd. unfold discard. destruct (py_in func l) eqn:Hp.
    + apply list_remove_gone, Hnd.
    + apply py_in_false, Hp.
  - intros l h Hne. unfold discard. destruct (py_in func l); [| tauto].
    split; [apply list_remove_incl | apply list_remove_other, Hne].
Qed.

Lemma unbind_removes_handler_witness :
  unbind ex_menu (mkCallable "menu_jump" true) (Some "dash") = (ex_menu, [Warning]).
Proof.
  destruct (unbind_removes_handler ex_menu (mkCallable "menu_jump" true))
    as [_ [_ [_ [H _]]]].
  apply H; [discriminate | left; reflexivity].
Defined.

Lemma without_method_idempotent (method : Callable)
    (l : list (Callable * Class)) :
  without_method method (without_method method l) = without_method method l.
Proof.
  unfold without_method. induction l as [| x l IH]; [reflexivity |].
  cbn [filter].
  destruct (negb (eqb (fst x) method)) eqn:Hx; [| exact IH].
  cbn [filter]. rewrite Hx, IH. reflexivity.
Qed.

Lemma without_method_In (method m : Callable) (cls : Class)
    (l : list (Callable * Class)) :
  In (m, cls) (without_method method l) <-> In (m, cls) l /\ m <> method.
Proof.
  unfold without_method. rewrite filter_In. cbn [fst].
  unfold eqb. destruct (eq_dec m method); simpl; intuition congruence.
Qed.

Lemma hooks_of_strip_method (method : Callable) (binds : list string)
    (cl : hook_index (Callable * Class)) (b : string) (c : bool) (e : Z) :
  hooks_of (strip_method method binds cl) b c e
  = if py_in b binds then without_method method (hooks_of cl b c e)
    else hooks_of cl b c e.
Proof.
  unfold strip_method. revert cl.
  induction binds as [| b0 r IH]; intros cl; [reflexivity |].
  cbn [fold_left py_in]. rewrite IH.
  pose proof (hooks_of_dset_inner_map (without_method method) cl b0 b c e eq_refl)
    as Hh.
  unfold hook_index, dict in *. rewrite Hh. clear Hh.
  destruct (eq_dec b b0) as [-> | Hne].
  - destruct (py_in b0 r); [apply without_method_idempotent | reflexivity].
  - reflexivity.
Qed.

Lemma unique_keys_dpop {K V : Type} `{EqDec K} (k : K) (d : dict K V) :
  unique_keys d -> unique_keys (dpop k d).
Proof.
  unfold unique_keys, keys.
  induction d as [| [k0 v0] r IH]; simpl; [tauto |].
  intros Hnd. inversion Hnd as [| ? ? Hnin Hnd']; subst.
  destruct (eq_dec k k0); [exact Hnd' |]. simpl.
  constructor; [| auto].
  intros Hin. apply Hnin. apply in_map_iff in Hin.
  destruct Hin as [[k1 v1] [Heq Hin]]. simpl in Heq. subst k1.
  apply in_map_iff. exists (k0, v1). split; [reflexivity |].
  clear - Hin. induction r as [| [k2 v2] r IH]; simpl in *; [tauto |].
  destruct (eq_dec k k2); [tauto |].
  destruct Hin as [Heq | Hin]; [tauto | right; apply IH, Hin].
Qed.

(** X17: [unbind_method] raises [KeyError], touching nothing, when the
    method has no entry in the inverse index; otherwise it filters the
    method out of every list of every bind noted under it, keeps the other
    methods in place, and drops the entry.  On a listener whose inverse
    index is complete, no list holds the method afterwards. *)
Theorem unbind_method_forgets (self : Listener) (method : Callable) :
  (dget method (_class_listener_binds self) = None ->
   unbind_method self method = Raise KeyError) /\
  (forall binds, dget method (_class_listener_binds self) = Some binds ->
   exists self',
     unbind_method self method = Ok self' /\
     (forall b c e,
        hooks_of (_class_listeners self') b c e
        = if py_in b binds
          then without_method method (hooks_of (_class_listeners self) b c e)
          else hooks_of (_class_listeners self) b c e) /\
     _key_hooks self' = _key_hooks self /\
     (unique_keys (_class_listener_binds self) ->
      dget method (_class_listener_binds self') = None) /\
     (inverse_complete self ->
      inverse_complete self' /\
      forall b c e cls, ~ In (method, cls) (hooks_of (_class_listeners self') b c e))).
Proof.
  split.
  - intros Hnone. unfold unbind_method. rewrite Hnone. reflexivity.
  - intros binds Hsome. unfold unbind_method. rewrite Hsome.
    eexists. split; [reflexivity |].
    cbn [_class_listeners _key_hooks _class_listener_binds].
    split; [intros b c e; apply hooks_of_strip_method |].
    split; [reflexivity |].
    split; [intros Huk; apply dget_dpop_same, Huk |].
    intros Hinv.
    assert (Hgone : forall b c e cls,
      ~ In (method, cls)
          (hooks_of (strip_method method binds (_class_listeners self)) b c e)).
    { intros b c e cls Hin. rewrite hooks_of_strip_method in Hin.
      destruct (py_in b binds) eqn:Hb.
      - apply without_method_In in Hin. tauto.
      - destruct (Hinv b c e method cls Hin) as [binds' [Hget Hin']].
        rewrite Hsome in Hget. inversion Hget; subst binds'.
        apply py_in_false in Hb. tauto. }
    split; [| exact Hgone].
    intros b c e m cls Hin. cbn [_class_listeners _class_listener_binds] in *.
    destruct (eq_dec m method) as [-> | Hne]; [exfalso; eapply Hgone; eauto |].
    rewrite dget_dpop_other by exact Hne.
    apply (Hinv b c e m cls).
    rewrite hooks_of_strip_method in Hin.
    destruct (py_in b binds); [apply without_method_In in Hin; tauto | exact Hin].
Qed.

Lemma unbind_method_forgets_witness :
  unbind_method (__init__ "main") ex_on_jump = Raise KeyError /\
  exists self',
    unbind_method (snd ex_method_bound) ex_on_jump = Ok self' /\
    dget ex_on_jump (_class_listener_binds self') = None.
Proof.
  split.
  - apply (proj1 (unbind_method_forgets (__init__ "main") ex_on_jump)).
    reflexivity.
  - destruct (proj2 (unbind_method_forgets (snd ex_method_bound) ex_on_jump)
                ["jump"] eq_refl) as [self' [Hun [_ [_ [Hgone _]]]]].
    exists self'. split; [exact Hun |]. apply Hgone. vm_compute. distinct.
Defined.

Lemma dget_setdefault_append_other {K A : Type} `{EqDec K}
    (k k0 : K) (x : A) (t : dict K (list A)) :
  k0 <> k -> dget k0 (setdefault_append k x t) = dget k0 t.
Proof.
  intros Hne. induction t as [| [k' l] r IH].
  - rewrite setdefault_append_nil. simpl.
    destruct (eq_dec k0 k); [congruence | reflexivity].
  - rewrite setdefault_append_cons. simpl.
    destruct (eq_dec k k') as [-> | Hnk]; simpl.
    + destruct (eq_dec k0 k'); [congruence | reflexivity].
    + destruct (eq_dec k0 k'); [reflexivity | exact IH].
Qed.

(** X18: the inverse index stays complete: it is on a fresh listener,
    and capturing a method keeps it so, every bind a method is hooked under
    being noted under that method. *)
Theorem capture_keeps_inverse_complete (t : Tables) (self : Listener)
    (cls : Class) (method : Callable) (tag : tag_data) :
  (forall h, inverse_complete (__init__ h)) /\
  (inverse_complete self ->
   inverse_complete (snd (_capture_method t self cls method tag))).
Proof.
  split; [intros h b c e m cl Hin; destruct Hin |].
  intros Hinv b c e m cl Hin. unfold _capture_method in *.
  cbn [snd _class_listeners _class_listener_binds] in *.
  destruct (eq_dec m method) as [-> | Hne].
  - rewrite dget_setdefault_append_same. eexists. split; [reflexivity |].
    destruct (eq_dec (b, c, e)
                (tag_bind_name tag, negb (_runs_sequential method),
                 tag_event_type tag)) as [Heq | Hother].
    + inversion Heq; subst. apply in_or_app. right. left. reflexivity.
    + rewrite hooks_of_index_update_other in Hin by exact Hother.
      destruct (Hinv b c e method cl Hin) as [binds [Hget Hb]].
      rewrite Hget. apply in_or_app. left. exact Hb.
  - rewrite dget_setdefault_append_other by exact Hne.
    apply (Hinv b c e m cl).
    destruct (eq_dec (b, c, e)
                (tag_bind_name tag, negb (_runs_sequential method),
                 tag_event_type tag)) as [Heq | Hother].
    + inversion Heq; subst. rewrite hooks_of_index_update_same in Hin.
      apply in_app_or in Hin. destruct Hin as [Hin | [Heq' | []]];
        [exact Hin | inversion Heq'; congruence].
    + rewrite hooks_of_index_update_other in Hin by exact Hother. exact Hin.
Qed.

Lemma capture_keeps_inverse_complete_witness :
  inverse_complete (snd ex_method_bound).
Proof.
  apply (proj2 (capture_keeps_inverse_complete (mkTables [] []) (__init__ "main")
                  "Player" ex_on_jump (mkTag "jump" (Some 32) None 768 None))).
  apply (proj1 (capture_keeps_inverse_complete (mkTables [] []) (__init__ "main")
                  "Player" ex_on_jump (mkTag "jump" (Some 32) None 768 None))).
Defined.
End UnbindFacts.

(** ** deregister_class, getKeyListener, undoing a rebind *)

Section LifecycleFacts.
Import KeyListener.

Lemma unbind_methods_outcome (methods : list Callable) (self : Listener) :
  unique_keys (_class_listener_binds self) ->
  _assigned_classes (fst (unbind_methods self methods)) = _assigned_classes self /\
  _key_hooks (fst (unbind_methods self methods)) = _key_hooks self /\
  (snd (unbind_methods self methods) = None
   \/ snd (unbind_methods self methods) = Some KeyError) /\
  (snd (unbind_methods self methods) = None
   <-> NoDup methods
       /\ forall m, In m methods -> dget m (_class_listener_binds self) <> None) /\
  (snd (unbind_methods self methods) = None ->
   forall m, In m methods ->
     dget m (_class_listener_binds (fst (unbind_methods self methods))) = None).
Proof.
  revert self. induction methods as [| m r IH]; intros self Huk.
  - cbn [unbind_methods fst snd].
    split; [reflexivity |]. split; [reflexivity |]. split; [left; reflexivity |].
    split; [| intros _ m []].
    split; [intros _ | reflexivity].
    split; [constructor | intros m []].
  - cbn [unbind_methods]. unfold unbind_method.
    destruct (dget m (_class_listener_binds self)) as [binds |] eqn:Hget.
    + set (self' := mkListener (handle self) (_key_hooks self)
                      (strip_method m binds (_class_listeners self))
                      (dpop m (_class_listener_binds self))
                      (_assigned_classes self)).
      assert (Huk' : unique_keys (_class_listener_binds self'))
        by (apply unique_keys_dpop, Huk).
      destruct (IH self' Huk') as [H1 [H2 [H3 [H4 H5]]]].
      split; [exact H1 |]. split; [exact H2 |]. split; [exact H3 |].
      assert (Hother : forall m', m' <> m ->
                dget m' (_class_listener_binds self')
                = dget m' (_class_listener_binds self))
        by (intros m' Hne; apply dget_dpop_other, Hne).
      assert (Hsame : dget m (_class_listener_binds self') = None)
        by (apply dget_dpop_same, Huk).
      split.
      * rewrite H4. split.
        -- intros [Hnd Hall]. split.
           ++ constructor; [| exact Hnd]. intros Hin.
              apply (Hall m Hin). exact Hsame.
           ++ intros m' [<- | Hin]; [congruence |].
              destruct (eq_dec m' m) as [-> | Hne];
                [congruence | rewrite <- (Hother m' Hne); apply Hall, Hin].
        -- intros [Hnd Hall]. inversion Hnd as [| ? ? Hnin Hnd']; subst.
           split; [exact Hnd' |]. intros m' Hin.
           rewrite Hother; [apply Hall; right; exact Hin |].
           intros ->. tauto.
      * intros Hnone m' [<- | Hin]; [| apply H5; assumption].
        clear - Hsame Huk'. revert Hsame Huk'. generalize self'.
        induction r as [| m1 r IHr]; intros s Hs Hk; [exact Hs |].
        cbn [unbind_methods]. unfold unbind_method.
        destruct (dget m1 (_class_listener_binds s)) as [b1 |] eqn:Hg;
          [| exact Hs].
        apply IHr.
        -- cbn [_class_listener_binds].
           destruct (eq_dec m m1) as [-> | Hne];
             [apply dget_dpop_same, Hk | rewrite dget_dpop_other by exact Hne; exact Hs].
        -- apply unique_keys_dpop, Hk.
    + cbn [fst snd]. split; [reflexivity |]. split; [reflexivity |].
      split; [right; reflexivity |]. split.
      * split; [discriminate |]. intros [_ Hall]. exfalso.
        apply (Hall m); [left; reflexivity | exact Hget].
      * discriminate.
Qed.

(** X19: [deregister_class] ends without an exception exactly when the
    class is registered, each of its methods is listed once and each still
    has its entry in the inverse index; then the class and the entries of
    its methods are gone.  Otherwise it raises [KeyError]: at once for an
    unknown class, else with the class still registered. *)
Theorem deregister_class_outcome (self : Listener) (cls : Class) :
  unique_keys (_class_listener_binds self) ->
  unique_keys (_assigned_classes self) ->
  (dget cls (_assigned_classes self) = None ->
   deregister_class self cls = (self, Some KeyError)) /\
  (forall methods, dget cls (_assigned_classes self) = Some methods ->
   (snd (deregister_class self cls) = None
    \/ snd (deregister_class self cls) = Some KeyError) /\
   (snd (deregister_class self cls) = None
    <-> NoDup methods
        /\ forall m, In m methods -> dget m (_class_listener_binds self) <> None) /\
   (snd (deregister_class self cls) = None ->
    dget cls (_assigned_classes (fst (deregister_class self cls))) = None
    /\ forall m, In m methods ->
         dget m (_class_listener_binds (fst (deregister_class self cls))) = None) /\
   (snd (deregister_class self cls) = Some KeyError ->
    dget cls (_assigned_classes (fst (deregister_class self cls))) = Some methods) /\
   _key_hooks (fst (deregister_class self cls)) = _key_hooks self).
Proof.
  intros Hinv Hcls. split.
  - intros Hnone. unfold deregister_class. rewrite Hnone.
    cbn [unbind_methods]. rewrite Hnone. reflexivity.
  - intros methods Hsome. unfold deregister_class. rewrite Hsome.
    destruct (unbind_methods_outcome methods self Hinv)
      as [H1 [H2 [H3 [H4 H5]]]].
    destruct (unbind_methods self methods) as [self1 raised].
    cbn [fst snd] in *.
    destruct raised as [e |].
    + cbn [fst snd]. destruct H3 as [H3 | H3]; [discriminate |].
      split; [right; exact H3 |]. split; [rewrite <- H4; tauto |].
      split; [discriminate |]. split; [| exact H2].
      intros _. rewrite H1. exact Hsome.
    + cbn beta iota zeta.
      assert (Hreg : dget cls (_assigned_classes self1) = Some methods)
        by (rewrite H1; exact Hsome).
      rewrite Hreg.
      cbn [fst snd _assigned_classes _class_listener_binds _key_hooks].
      split; [left; reflexivity |]. split; [exact H4 |].
      split; [| split; [discriminate | exact H2]].
      intros _. split; [| apply H5; reflexivity].
      apply dget_dpop_same. rewrite H1. exact Hcls.
Qed.

Lemma deregister_class_outcome_witness :
  deregister_class (__init__ "main") "Player" = (__init__ "main", Some KeyError) /\
  snd (deregister_class (snd ex_method_bound) "Player") = None /\
  snd (deregister_class ex_twice_captured "Player") = Some KeyError.
Proof.
  split; [| split].
  - apply (proj1 (deregister_class_outcome (__init__ "main") "Player"
                    (NoDup_nil _) (NoDup_nil _))).
    reflexivity.
  - assert (Hk1 : unique_keys (_class_listener_binds (snd ex_method_bound)))
      by (vm_compute; distinct).
    assert (Hk2 : unique_keys (_assigned_classes (snd ex_method_bound)))
      by (vm_compute; distinct).
    destruct (proj2 (deregister_class_outcome (snd ex_method_bound) "Player"
                       Hk1 Hk2) [ex_on_jump] eq_refl) as [_ [Hiff _]].
    apply Hiff. split; [distinct |].
    intros m [<- | []]. vm_compute. discriminate.
  - assert (Hk1 : unique_keys (_class_listener_binds ex_twice_captured))
      by (vm_compute; distinct).
    assert (Hk2 : unique_keys (_assigned_classes ex_twice_captured))
      by (vm_compute; distinct).
    destruct (proj2 (deregister_class_outcome ex_twice_captured "Player"
                       Hk1 Hk2) [ex_on_jump; ex_on_jump] eq_refl)
      as [[Hn | Hk] [Hiff _]]; [| exact Hk].
    exfalso. apply Hiff in Hn. destruct Hn as [Hnd _].
    inversion Hnd as [| ? ? Hnin _]; subst. apply Hnin. left. reflexivity.
Defined.

(** X20: [getKeyListener] hands out one listener per handle: asking again
    for the same handle gives the same listener and changes nothing; a
    handle that is new gets a fresh listener, a known one its own; the
    tables and the listeners of other handles are not touched. *)
Theorem getKeyListener_one_per_handle (p : Process) (h : string) :
  getKeyListener (snd (getKeyListener p h)) h
  = (fst (getKeyListener p h), snd (getKeyListener p h)) /\
  (forall l, dget h (_listeners p) = Some l -> getKeyListener p h = (l, p)) /\
  (dget h (_listeners p) = None -> fst (getKeyListener p h) = __init__ h) /\
  tables (snd (getKeyListener p h)) = tables p /\
  (forall h', h' <> h ->
     dget h' (_listeners (snd (getKeyListener p h))) = dget h' (_listeners p)).
Proof.
  unfold getKeyListener, setdefault.
  destruct (dget h (_listeners p)) as [l |] eqn:Hget; cbn [fst snd tables _listeners].
  - rewrite Hget. cbn [fst snd].
    split; [reflexivity |]. split.
    + intros l' Heq. inversion Heq. destruct p; reflexivity.
    + split; [discriminate |]. split; [reflexivity |]. reflexivity.
  - rewrite dget_dset_same. cbn [fst snd tables _listeners].
    split; [reflexivity |]. split; [discriminate |].
    split; [reflexivity |]. split; [reflexivity |].
    intros h' Hne. apply dget_dset_other, Hne.
Qed.

Lemma getKeyListener_one_per_handle_witness :
  getKeyListener ex_two_listeners "menu" = (ex_menu, ex_two_listeners).
Proof.
  apply (proj1 (proj2 (getKeyListener_one_per_handle ex_two_listeners "menu"))).
  reflexivity.
Defined.

Lemma rebind_joystick_step (t : Tables) (b : string) (d : pydict)
    (rest : list arg) (kwds : rebind_kwds) (old : option pydict) :
  JoyMap.get_bound_joystick_event (joy_map t) b = Ok old ->
  rebind t b (ADict d :: rest) kwds
  = Ok (joy_rebound old,
        mkTables (key_map t) (JoyMap._rebind (joy_map t) b (Some (drop_noise d))),
        []).
Proof.
  intros Hold. rewrite rebind_dispatch.
  assert (Hj : on_joystick_table (ADict d :: rest) kwds = true).
  { unfold on_joystick_table. simpl. apply orb_true_r. }
  rewrite Hj. unfold _rebind_joystick. rewrite Hold.
  change (first_trigger (ADict d :: rest) kwds) with (joy_arg (Some d)).
  rewrite joy_rebind_trigger. reflexivity.
Qed.

Lemma get_bound_after_rebind (jm : JoyMap.JoyMap) (b : string) (d : pydict) :
  joy_table_ok jm -> unique_keys d ->
  JoyMap.get_bound_joystick_event (JoyMap._rebind jm b (Some (drop_noise d))) b
  = Ok (Some (drop_noise d)).
Proof.
  intros Hok Hd. unfold JoyMap.get_bound_joystick_event, JoyMap._joy_binds.
  rewrite rebind_bound_same by exact Hok.
  rewrite convert_pairs_unique by (apply drop_noise_unique_keys, Hd).
  reflexivity.
Qed.

(** X21: what a rebind hands back undoes it: after a rebind to [d0], a
    rebind to [d1] returns the trigger of [d0], and rebinding to that value
    returns the trigger of [d1] and leaves every bind bound as it was
    before the rebind to [d1]. *)
Theorem rebind_undo (t : Tables) (b : string) (d0 d1 : pydict)
    (kwds : rebind_kwds) (old : option pydict) :
  joy_table_ok (joy_map t) -> unique_keys d0 -> unique_keys d1 ->
  JoyMap.get_bound_joystick_event (joy_map t) b = Ok old ->
  exists t1 t2 t3,
    rebind t b [ADict d0] kwds = Ok (joy_rebound old, t1, []) /\
    rebind t1 b [ADict d1] kwds = Ok (RJoy (drop_noise d0), t2, []) /\
    rebind t2 b [ADict (drop_noise d0)] kwds = Ok (RJoy (drop_noise d1), t3, []) /\
    forall c,
      JoyMap.get_bound_joystick_event (joy_map t3) c
      = JoyMap.get_bound_joystick_event (joy_map t1) c.
Proof.
  intros Hok Hd0 Hd1 Hold.
  pose proof (rebind_ok (joy_map t) b (Some (drop_noise d0)) Hok) as Hok1.
  pose proof (rebind_ok _ b (Some (drop_noise d1)) Hok1) as Hok2.
  pose proof (get_bound_after_rebind (joy_map t) b d0 Hok Hd0) as Hg1.
  pose proof (get_bound_after_rebind _ b d1 Hok1 Hd1) as Hg2.
  do 3 eexists. split; [apply rebind_joystick_step, Hold |].
  split; [apply (rebind_joystick_step _ b d1 [] kwds (Some (drop_noise d0))), Hg1 |].
  split; [apply (rebind_joystick_step _ b (drop_noise d0) [] kwds
                   (Some (drop_noise d1))), Hg2 |].
  intros c. cbn [joy_map]. rewrite drop_noise_idempotent.
  destruct (string_dec c b) as [-> | Hne].
  - rewrite Hg1. apply get_bound_after_rebind; assumption.
  - apply get_bound_of_slot.
    rewrite rebind_bound_other; [| apply Hok2 | exact Hne].
    rewrite rebind_bound_other; [| apply Hok1 | exact Hne].
    reflexivity.
Qed.

Lemma rebind_undo_witness :
  exists t1 t2 t3,
    rebind ex_tables "fire" [ADict ex_hat_button] no_kwds
    = Ok (joy_rebound (Some ex_button), t1, []) /\
    rebind t1 "fire" [ADict ex_button_noisy] no_kwds
    = Ok (RJoy (drop_noise ex_hat_button), t2, []) /\
    rebind t2 "fire" [ADict (drop_noise ex_hat_button)] no_kwds
    = Ok (RJoy (drop_noise ex_button_noisy), t3, []) /\
    forall c,
      JoyMap.get_bound_joystick_event (joy_map t3) c
      = JoyMap.get_bound_joystick_event (joy_map t1) c.
Proof.
  apply (rebind_undo ex_tables "fire" ex_hat_button ex_button_noisy no_kwds
           (Some ex_button)).
  - apply ex_two_binds_ok.
  - vm_compute. distinct.
  - vm_compute. distinct.
  - reflexivity.
Defined.

End LifecycleFacts.

(** ** Reading the key section; resolution after a rebind *)

Section KeySectionFacts.
Import JSONParser.

Lemma unpack_keys_steps (key_code : string -> result Z)
    (maps : dict string jvalue) :
  _unpack_keys key_code maps = fold_left (unpack_key_step key_code) maps (Ok []).
Proof. reflexivity. Qed.

Lemma unpack_key_step_raised (key_code : string -> result Z)
    (maps : dict string jvalue) (e : exn) :
  fold_left (unpack_key_step key_code) maps (Raise e) = Raise e.
Proof. induction maps as [| [b kd] r IH]; simpl; [reflexivity | exact IH]. Qed.

Lemma setdefault_append_keeps {K A : Type} `{EqDec K} (k k0 : K) (x y : A)
    (t : dict K (list A)) :
  (exists l, dget k0 t = Some l /\ In y l) ->
  exists l, dget k0 (setdefault_append k x t) = Some l /\ In y l.
Proof.
  intros [l [Hget Hin]]. destruct (eq_dec k0 k) as [-> | Hne].
  - rewrite dget_setdefault_append_same, Hget.
    eexists. split; [reflexivity |]. apply in_or_app. left. exact Hin.
  - rewrite dget_setdefault_append_other by exact Hne. exists l. tauto.
Qed.

(** A readable entry has a slot, and an entry with a slot is readable. *)
Lemma readable_code (key_code : string -> result Z) (kd name modifier : jvalue) :
  unpack_pair kd = Ok (name, modifier) ->
  (readable_key_data key_code kd <-> exists k, code_of key_code name = Ok k).
Proof.
  intros Hpair. split.
  - intros [name' [modifier' [Hpair' Hname]]].
    rewrite Hpair in Hpair'. inversion Hpair'; subst name' modifier'.
    destruct Hname as [-> | [n [c [-> Hc]]]].
    + exists None. reflexivity.
    + exists (Some c). cbn [code_of]. rewrite Hc. reflexivity.
  - intros [k Hk]. exists name, modifier. split; [exact Hpair |].
    destruct name as [| z | n | l]; cbn [code_of] in Hk; try discriminate.
    + left. reflexivity.
    + right. destruct (key_code n) as [c | e] eqn:Hc; [| discriminate].
      exists n, c. split; [reflexivity | exact Hc].
Qed.

(** One round that goes through: the entry was readable, and the bind is
    appended under its slot. *)
Lemma unpack_key_step_ok (key_code : string -> result Z) (acc acc' : KeyMap.KeyMap)
    (b : string) (kd : jvalue) :
  unpack_key_step key_code (Ok acc) (b, kd) = Ok acc' ->
  exists name modifier k,
    unpack_pair kd = Ok (name, modifier) /\ code_of key_code name = Ok k /\
    acc' = setdefault_append k (KeyMap.mkKeyBind b (mask_of modifier)) acc.
Proof.
  unfold unpack_key_step. cbn [rbind].
  destruct (unpack_pair kd) as [[name modifier] | e]; cbn [rbind];
    [| discriminate].
  destruct (code_of key_code name) as [k | e] eqn:Hk; cbn [rbind];
    [| discriminate].
  intros Heq. inversion Heq. exists name, modifier, k.
  split; [reflexivity | split; [exact Hk | reflexivity]].
Qed.

Lemma unpack_keys_fold (key_code : string -> result Z)
    (maps : dict string jvalue) (acc : KeyMap.KeyMap) :
  (forall b kd, In (b, kd) maps -> readable_key_data key_code kd) ->
  exists km,
    fold_left (unpack_key_step key_code) maps (Ok acc) = Ok km /\
    (forall k kb, (exists l, dget k acc = Some l /\ In kb l) ->
       exists l, dget k km = Some l /\ In kb l) /\
    (forall b kd name modifier, In (b, kd) maps ->
       unpack_pair kd = Ok (name, modifier) ->
       exists k l, code_of key_code name = Ok k /\ dget k km = Some l
                   /\ In (KeyMap.mkKeyBind b (mask_of modifier)) l) /\
    (forall kb, In kb (all_binds km) ->
       In kb (all_binds acc)
       \/ exists kd name modifier,
            In (KeyMap.bind_name kb, kd) maps
            /\ unpack_pair kd = Ok (name, modifier)
            /\ KeyMap.mod_ kb = mask_of modifier).
Proof.
  revert acc. induction maps as [| [b kd] r IH]; intros acc Hread.
  - exists acc. split; [reflexivity |]. split; [tauto |].
    split; [intros ? ? ? ? [] | tauto].
  - destruct (Hread b kd (or_introl eq_refl)) as [name [modifier [Hpair Hname]]].
    assert (Hk : exists k, code_of key_code name = Ok k).
    { apply (readable_code key_code kd name modifier Hpair).
      exists name, modifier. tauto. }
    destruct Hk as [k Hk].
    cbn [fold_left]. unfold unpack_key_step at 2. cbn [rbind].
    rewrite Hpair. cbn [rbind]. rewrite Hk. cbn [rbind].
    destruct (IH (setdefault_append k (KeyMap.mkKeyBind b (mask_of modifier)) acc))
      as [km [Hfold [Hkeep [Hplaced Hfrom]]]].
    { intros b' kd' Hin. apply (Hread b' kd'). right. exact Hin. }
    exists km. split; [exact Hfold |]. split; [| split].
    + intros k0 kb Hex. apply Hkeep, setdefault_append_keeps, Hex.
    + intros b' kd' name' modifier' [Heq | Hin] Hpair'.
      * inversion Heq; subst b' kd'. rewrite Hpair in Hpair'.
        inversion Hpair'; subst name' modifier'. exists k.
        destruct (Hkeep k (KeyMap.mkKeyBind b (mask_of modifier))) as [l Hl].
        { rewrite dget_setdefault_append_same. eexists. split; [reflexivity |].
          apply in_or_app. right. left. reflexivity. }
        exists l. split; [exact Hk | exact Hl].
      * apply (Hplaced b' kd' name' modifier' Hin Hpair').
    + intros kb Hin. destruct (Hfrom kb Hin) as [Hacc | [kd' [n' [m' [H1 H2]]]]].
      * apply all_binds_setdefault_append_In in Hacc.
        destruct Hacc as [-> | Hacc]; [| left; exact Hacc].
        right. exists kd, name, modifier. cbn [KeyMap.bind_name KeyMap.mod_].
        split; [left; reflexivity | split; [exact Hpair | reflexivity]].
      * right. exists kd', n', m'. split; [right; exact H1 | exact H2].
Qed.

Lemma unpack_keys_readable (key_code : string -> result Z)
    (maps : dict string jvalue) (acc km : KeyMap.KeyMap) :
  fold_left (unpack_key_step key_code) maps (Ok acc) = Ok km ->
  forall b kd, In (b, kd) maps -> readable_key_data key_code kd.
Proof.
  revert acc. induction maps as [| [b0 kd0] r IH]; intros acc Hkm b kd Hin;
    [destruct Hin |].
  cbn [fold_left] in Hkm.
  destruct (unpack_key_step key_code (Ok acc) (b0, kd0)) as [acc1 | e] eqn:Hstep;
    [| rewrite unpack_key_step_raised in Hkm; discriminate].
  destruct (unpack_key_step_ok key_code acc acc1 b0 kd0 Hstep)
    as [name [modifier [k [Hpair [Hk _]]]]].
  destruct Hin as [Heq | Hin].
  - inversion Heq; subst b kd.
    apply (readable_code key_code kd0 name modifier Hpair). exists k. exact Hk.
  - apply (IH acc1 Hkm b kd Hin).
Qed.

(** X22: [_unpack_keys] goes through exactly when every entry of the
    section unpacks into two items, the first of them [null] or a key name
    that [pygame.key.key_code] knows; every entry whose modifier is [null]
    or an int then stands, with that modifier, in the list under the code of
    its key name, an unbound one under [None], and every bind of the table
    comes from an entry of its name. *)
Theorem unpack_keys_places_binds (key_code : string -> result Z)
    (maps : dict string jvalue) :
  ((forall b kd, In (b, kd) maps -> readable_key_data key_code kd)
   <-> exists km, _unpack_keys key_code maps = Ok km) /\
  (forall km, _unpack_keys key_code maps = Ok km ->
     (forall b kd name modifier, In (b, kd) maps ->
        unpack_pair kd = Ok (name, modifier) -> is_mask modifier ->
        exists k l, code_of key_code name = Ok k /\ dget k km = Some l
                    /\ In (KeyMap.mkKeyBind b (mask_of modifier)) l) /\
     (forall kb, In kb (all_binds km) ->
        exists kd name modifier,
          In (KeyMap.bind_name kb, kd) maps
          /\ unpack_pair kd = Ok (name, modifier)
          /\ (is_mask modifier -> KeyMap.mod_ kb = mask_of modifier))).
Proof.
  split; [split |].
  - intros H. destruct (unpack_keys_fold key_code maps [] H) as [km [Hfold _]].
    exists km. rewrite unpack_keys_steps. exact Hfold.
  - intros [km Hkm]. rewrite unpack_keys_steps in Hkm.
    apply (unpack_keys_readable key_code maps [] km Hkm).
  - intros km Hkm. rewrite unpack_keys_steps in Hkm.
    pose proof (unpack_keys_readable key_code maps [] km Hkm) as Hall.
    destruct (unpack_keys_fold key_code maps [] Hall)
      as [km' [Hfold [_ [Hplaced Hfrom]]]].
    pose proof (eq_trans (eq_sym Hfold) Hkm) as Heq.
    inversion Heq; subst km'. split.
    + intros b kd name modifier Hin Hpair _.
      apply (Hplaced b kd name modifier Hin Hpair).
    + intros kb Hin.
      destruct (Hfrom kb Hin) as [[] | [kd [name [modifier [H1 [H2 H3]]]]]].
      exists kd, name, modifier. tauto.
Qed.

Lemma unpack_keys_places_binds_witness :
  (exists km,
     _unpack_keys ex_key_code ex_key_section = Ok km /\
     exists l, dget (Some 32) km = Some l
               /\ In (KeyMap.mkKeyBind "jump" (Some 1)) l) /\
  ~ (exists km, _unpack_keys ex_key_code [("jump", JNum 32)] = Ok km).
Proof.
  split.
  - destruct (unpack_keys_places_binds ex_key_code ex_key_section) as [_ Hplaced].
    eexists. split; [reflexivity |].
    destruct (proj1 (Hplaced _ eq_refl) "jump"
                (JArr [JStr "space"; JNum 1]) (JStr "space") (JNum 1))
      as [k [l [Hk [Hget Hin]]]].
    + left. reflexivity.
    + reflexivity.
    + right. exists 1. reflexivity.
    + inversion Hk; subst k. exists l. split; [exact Hget | exact Hin].
  - intros Hex.
    pose proof (proj2 (proj1 (unpack_keys_places_binds ex_key_code
                                [("jump", JNum 32)])) Hex) as Hall.
    destruct (Hall "jump" (JNum 32) (or_introl eq_refl))
      as [name [modifier [Hpair _]]].
    discriminate.
Defined.
End KeySectionFacts.

Section RedirectFacts.
Import KeyListener.

Lemma joy_get_default (jm : JoyMap.JoyMap) (e : event_arg) :
  JoyMap.get jm e (Some []) = JoyMap.get jm e None.
Proof. reflexivity. Qed.

(** X23: resolution follows a rebind: once a bind of the joystick table is
    rebound to a dict, an event without key resolves to that bind exactly
    when it has the attributes of the dict, noise apart, and then every
    function hooked under the bind for the event's type is returned in the
    list of its concurrency class. *)
Theorem rebind_redirects_resolution
    (int_is : Z -> Z -> bool) (t : Tables) (self : Listener) (name : string)
    (d : pydict) (rest : list arg) (kwds : rebind_kwds) (old : option pydict)
    (event : Event) :
  joy_table_ok (joy_map t) ->
  JoyMap.get_bound_joystick_event (joy_map t) name = Ok old ->
  getattr event "key" = PNone ->
  exists t' binds,
    rebind t name (ADict d :: rest) kwds = Ok (joy_rebound old, t', []) /\
    JoyMap.get (joy_map t') (ArgEvent event) (Some []) = Ok binds /\
    _get_callables int_is t' self event = Ok (callables_of self event binds) /\
    (In name binds <-> drop_noise (__dict__ event) = drop_noise d) /\
    (In name binds ->
     forall sequential h,
       In h (hooks_of (_key_hooks self) name (negb sequential) (type_ event)) ->
       In h (functions_of sequential (callables_of self event binds))).
Proof.
  intros Hok Hold HK.
  pose proof (rebind_ok (joy_map t) name (Some (drop_noise d)) Hok) as Hok'.
  destruct (get_names _ (ArgEvent event) (__dict__ event) Hok' eq_refl)
    as [binds [Hget Hin]].
  exists (mkTables (key_map t)
            (JoyMap._rebind (joy_map t) name (Some (drop_noise d)))), binds.
  split; [apply rebind_joystick_step, Hold |]. cbn [joy_map].
  split; [rewrite joy_get_default; exact Hget |].
  split; [apply get_callables_joystick; [exact HK |];
          rewrite joy_get_default; exact Hget |].
  split.
  - rewrite Hin, (rebind_bound_same (joy_map t) name _ Hok).
    split; [intros Heq; inversion Heq; reflexivity | intros ->; reflexivity].
  - intros Hname sequential h Hh. unfold functions_of, callables_of.
    destruct sequential; cbn [negb] in Hh;
      cbn [sequential_functions concurrent_functions];
      apply in_flat_map; exists name; tauto.
Qed.

Lemma rebind_redirects_resolution_witness :
  exists t' binds,
    rebind ex_tables "fire" [ADict ex_hat_button] no_kwds
    = Ok (joy_rebound (Some ex_button), t', []) /\
    JoyMap.get (joy_map t') (ArgEvent ex_button_press) (Some []) = Ok binds /\
    (In "fire" binds
     <-> drop_noise (__dict__ ex_button_press) = drop_noise ex_hat_button).
Proof.
  destruct (rebind_redirects_resolution cpython_is ex_tables (__init__ "main")
              "fire" ex_hat_button [] no_kwds (Some ex_button) ex_button_press
              ex_two_binds_ok eq_refl eq_refl)
    as [t' [binds [H1 [H2 [_ [H3 _]]]]]].
  exists t', binds. split; [exact H1 |]. split; [exact H2 | exact H3].
Defined.
End RedirectFacts.

(** ** Clearing a bind, in general *)

Section ClearBindFacts.
Import KeyListener.

(** X24: [clear_bind] without elimination leaves the tables alone and
    empties the hooks of the bind, functions and methods, so that an event
    resolving to the bind gets nothing from it; the hooks of other binds
    stay, and the warning is logged exactly when neither index has an entry
    for the name. *)
Theorem clear_bind_empties_hooks (t : Tables) (self : Listener) (b : string) :
  let t' := fst (fst (clear_bind t self b false)) in
  let self' := snd (fst (clear_bind t self b false)) in
  t' = t /\
  (forall event, callables_of self' event [b] = mkCallableSets [] [] [] []) /\
  (forall b' c e, b' <> b ->
     hooks_of (_key_hooks self') b' c e = hooks_of (_key_hooks self) b' c e /\
     hooks_of (_class_listeners self') b' c e
     = hooks_of (_class_listeners self) b' c e) /\
  (snd (clear_bind t self b false) = [Warning]
   <-> dget b (_key_hooks self) = None /\ dget b (_class_listeners self) = None).
Proof.
  intros t' self'.
  pose proof (clear_bind_keeps_trigger t self b) as Hkeep.
  unfold t', self'. clear t' self'.
  split; [| split; [| split]].
  - destruct (clear_bind t self b false) as [[t1 s1] log]. apply Hkeep.
  - intros event.
    destruct (clear_bind t self b false) as [[t1 s1] log].
    destruct Hkeep as [_ Hempty]. cbn [fst snd].
    unfold callables_of. cbn [flat_map].
    rewrite !app_nil_r.
    rewrite (proj1 (Hempty true (type_ event))),
            (proj1 (Hempty false (type_ event))),
            (proj2 (Hempty true (type_ event))),
            (proj2 (Hempty false (type_ event))).
    reflexivity.
  - intros b' c e Hne. unfold clear_bind.
    destruct (dget b (_key_hooks self)) as [[| x l] |];
      destruct (dget b (_class_listeners self)) as [[| y m] |];
      cbn [fst snd _key_hooks _class_listeners];
      split; unfold hooks_of; rewrite ?dget_dset_other by exact Hne;
      reflexivity.
  - unfold clear_bind.
    destruct (dget b (_key_hooks self)) as [[| x l] |];
      destruct (dget b (_class_listeners self)) as [[| y m] |];
      cbn [fst snd app]; split;
      try discriminate; try (intros [H1 H2]; discriminate); tauto.
Qed.

(** X25: [clear_bind] with elimination, for a bind that has an entry in
    the function index, takes the bind out of the joystick table and out of
    the function index without a warning: its look-up by name raises, no
    event finds it, and every other joystick bind stays bound as it was. *)
Theorem clear_bind_eliminates (t : Tables) (self : Listener) (b : string)
    (hooks : dict bool (dict Z (list Callable))) :
  joy_table_ok (joy_map t) -> unique_keys (_key_hooks self) ->
  dget b (_key_hooks self) = Some hooks ->
  let t' := fst (fst (clear_bind t self b true)) in
  let self' := snd (fst (clear_bind t self b true)) in
  snd (clear_bind t self b true) = [] /\
  joy_table_ok (joy_map t') /\
  JoyMap.get_bound_joystick_event (joy_map t') b = Raise ValueError /\
  (forall c, c <> b ->
     JoyMap.get_bound_joystick_event (joy_map t') c
     = JoyMap.get_bound_joystick_event (joy_map t) c) /\
  (forall e d, attributes e = Some d ->
     exists l, JoyMap.get (joy_map t') e None = Ok l /\ ~ In b l) /\
  dget b (_key_hooks self') = None /\
  (forall b' c e, b' <> b ->
     hooks_of (_key_hooks self') b' c e = hooks_of (_key_hooks self) b' c e).
Proof.
  intros Hok Hkh Hget t' self'. unfold t', self', clear_bind. clear t' self'.
  rewrite Hget. cbn [fst snd joy_map _key_hooks].
  destruct Hok as [Huk Hnd].
  assert (Hok' : joy_table_ok (JoyMap.remove_bind (joy_map t) b))
    by (split; [apply remove_bind_unique_keys | apply remove_bind_NoDup]; assumption).
  assert (Hgone : JoyMap.bound_slot b (JoyMap.remove_bind (joy_map t) b) = None)
    by (apply bound_slot_None, remove_bind_gone; assumption).
  split; [reflexivity |]. split; [exact Hok' |]. split; [| split; [| split; [| split]]].
  - unfold JoyMap.get_bound_joystick_event, JoyMap._joy_binds.
    rewrite Hgone. reflexivity.
  - intros c Hne. apply get_bound_of_slot, remove_bind_bound_other; assumption.
  - intros e d Hat. destruct (get_names _ e d Hok' Hat) as [l [Hl Hin]].
    exists l. split; [exact Hl |]. rewrite Hin, Hgone. discriminate.
  - apply dget_dpop_same, Hkh.
  - intros b' c e Hne. unfold hooks_of.
    rewrite dget_dpop_other by exact Hne. reflexivity.
Qed.

Lemma clear_bind_eliminates_witness :
  snd (clear_bind (mkTables [] ex_two_binds)
         (decorator (__init__ "main") "fire" JOYBUTTONDOWN ex_shoot) "fire" true)
  = [] /\
  JoyMap.get_bound_joystick_event
    (joy_map
       (fst (fst (clear_bind (mkTables [] ex_two_binds)
                    (decorator (__init__ "main") "fire" JOYBUTTONDOWN ex_shoot)
                    "fire" true))))
    "fire"
  = Raise ValueError.
Proof.
  destruct (clear_bind_eliminates (mkTables [] ex_two_binds)
              (decorator (__init__ "main") "fire" JOYBUTTONDOWN ex_shoot) "fire"
              [(false, [(JOYBUTTONDOWN, [ex_shoot])])])
    as [H1 [_ [H2 _]]].
  - apply ex_two_binds_ok.
  - vm_compute. distinct.
  - reflexivity.
  - split; [exact H1 | exact H2].
Defined.
End ClearBindFacts.

(** ** One pair of tables, one set of indexes per listener *)

Section SharedTableFacts.
Import KeyListener.





End SharedTableFacts.
